(** * NeoForge AI pipeline: a shallow embedding of the core modules

    The development follows the layout of the repository:

    - [Py]          the handful of Python [str] and [list] primitives the
                    sources rely on ([split], [join], [startswith], [strip], ...);
    - [posixpath]   the POSIX implementation of [os.path] used by
                    [core/file_system.py] ([join], [normpath], [abspath],
                    [commonpath]);
    - [OS]          a small file-system state with [makedirs], [open], [listdir];
    - [FileSystem]  [core/file_system.py];
    - [VizState]    the progress record of [viz/server.py];
    - [GroqRunner]  [core/groq_runner.py]: the credential pool and the
                    tool-calling loop [run_agent];
    - [Orchestrator] [core/orchestrator.py]: the phase pipeline.

    Strings are [string] (one [ascii] per code point below 256; a literal
    with other characters holds their UTF-8 bytes), counters are [nat], the
    back-off wait is a rational.  Calls to [logger] and the progress
    updates the engine and the pipeline send to [VizState] do not influence
    what the code does next; they are left out of the state of a run, and
    [VizState] is modelled on its own.

    What the embedding leaves out.  The file system has directories and
    text files only: no symbolic or hard links, no permissions, no full
    disk, no file whose bytes are not UTF-8, and the log file
    [neoforge.log] that [logger] appends to is not part of it.  A tool
    call carries arguments that do not decode or a JSON object of strings.
    A client of the pool is identified with its key. *)

From Stdlib Require Import ZArith QArith Lia Lqa Ascii.
From stdpp Require Import base list strings gmap pretty.

Local Open Scope string_scope.
Local Open Scope list_scope.
Local Open Scope nat_scope.

(** ** Python string primitives *)

Module Py.

(** [s.split(sep)] for a one-character separator. *)
Fixpoint split (sep : ascii) (s : string) : list string :=
  match s with
  | EmptyString => [EmptyString]
  | String c s' =>
      if Ascii.eqb c sep then EmptyString :: split sep s'
      else match split sep s' with
           | [] => [String c EmptyString]
           | w :: ws => String c w :: ws
           end
  end.

(** [sep.join(l)]. *)
Fixpoint join (sep : string) (l : list string) : string :=
  match l with
  | [] => EmptyString
  | [x] => x
  | x :: l' => x +:+ sep +:+ join sep l'
  end.

(** [s.startswith(p)]. *)
Fixpoint startswith (s p : string) {struct p} : bool :=
  match p with
  | EmptyString => true
  | String a p' =>
      match s with
      | EmptyString => false
      | String b s' => Ascii.eqb a b && startswith s' p'
      end
  end.

(** [s.endswith(sep)] for a one-character suffix. *)
Fixpoint endswith_char (s : string) (c : ascii) : bool :=
  match s with
  | EmptyString => false
  | String a EmptyString => Ascii.eqb a c
  | String _ s' => endswith_char s' c
  end.

(** [needle in hay]. *)
Fixpoint contains (needle hay : string) : bool :=
  startswith hay needle ||
  match hay with
  | EmptyString => false
  | String _ hay' => contains needle hay'
  end.

(** [c.isspace()] on the code points below 256. *)
Definition isspace (c : ascii) : bool :=
  let n := nat_of_ascii c in
  ((9 <=? n) && (n <=? 13)) || ((28 <=? n) && (n <=? 32))
  || (n =? 133) || (n =? 160).

Fixpoint lstrip (s : string) : string :=
  match s with
  | EmptyString => EmptyString
  | String c s' => if isspace c then lstrip s' else s
  end.

Fixpoint rstrip (s : string) : string :=
  match s with
  | EmptyString => EmptyString
  | String c s' =>
      match rstrip s' with
      | EmptyString => if isspace c then EmptyString else String c EmptyString
      | r => String c r
      end
  end.

(** [s.strip()]. *)
Definition strip (s : string) : string := rstrip (lstrip s).

(** Truthiness of a [str]. *)
Definition truthy (s : string) : bool := negb (bool_decide (s = EmptyString)).

(** What reading in text mode makes of the line ends of a file
    ([newline=None]): [\r\n] and a lone [\r] both become [\n]. *)
Fixpoint universal_newlines (s : string) : string :=
  match s with
  | EmptyString => EmptyString
  | String c s' =>
      if Ascii.eqb c "013" then
        String "010"
          match s' with
          | String d s'' =>
              if Ascii.eqb d "010" then universal_newlines s''
              else universal_newlines s'
          | EmptyString => EmptyString
          end
      else String c (universal_newlines s')
  end.

(** [no_sep sep s]: the character [sep] does not occur in [s]. *)
Fixpoint no_sep (sep : ascii) (s : string) : Prop :=
  match s with
  | EmptyString => True
  | String c s' => c ≠ sep ∧ no_sep sep s'
  end.

(** Comparison of lists of strings, as Python compares lists. *)
Fixpoint list_compare (a b : list string) : comparison :=
  match a, b with
  | [], [] => Eq
  | [], _ :: _ => Lt
  | _ :: _, [] => Gt
  | x :: a', y :: b' =>
      match String.compare x y with
      | Eq => list_compare a' b'
      | c => c
      end
  end.

(** [min([a, b])] and [max([a, b])]: the first of equal candidates wins. *)
Definition min2 (a b : list string) : list string :=
  match list_compare b a with Lt => b | _ => a end.
Definition max2 (a b : list string) : list string :=
  match list_compare b a with Gt => b | _ => a end.

End Py.

(** ** [os.path] on POSIX *)

Module posixpath.

Definition sep : ascii := "/"%char.

Definition isabs (p : string) : bool := Py.startswith p "/".

(** [os.path.join(a, b)]. *)
Definition join (a b : string) : string :=
  if Py.startswith b "/" then b
  else if negb (Py.truthy a) || Py.endswith_char a sep then a +:+ b
  else a +:+ "/" +:+ b.

(** One turn of the component loop of [normpath]. *)
Definition normpath_step (initial_slashes : nat) (new_comps : list string)
    (comp : string) : list string :=
  if bool_decide (comp = "" ∨ comp = ".") then new_comps
  else if bool_decide (comp ≠ "..")
          || ((initial_slashes =? 0) && bool_decide (new_comps = []))
          || bool_decide (last new_comps = Some "..")
       then new_comps ++ [comp]
       else if bool_decide (new_comps ≠ []) then removelast new_comps
       else new_comps.

Fixpoint repeat_sep (n : nat) : string :=
  match n with
  | O => ""
  | S n' => String sep (repeat_sep n')
  end.

Definition normpath (path : string) : string :=
  if bool_decide (path = "") then "."
  else
    let initial_slashes :=
      if Py.startswith path "/" then
        if Py.startswith path "//" && negb (Py.startswith path "///")
        then 2 else 1
      else 0 in
    let comps := fold_left (normpath_step initial_slashes) (Py.split sep path) [] in
    let path' := repeat_sep initial_slashes +:+ Py.join "/" comps in
    if bool_decide (path' = "") then "." else path'.

(** [os.path.abspath(path)]; [cwd] is what [os.getcwd()] returns. *)
Definition abspath (cwd path : string) : string :=
  if isabs path then normpath path else normpath (join cwd path).

(** The components [commonpath] compares: empty ones and [.] dropped. *)
Definition comps (p : string) : list string :=
  filter (λ c, c ≠ "" ∧ c ≠ ".") (Py.split sep p).

Inductive commonpath_result :=
| Common (p : string)
| RaisesValueError        (* absolute and relative paths mixed *)
| RaisesIndexError.       (* [s2[i]] out of range *)

(** The loop [for i, c in enumerate(s1): if c != s2[i]: ...]. *)
Fixpoint common_loop (s1 s2 : list string) : option (list string) :=
  match s1 with
  | [] => Some []
  | c :: s1' =>
      match s2 with
      | [] => None
      | d :: s2' =>
          if bool_decide (c ≠ d) then Some []
          else cons c <$> common_loop s1' s2'
      end
  end.

(** [os.path.commonpath([p1, p2])]. *)
Definition commonpath (p1 p2 : string) : commonpath_result :=
  if negb (Bool.eqb (isabs p1) (isabs p2)) then RaisesValueError
  else
    let s1 := Py.min2 (comps p1) (comps p2) in
    let s2 := Py.max2 (comps p1) (comps p2) in
    match common_loop s1 s2 with
    | None => RaisesIndexError
    | Some common =>
        Common ((if isabs p1 then "/" else "") +:+ Py.join "/" common)
    end.

End posixpath.





(** ** The file system seen by the process

    A state maps the components of a resolved absolute path to a node; the
    root directory (no components) always exists.  A file holds the text
    its bytes decode to.  Symbolic links and permissions are not
    modelled. *)

Module OS.

Inductive node :=
| File (content : string)
| Dir.

Abbreviation FS := (gmap (list string) node).

Inductive os_error :=
| IsADirectoryError (k : list string)
| NotADirectoryError (k : list string)
| FileExistsError (k : list string)
| FileNotFoundError (k : list string).

Definition show_key (k : list string) : string := "/" +:+ Py.join "/" k.

(** [str(e)] of an [OSError]. *)
Definition strerror (e : os_error) : string :=
  match e with
  | IsADirectoryError k => "[Errno 21] Is a directory: '" +:+ show_key k +:+ "'"
  | NotADirectoryError k => "[Errno 20] Not a directory: '" +:+ show_key k +:+ "'"
  | FileExistsError k => "[Errno 17] File exists: '" +:+ show_key k +:+ "'"
  | FileNotFoundError k => "[Errno 2] No such file or directory: '" +:+ show_key k +:+ "'"
  end.

(** How the kernel resolves a path name of the process. *)
Definition resolve (cwd p : string) : list string :=
  posixpath.comps (posixpath.abspath cwd p).

Definition node_at (fs : FS) (k : list string) : option node :=
  if bool_decide (k = []) then Some Dir else fs !! k.

(** [os.path.exists(p)]. *)
Definition path_exists (cwd : string) (fs : FS) (p : string) : bool :=
  bool_decide (is_Some (node_at fs (resolve cwd p))).

(** [os.makedirs(name, exist_ok=True)], one component after the other. *)
Fixpoint makedirs_from (done rest : list string) (fs : FS) : FS + os_error :=
  match rest with
  | [] => inl fs
  | c :: rest' =>
      let k := done ++ [c] in
      match node_at fs k with
      | Some Dir => makedirs_from k rest' fs
      | Some (File _) =>
          inr (match rest' with
               | [] => FileExistsError k
               | d :: _ => NotADirectoryError (k ++ [d])
               end)
      | None => makedirs_from k rest' (<[k := Dir]> fs)
      end
  end.

Definition makedirs_key (k : list string) (fs : FS) : FS + os_error :=
  makedirs_from [] k fs.

Definition makedirs (cwd : string) (fs : FS) (p : string) : FS + os_error :=
  makedirs_key (resolve cwd p) fs.

(** [open(p, "w").write(content)]. *)
Definition write_key (k : list string) (content : string) (fs : FS) : FS + os_error :=
  match node_at fs k with
  | Some Dir => inr (IsADirectoryError k)
  | _ =>
      match node_at fs (removelast k) with
      | Some Dir => inl (<[k := File content]> fs)
      | Some (File _) => inr (NotADirectoryError k)
      | None => inr (FileNotFoundError k)
      end
  end.

(** [open(p, "r", encoding="utf-8").read()]: the text of the file, its
    line ends translated. *)
Definition read_key (k : list string) (fs : FS) : string + os_error :=
  match node_at fs k with
  | Some (File c) => inl (Py.universal_newlines c)
  | Some Dir => inr (IsADirectoryError k)
  | None => inr (FileNotFoundError k)
  end.

(** The name of [k'] when it is an entry of directory [k]. *)
Fixpoint child_name (k k' : list string) : option string :=
  match k, k' with
  | [], [n] => Some n
  | c :: k1, d :: k1' => if bool_decide (c = d) then child_name k1 k1' else None
  | _, _ => None
  end.

(** [os.listdir(p)]; the order is the enumeration order of the state. *)
Definition listdir_key (k : list string) (fs : FS) : list string + os_error :=
  match node_at fs k with
  | Some Dir => inl (omap (λ e, child_name k e.1) (map_to_list fs))
  | Some (File _) => inr (NotADirectoryError k)
  | None => inr (FileNotFoundError k)
  end.

(** [os.path.dirname] of a normalised absolute path, on components. *)
Definition dirname_key (k : list string) : list string := removelast k.

End OS.

(** ** Exceptions that travel through the modelled code *)

Inductive exn :=
| IndexError
| KeyError (key : string)
| OSError (e : OS.os_error)
| APIError (error_str : string)
| RuntimeError (msg : string)
| ValueError (msg : string).

(** [str(e)]. *)
Definition str_exn (e : exn) : string :=
  match e with
  | IndexError => "list index out of range"
  | KeyError key => "'" +:+ key +:+ "'"
  | OSError e => OS.strerror e
  | APIError error_str => error_str
  | RuntimeError msg => msg
  | ValueError msg => msg
  end.

(** ** [core/file_system.py] *)

Module FileSystem.

Import OS.

Definition PROJECT_SUBDIRS : list string := ["src"; "tests"; "frontend"; "logs"].

Definition security_violation (action : string) : string :=
  "Error: Security violation. Cannot " +:+ action +:+ " outside project root.".

(** [_assert_within_root]: [inl None] when inside, [inl (Some err)] when
    refused, [inr e] when an exception other than [ValueError] escapes. *)
Definition _assert_within_root (abs_path path action project_root : string)
    : option string + exn :=
  match posixpath.commonpath abs_path project_root with
  | posixpath.Common c =>
      if bool_decide (c ≠ project_root)
      then inl (Some (security_violation action))
      else inl None
  | posixpath.RaisesValueError => inl (Some (security_violation action))
  | posixpath.RaisesIndexError => inr IndexError
  end.

(** [project_root or os.getcwd()]. *)
Definition root_or_cwd (cwd : string) (project_root : option string) : string :=
  match project_root with
  | Some r => if Py.truthy r then r else cwd
  | None => cwd
  end.

Definition resolved (cwd : string) (project_root : option string) (path : string)
    : string :=
  posixpath.abspath cwd (posixpath.join (root_or_cwd cwd project_root) path).

Definition is_refusal (err : option string) : option string :=
  match err with
  | Some e => if Py.truthy e then Some e else None
  | None => None
  end.

Definition write_file (cwd : string) (fs : FS) (path content : string)
    (project_root : option string) : string * FS :=
  let root := root_or_cwd cwd project_root in
  let abs_path := posixpath.abspath cwd (posixpath.join root path) in
  match _assert_within_root abs_path path "write" root with
  | inr e => ("Error writing file: " +:+ str_exn e, fs)
  | inl err =>
      match is_refusal err with
      | Some e => (e, fs)
      | None =>
          let k := resolve cwd abs_path in
          match makedirs_key (dirname_key k) fs with
          | inr e => ("Error writing file: " +:+ strerror e, fs)
          | inl fs1 =>
              match write_key k content fs1 with
              | inr e => ("Error writing file: " +:+ strerror e, fs1)
              | inl fs2 => ("Successfully wrote to " +:+ path, fs2)
              end
          end
      end
  end.

Definition read_file (cwd : string) (fs : FS) (path : string)
    (project_root : option string) : string :=
  let root := root_or_cwd cwd project_root in
  let abs_path := posixpath.abspath cwd (posixpath.join root path) in
  match _assert_within_root abs_path path "read" root with
  | inr e => "Error reading file: " +:+ str_exn e
  | inl err =>
      match is_refusal err with
      | Some e => e
      | None =>
          if negb (path_exists cwd fs abs_path)
          then "Error: File " +:+ path +:+ " does not exist."
          else match read_key (resolve cwd abs_path) fs with
               | inl content => content
               | inr e => "Error reading file: " +:+ strerror e
               end
      end
  end.

Definition list_dir (cwd : string) (fs : FS) (path : string)
    (project_root : option string) : string :=
  let root := root_or_cwd cwd project_root in
  let abs_path := posixpath.abspath cwd (posixpath.join root path) in
  if negb (path_exists cwd fs abs_path)
  then "Error: Directory " +:+ path +:+ " does not exist."
  else match listdir_key (resolve cwd abs_path) fs with
       | inl files => Py.join (String "010"%char "") files
       | inr e => "Error listing directory: " +:+ strerror e
       end.

End FileSystem.

(** ** [viz/server.py]: the progress record *)

Module VizState.

Record t := {
  active_agent : string;
  current_task : string;
  messages : list string          (* [deque(maxlen=50)] *)
}.

Definition maxlen : nat := 50.

Definition initial : t :=
  {| active_agent := "Idle"; current_task := "Waiting..."; messages := [] |}.

(** [deque.append] on a bounded deque: the oldest entries fall out. *)
Definition deque_append (d : list string) (x : string) : list string :=
  let d' := d ++ [x] in drop (length d' - maxlen) d'.

(** [l[-n:]]. *)
Definition last_n {A} (n : nat) (l : list A) : list A := drop (length l - n) l.

Definition update (st : t) (agent task : string) (message : option string) : t :=
  {| active_agent := agent;
     current_task := task;
     messages :=
       match message with
       | Some m => if Py.truthy m then deque_append (messages st) m else messages st
       | None => messages st
       end |}.

Record snapshot := {
  agent : string;
  task : string;
  logs : list string
}.

Definition get_snapshot (st : t) : snapshot :=
  {| agent := active_agent st;
     task := current_task st;
     logs := last_n 5 (messages st) |}.

(** A call of [update], and the state after a sequence of calls. *)
Definition call : Type := string * string * option string.

Definition apply_call (st : t) (c : call) : t := update st c.1.1 c.1.2 c.2.

Definition after (calls : list call) : t := fold_left apply_call calls initial.

(** The log lines a sequence of calls appends, oldest first. *)
Definition appended (calls : list call) : list string :=
  omap (λ c : call, match c.2 with
                    | Some m => if Py.truthy m then Some m else None
                    | None => None
                    end) calls.

End VizState.

(** ** [core/groq_runner.py] *)

Module GroqRunner.

(** *** Conversation data *)

(** A tool call of the model.  [arguments] is what [json.loads] makes of
    the argument string: [None] when it raises [JSONDecodeError], the
    decoded object when the string is a JSON object with string values.
    Other JSON (an array, a number, an object with other values) has no
    counterpart here. *)
Record tool_call := {
  tc_id : string;
  tc_name : string;
  tc_arguments : option (gmap string string)
}.

Record assistant_message := {
  content : option string;
  tool_calls : list tool_call
}.

Inductive message :=
| SystemMsg (text : string)
| UserMsg (text : string)
| AssistantMsg (m : assistant_message)
| ToolMsg (tool_call_id text : string).

(** What [chat.completions.create] does: a response, or an exception
    whose [str] is [error_str]. *)
Inductive api_outcome :=
| Response (m : assistant_message)
| Failure (error_str : string).

(** The outside world of a run: the model endpoint, asked with the number
    of the request, the credential and the conversation, and the draws of
    [random.uniform(0, 5)]. *)
Record Oracle := {
  api : nat → string → list message → api_outcome;
  uniform_0_5 : nat → Q
}.

(** The process state a run reads and writes. *)
Record World := {
  cwd : string;
  fs : OS.FS;
  requests : nat;               (* chat requests issued so far *)
  sleeps : list Q;              (* arguments of [time.sleep], oldest first *)
  started : list string         (* agents whose conversation was started *)
}.

Definition set_fs (w : World) (fs' : OS.FS) : World :=
  {| cwd := cwd w; fs := fs'; requests := requests w;
     sleeps := sleeps w; started := started w |}.

Definition count_request (w : World) : World :=
  {| cwd := cwd w; fs := fs w; requests := S (requests w);
     sleeps := sleeps w; started := started w |}.

Definition sleep (w : World) (wait : Q) : World :=
  {| cwd := cwd w; fs := fs w; requests := requests w;
     sleeps := sleeps w ++ [wait]; started := started w |}.

Definition start (w : World) (agent_name : string) : World :=
  {| cwd := cwd w; fs := fs w; requests := requests w;
     sleeps := sleeps w; started := started w ++ [agent_name] |}.

(** *** The tool dispatcher *)

Definition _execute_tool (w : World) (name : string) (args : gmap string string)
    (project_root : string) : (string * World) + exn :=
  if bool_decide (name = "write_file") then
    match args !! "path" with
    | None => inr (KeyError "path")
    | Some path =>
        match args !! "content" with
        | None => inr (KeyError "content")
        | Some text =>
            let r := FileSystem.write_file (cwd w) (fs w) path text (Some project_root) in
            inl (r.1, set_fs w r.2)
        end
    end
  else if bool_decide (name = "read_file") then
    match args !! "path" with
    | None => inr (KeyError "path")
    | Some path =>
        inl (FileSystem.read_file (cwd w) (fs w) path (Some project_root), w)
    end
  else inl ("Unknown tool: " +:+ name, w).

(** *** The credential pool *)

Definition getenv (environ : gmap string string) (name : string) : string :=
  default "" (environ !! name).

Definition usable (key : string) : bool :=
  Py.truthy key && negb (Py.startswith key "your_").

Definition slot_name (i : nat) : string := "GROQ_API_KEY_" +:+ pretty i.

(** The pool is the list of keys; a client is identified with its key. *)
Definition build_client_pool (environ : gmap string string) : list string + exn :=
  let keys := [] in
  let primary := Py.strip (getenv environ "GROQ_API_KEY") in
  let keys := if usable primary then keys ++ [primary] else keys in
  let keys :=
    fold_left (λ keys i,
                 let key := Py.strip (getenv environ (slot_name i)) in
                 if usable key then keys ++ [key] else keys)
              (seq 2 4) keys in
  if bool_decide (keys = []) then
    inr (ValueError "No valid GROQ API keys found. Set GROQ_API_KEY in .env")
  else inl keys.

(** *** The tool-calling loop *)

Definition max_tool_calls : nat := 25.
Definition max_rate_retries : nat := 30.
Definition max_tool_fail_retries : nat := 2.
Definition base_wait : Z := 20.

Record LoopState := {
  messages : list message;
  tool_calls_made : nat;
  rate_limit_hits : nat;
  tool_fail_retries : nat;
  client_idx : nat;
  cycle_count : nat
}.

(** [base_wait * (2 ** (cycle_count - 1)) + random.uniform(0, 5)], for
    [cycle_count >= 1]. *)
Definition backoff_wait (cycle_count : nat) (jitter : Q) : Q :=
  (inject_Z (base_wait * 2 ^ (Z.of_nat cycle_count - 1)) + jitter)%Q.

Definition correction : string :=
  "Your previous tool call was malformed. You MUST call tools using the provided JSON function schema — do NOT use XML-style <function=...> syntax. Please retry.".

Definition parse_error : string :=
  "Error: Could not parse tool arguments. Please retry with valid JSON.".

(** The [for tool_call in msg.tool_calls] loop. *)
Fixpoint process_tool_calls (tcs : list tool_call) (project_root : string)
    (msgs : list message) (w : World) : (list message * World) + (exn * World) :=
  match tcs with
  | [] => inl (msgs, w)
  | tc :: tcs' =>
      match tc_arguments tc with
      | None =>
          process_tool_calls tcs' project_root
            (msgs ++ [ToolMsg (tc_id tc) parse_error]) w
      | Some fn_args =>
          match _execute_tool w (tc_name tc) fn_args project_root with
          | inr e => inr (e, w)
          | inl (tool_result, w') =>
              process_tool_calls tcs' project_root
                (msgs ++ [ToolMsg (tc_id tc) tool_result]) w'
          end
      end
  end.

Inductive iter_result :=
| Continue (st : LoopState) (w : World)
| Return (result : string) (w : World)
| Raise (e : exn) (w : World).

(** One turn of the [while] body. *)
Definition iteration (o : Oracle) (clients : list string) (project_root : string)
    (st : LoopState) (w : World) : iter_result :=
  match clients !! client_idx st with
  | None => Raise IndexError w
  | Some current_client =>
      let w1 := count_request w in
      match api o (requests w) current_client (messages st) with
      | Response msg =>
          let made := tool_calls_made st + 1 in
          match tool_calls msg with
          | [] => Return (default "" (content msg)) w1
          | tcs =>
              match process_tool_calls tcs project_root
                      (messages st ++ [AssistantMsg msg]) w1 with
              | inr (e, w2) => Raise e w2
              | inl (msgs, w2) =>
                  Continue {| messages := msgs;
                              tool_calls_made := made;
                              rate_limit_hits := rate_limit_hits st;
                              tool_fail_retries := tool_fail_retries st;
                              client_idx := client_idx st;
                              cycle_count := 0 |} w2
              end
          end
      | Failure error_str =>
          if Py.contains "rate_limit_exceeded" error_str then
            let next_idx := (client_idx st + 1) mod length clients in
            let all_exhausted := next_idx =? 0 in
            let cycle := if all_exhausted then cycle_count st + 1 else cycle_count st in
            let w2 :=
              if all_exhausted
              then sleep w1 (backoff_wait cycle (uniform_0_5 o (length (sleeps w1))))
              else w1 in
            Continue {| messages := messages st;
                        tool_calls_made := tool_calls_made st;
                        rate_limit_hits := rate_limit_hits st + 1;
                        tool_fail_retries := tool_fail_retries st;
                        client_idx := next_idx;
                        cycle_count := cycle |} w2
          else if Py.contains "tool_use_failed" error_str
                  && (tool_fail_retries st <? max_tool_fail_retries) then
            Continue {| messages := messages st ++ [UserMsg correction];
                        tool_calls_made := tool_calls_made st;
                        rate_limit_hits := rate_limit_hits st;
                        tool_fail_retries := tool_fail_retries st + 1;
                        client_idx := client_idx st;
                        cycle_count := cycle_count st |} w1
          else Raise (APIError error_str) w1
      end
  end.

Inductive outcome :=
| Returned (result : string)
| Raised (e : exn).

Definition loop_guard (st : LoopState) : bool :=
  (tool_calls_made st <? max_tool_calls) && (rate_limit_hits st <? max_rate_retries).

(** What follows the [while] loop. *)
Definition after_loop (st : LoopState) : string :=
  if max_rate_retries <=? rate_limit_hits st then
    "Agent aborted: rate limit hit " +:+ pretty (rate_limit_hits st) +:+ " times."
  else "Agent reached max tool calls.".

(** The [while] loop with at most [fuel] turns; [None] when they do not
    suffice. *)
Fixpoint run_loop (fuel : nat) (o : Oracle) (clients : list string)
    (project_root : string) (st : LoopState) (w : World) : option (outcome * World) :=
  if loop_guard st then
    match fuel with
    | O => None
    | S fuel' =>
        match iteration o clients project_root st w with
        | Continue st' w' => run_loop fuel' o clients project_root st' w'
        | Return result w' => Some (Returned result, w')
        | Raise e w' => Some (Raised e, w')
        end
    end
  else Some (Returned (after_loop st), w).

Definition initial_state (system_prompt user_message : string) : LoopState :=
  {| messages := [SystemMsg system_prompt; UserMsg user_message];
     tool_calls_made := 0;
     rate_limit_hits := 0;
     tool_fail_retries := 0;
     client_idx := 0;
     cycle_count := 0 |}.

(** Every turn raises one of the three bounded counters, so this many
    turns always suffice. *)
Definition enough_turns : nat :=
  max_tool_calls + max_rate_retries + max_tool_fail_retries.

(** [run_agent]; the model identifier and the progress sink do not
    influence the control flow and are left out. *)
Definition run_agent (o : Oracle) (system_prompt user_message : string)
    (clients : list string) (project_root agent_name : string) (w : World)
    : option (outcome * World) :=
  run_loop enough_turns o clients project_root
    (initial_state system_prompt user_message) (start w agent_name).

End GroqRunner.

(** ** [core/orchestrator.py] *)

Module Orchestrator.

Import GroqRunner.

(** The double-quote character, for the prompts that contain it. *)
Definition dq : string := String "034"%char EmptyString.

Definition PM_PRD_PROMPT : string :=
  "You are a Project Manager. Write a detailed Product Requirements Document for the given project.
Call write_file ONCE with path='PRD.md' containing a thorough PRD. Then stop.".

Definition PM_ARCH_PROMPT : string :=
  "You are a Project Manager and System Architect.
First, call read_file with path='PRD.md' to read the requirements.
Then call write_file ONCE with path='ARCHITECTURE.md'.

The ARCHITECTURE.md must describe:
1. Technology stack choices
2. Folder layout:
   - src/      : main source code files (list each file with its purpose)
   - tests/    : unit test files
   - frontend/ : HTML/CSS/JS files (if applicable)
   - logs/     : runtime log files
3. List all source files explicitly, e.g:
   src/snake.py - Snake class, movement logic
   src/food.py  - Food class, random placement
   src/game.py  - Game loop, scoring, input handling
   frontend/index.html - Game canvas and UI (if using browser)".

Definition TL_PROMPT : string :=
  "You are a Team Lead. Break the project into development tasks.
First, call read_file with path='PRD.md'.
Then, call read_file with path='ARCHITECTURE.md'.
Then, call write_file ONCE with path='TASK_LIST.json'.

The JSON must be an array of task objects, each with: id, name, description, files.
The 'files' key must list REAL source file paths that match ARCHITECTURE.md, e.g:
  [" +:+ dq +:+
  "src/snake.py" +:+ dq +:+
  ", " +:+ dq +:+
  "src/food.py" +:+ dq +:+
  ", " +:+ dq +:+
  "src/game.py" +:+ dq +:+
  "]

Critical rules:
- Do NOT use names like 'file1.txt'.
- Use paths from the architecture (src/, frontend/, tests/).
- Stop after writing TASK_LIST.json.".

Definition DEV_IMPL_PROMPT : string :=
  "You are a senior Developer. Implement ALL project source files listed in TASK_LIST.json.

Steps:
1. Call read_file with path='ARCHITECTURE.md'
2. Call read_file with path='TASK_LIST.json'
3. For EVERY file in the 'files' array of every task, call write_file with COMPLETE working code.
   - Use the exact path from the task list (e.g. 'src/snake.py').
   - Write REAL runnable code — no placeholders, no pseudocode, no TODO comments.
   - Include all imports, classes, functions, and a working main() or entry point.

For a Python Snake game, implement real logic:
  - Grid-based movement with boundary/self-collision detection
  - Keyboard input handling
  - Food spawning at random empty cells
  - Score display and game-over screen

Write every file. Stop only after ALL files are written.".

Definition VALIDATOR_PROMPT : string :=
  "You are a Code Reviewer. Validate the generated source files.
1. Call read_file with path='TASK_LIST.json' to get the file list.
2. Call read_file for each source file.
3. Call write_file ONCE with path='VALIDATION_REPORT.md' — a real report with CRITICAL/ADVISORY/NITPICK findings.
Stop after writing the report.".

Definition TESTER_PROMPT : string :=
  "You are a QA Engineer. Write unit tests for the project.
1. Call read_file with path='TASK_LIST.json' to get the file list.
2. Call read_file for each source file (once each).
3. Call write_file ONCE with path='tests/test_main.py' using pytest.
   - Include happy path, edge case, and error condition tests.
Stop immediately after writing. Do NOT re-read or rewrite the test file.".

(** [Orchestrator.__init__]: the credential pool is built here; the
    visualizer thread is outside the model. *)
Definition create (environ : gmap string string) : list string + exn :=
  build_client_pool environ.

(** The inner helper [call] of [run]. *)
Definition call (o : Oracle) (clients : list string) (project_dir : string)
    (agent_name prompt message : string) (w : World) : option (outcome * World) :=
  run_agent o prompt message clients project_dir agent_name w.

(** Sequencing: an exception of a step ends [run]. *)
Definition and_then (r : option (outcome * World))
    (k : World → option (outcome * World)) : option (outcome * World) :=
  match r with
  | None => None
  | Some (Raised e, w) => Some (Raised e, w)
  | Some (Returned _, w) => k w
  end.

Local Notation "r >>> k" := (and_then r k) (at level 100, k at level 200, right associativity).

(** [if not os.path.exists(os.path.join(project_dir, name)): raise RuntimeError(msg)]. *)
Definition verify_created (project_dir name msg : string) (w : World)
    (k : World → option (outcome * World)) : option (outcome * World) :=
  if negb (OS.path_exists (cwd w) (fs w) (posixpath.join project_dir name))
  then Some (Raised (RuntimeError msg), w)
  else k w.

(** [for subdir in PROJECT_SUBDIRS: os.makedirs(..., exist_ok=True)]. *)
Fixpoint make_subdirs (project_dir : string) (subdirs : list string) (w : World)
    : World + (exn * World) :=
  match subdirs with
  | [] => inl w
  | subdir :: rest =>
      match OS.makedirs (cwd w) (fs w) (posixpath.join project_dir subdir) with
      | inr e => inr (OSError e, w)
      | inl fs' => make_subdirs project_dir rest (set_fs w fs')
      end
  end.

Definition run (o : Oracle) (clients : list string)
    (user_requirement project_dir : string) (w : World) : option (outcome * World) :=
  match make_subdirs project_dir FileSystem.PROJECT_SUBDIRS w with
  | inr (e, w0) => Some (Raised e, w0)
  | inl w0 =>
      (* Phase 1a: PM writes PRD.md *)
      call o clients project_dir "Project Manager" PM_PRD_PROMPT
           ("Write a PRD for this project: " +:+ user_requirement) w0 >>> λ w1,
      verify_created project_dir "PRD.md"
        "PRD.md not created by Project Manager agent." w1 (λ w1,
      (* Phase 1b: PM writes ARCHITECTURE.md *)
      call o clients project_dir "Architect" PM_ARCH_PROMPT
           "Read PRD.md, then write ARCHITECTURE.md with the folder layout and file list."
           w1 >>> λ w2,
      verify_created project_dir "ARCHITECTURE.md"
        "ARCHITECTURE.md not created by Architect agent." w2 (λ w2,
      (* Phase 2: TL writes TASK_LIST.json *)
      call o clients project_dir "Team Lead" TL_PROMPT
           "Read PRD.md and ARCHITECTURE.md, then write TASK_LIST.json." w2 >>> λ w3,
      verify_created project_dir "TASK_LIST.json"
        "TASK_LIST.json not created by Team Lead agent." w3 (λ w3,
      (* Phase 3: Developer writes all src/ files *)
      call o clients project_dir "Developer" DEV_IMPL_PROMPT
           "Read ARCHITECTURE.md and TASK_LIST.json. Implement every source file listed."
           w3 >>> λ w4,
      (* Phase 4: Validator writes VALIDATION_REPORT.md *)
      call o clients project_dir "Backend Logic Validator" VALIDATOR_PROMPT
           "Read TASK_LIST.json, read each source file, write VALIDATION_REPORT.md."
           w4 >>> λ w5,
      (* Phase 5: Tester writes tests/test_main.py *)
      call o clients project_dir "QA Tester" TESTER_PROMPT
           "Read TASK_LIST.json, read each source file once, write tests/test_main.py."
           w5 >>> λ w6,
      Some (Returned ("NeoForge AI pipeline completed. Output in: " +:+ project_dir), w6))))
  end.

End Orchestrator.

(** ** [main.py], from the point where the project directory is chosen *)

Module Main.

Import GroqRunner.

Inductive exit :=
| Uncaught (e : exn)             (* the exception leaves [main] *)
| Finished (r : outcome).        (* [run] returned, or its exception was printed *)

Definition main (o : Oracle) (environ : gmap string string)
    (user_requirement project_dir : string) (w : World) : option (exit * World) :=
  match OS.makedirs (cwd w) (fs w) project_dir with
  | inr e => Some (Uncaught (OSError e), w)
  | inl fs0 =>
      let w0 := set_fs w fs0 in
      match Orchestrator.create environ with
      | inr e => Some (Uncaught e, w0)
      | inl clients =>
          match Orchestrator.run o clients user_requirement project_dir w0 with
          | None => None
          | Some (r, w') => Some (Finished r, w')
          end
      end
  end.

End Main.

(** ** [main.py]: the directory name of a project

    [slugify] on the strings of the model (code points below 256); the
    character classes are those of Python's [re] and [str.lower] there. *)

Module Slug.

Definition between (lo hi n : nat) : bool := (lo <=? n) && (n <=? hi).

(** [\w]: letters, digits and the underscore. *)
Definition is_word (c : ascii) : bool :=
  let n := nat_of_ascii c in
  between 48 57 n || between 65 90 n || (n =? 95) || between 97 122 n
  || (n =? 170) || between 178 179 n || (n =? 181) || between 185 186 n
  || between 188 190 n || between 192 214 n || between 216 246 n
  || between 248 255 n.

(** [c.lower()]. *)
Definition lower_char (c : ascii) : ascii :=
  let n := nat_of_ascii c in
  if between 65 90 n || between 192 214 n || between 216 222 n
  then ascii_of_nat (n + 32) else c.

(** [s.lower()]. *)
Fixpoint lower (s : string) : string :=
  match s with
  | EmptyString => EmptyString
  | String c s' => String (lower_char c) (lower s')
  end.

(** [re.sub(r'[^...]', '', s)]: the characters of the class are kept. *)
Fixpoint keep (p : ascii → bool) (s : string) : string :=
  match s with
  | EmptyString => EmptyString
  | String c s' => if p c then String c (keep p s') else keep p s'
  end.

(** [re.sub(r'[...]+', rep, s)]: every maximal run of characters of the
    class becomes one [rep]; [in_run] tells that the previous character
    belonged to a run. *)
Fixpoint sub_runs (p : ascii → bool) (rep : ascii) (in_run : bool) (s : string)
    : string :=
  match s with
  | EmptyString => EmptyString
  | String c s' =>
      if p c then
        if in_run then sub_runs p rep true s'
        else String rep (sub_runs p rep true s')
      else String c (sub_runs p rep false s')
  end.

(** [s.lstrip(ch)], [s.rstrip(ch)] and [s.strip(ch)] for one character. *)
Fixpoint lstrip_char (ch : ascii) (s : string) : string :=
  match s with
  | EmptyString => EmptyString
  | String c s' => if Ascii.eqb c ch then lstrip_char ch s' else s
  end.

Fixpoint rstrip_char (ch : ascii) (s : string) : string :=
  match s with
  | EmptyString => EmptyString
  | String c s' =>
      match rstrip_char ch s' with
      | EmptyString => if Ascii.eqb c ch then EmptyString else String c EmptyString
      | r => String c r
      end
  end.

Definition strip_char (ch : ascii) (s : string) : string :=
  rstrip_char ch (lstrip_char ch s).

(** [s[:n]]. *)
Fixpoint take_str (n : nat) (s : string) : string :=
  match n, s with
  | S n', String c s' => String c (take_str n' s')
  | _, _ => EmptyString
  end.

Definition is_space_or_hyphen (c : ascii) : bool :=
  Py.isspace c || Ascii.eqb c "-".

Definition slugify (text : string) : string :=
  let text := lower (Py.strip text) in
  let text := keep (λ c, is_word c || is_space_or_hyphen c) text in
  let text := sub_runs is_space_or_hyphen "_" false text in
  let text := strip_char "_" (sub_runs (λ c, Ascii.eqb c "_") "_" false text) in
  take_str 80 text.

(** [os.path.join(projects_base, project_name)] in [main]. *)
Definition project_dir (projects_base user_requirement : string) : string :=
  posixpath.join projects_base (slugify user_requirement).

End Slug.

(** * Vocabulary of the properties *)

(** What [commonpath] keeps of a path: no empty piece, no [.], no
    separator inside a piece. *)
Definition component (c : string) : Prop :=
  (c ≠ "" ∧ c ≠ ".") ∧ Py.no_sep posixpath.sep c.

(** The path an operation resolves lies under the root it works with: the
    components of the root lead the components of the resolved path.  The
    resolved path is normalised and absolute, so it has no [..]; a root
    spelled with [..] or as a relative path therefore leads no resolved
    path, and every path counts as outside of it. *)
Definition within_root (cwd : string) (project_root : option string)
    (path : string) : Prop :=
  posixpath.comps (FileSystem.root_or_cwd cwd project_root)
    `prefix_of` posixpath.comps (FileSystem.resolved cwd project_root path).

(** A small tree: a project under [/srv/proj] and a file next to it. *)
Definition demo_fs : OS.FS :=
  {[ ["srv"] := OS.Dir; ["srv"; "proj"] := OS.Dir;
     ["srv"; "secret.txt"] := OS.File "top secret" ]}.

(** The environment variables the pool is read from, in slot order. *)
Definition credential_slots : list string :=
  "GROQ_API_KEY" :: map GroqRunner.slot_name (seq 2 4).

(** A credential is valid when it is non-empty after trimming and is not a
    placeholder. *)
Definition valid_credential (raw : string) : Prop :=
  Py.strip raw ≠ "" ∧ Py.startswith (Py.strip raw) "your_" = false.

Global Instance valid_credential_dec raw : Decision (valid_credential raw) :=
  and_dec (not_dec (decide (Py.strip raw = "")))
          (decide (Py.startswith (Py.strip raw) "your_" = false)).

(** The valid credentials of an environment, trimmed, in slot order. *)
Definition valid_credentials (environ : gmap string string) : list string :=
  Py.strip <$> filter valid_credential (GroqRunner.getenv environ <$> credential_slots).

Definition no_keys_error : exn :=
  ValueError "No valid GROQ API keys found. Set GROQ_API_KEY in .env".

Definition demo_environ : gmap string string :=
  {[ "GROQ_API_KEY" := "your_api_key_here";
     "GROQ_API_KEY_2" := " gsk_second ";
     "GROQ_API_KEY_4" := "gsk_fourth" ]}.

Definition placeholder_environ : gmap string string :=
  {[ "GROQ_API_KEY" := "your_api_key_here"; "GROQ_API_KEY_2" := "   " ]}.

(** *** Runs of the tool-calling loop *)

(** How [run_agent] classifies what the endpoint did. *)
Definition rate_limited (out : GroqRunner.api_outcome) : bool :=
  match out with
  | GroqRunner.Failure error_str => Py.contains "rate_limit_exceeded" error_str
  | GroqRunner.Response _ => false
  end.

Definition responded (out : GroqRunner.api_outcome) : bool :=
  match out with
  | GroqRunner.Response _ => true
  | GroqRunner.Failure _ => false
  end.

Definition count_where {A} (p : A → bool) (l : list A) : nat :=
  length (filter (λ x, p x = true) l).

(** [steps o clients root st w outs st' w']: the loop goes from [st], [w]
    to [st'], [w'] through turns that all continue; [outs] lists what the
    endpoint answered in these turns. *)
Inductive steps (o : GroqRunner.Oracle) (clients : list string) (root : string) :
    GroqRunner.LoopState → GroqRunner.World → list GroqRunner.api_outcome →
    GroqRunner.LoopState → GroqRunner.World → Prop :=
| steps_done st w : steps o clients root st w [] st w
| steps_turn st w client st1 w1 outs st2 w2 :
    GroqRunner.loop_guard st = true →
    clients !! GroqRunner.client_idx st = Some client →
    GroqRunner.iteration o clients root st w = GroqRunner.Continue st1 w1 →
    steps o clients root st1 w1 outs st2 w2 →
    steps o clients root st w
      (GroqRunner.api o (GroqRunner.requests w) client (GroqRunner.messages st) :: outs)
      st2 w2.

(** What a world keeps through tool calls: everything but the files. *)
Definition same_process (w w' : GroqRunner.World) : Prop :=
  GroqRunner.cwd w' = GroqRunner.cwd w
  ∧ GroqRunner.requests w' = GroqRunner.requests w
  ∧ GroqRunner.sleeps w' = GroqRunner.sleeps w
  ∧ GroqRunner.started w' = GroqRunner.started w.

(** The three bounded counters of the loop. *)
Definition counters (st : GroqRunner.LoopState) : nat :=
  GroqRunner.tool_calls_made st + GroqRunner.rate_limit_hits st
  + GroqRunner.tool_fail_retries st.

Definition within_budgets (st : GroqRunner.LoopState) : Prop :=
  GroqRunner.tool_calls_made st ≤ GroqRunner.max_tool_calls
  ∧ GroqRunner.rate_limit_hits st ≤ GroqRunner.max_rate_retries
  ∧ GroqRunner.tool_fail_retries st ≤ GroqRunner.max_tool_fail_retries
  ∧ (GroqRunner.tool_calls_made st < GroqRunner.max_tool_calls
     ∨ GroqRunner.rate_limit_hits st < GroqRunner.max_rate_retries).

(** The ways a run ends, seen from the last state [st], [w] the loop
    reached. *)
Inductive ending (o : GroqRunner.Oracle) (clients : list string) (root : string)
    (st : GroqRunner.LoopState) (w : GroqRunner.World) :
    GroqRunner.outcome → GroqRunner.World → Prop :=
| ends_with_answer client msg :
    GroqRunner.loop_guard st = true →
    clients !! GroqRunner.client_idx st = Some client →
    GroqRunner.api o (GroqRunner.requests w) client (GroqRunner.messages st)
      = GroqRunner.Response msg →
    GroqRunner.tool_calls msg = [] →
    ending o clients root st w
      (GroqRunner.Returned (default "" (GroqRunner.content msg)))
      (GroqRunner.count_request w)
| ends_with_max_calls :
    GroqRunner.tool_calls_made st = GroqRunner.max_tool_calls →
    GroqRunner.rate_limit_hits st < GroqRunner.max_rate_retries →
    ending o clients root st w
      (GroqRunner.Returned "Agent reached max tool calls.") w
| ends_with_rate_limit :
    GroqRunner.rate_limit_hits st = GroqRunner.max_rate_retries →
    GroqRunner.tool_calls_made st < GroqRunner.max_tool_calls →
    ending o clients root st w
      (GroqRunner.Returned "Agent aborted: rate limit hit 30 times.") w
| ends_with_exception e w' :
    GroqRunner.loop_guard st = true →
    GroqRunner.iteration o clients root st w = GroqRunner.Raise e w' →
    ending o clients root st w (GroqRunner.Raised e) w'.

(** The state a rate-limit turn leaves. *)
Definition after_rate_limit (clients : list string) (st : GroqRunner.LoopState)
    : GroqRunner.LoopState :=
  let next_idx := (GroqRunner.client_idx st + 1) mod length clients in
  {| GroqRunner.messages := GroqRunner.messages st;
     GroqRunner.tool_calls_made := GroqRunner.tool_calls_made st;
     GroqRunner.rate_limit_hits := GroqRunner.rate_limit_hits st + 1;
     GroqRunner.tool_fail_retries := GroqRunner.tool_fail_retries st;
     GroqRunner.client_idx := next_idx;
     GroqRunner.cycle_count :=
       if next_idx =? 0 then GroqRunner.cycle_count st + 1
       else GroqRunner.cycle_count st |}.

(** The state a corrective retry leaves. *)
Definition after_correction (st : GroqRunner.LoopState) : GroqRunner.LoopState :=
  {| GroqRunner.messages :=
       GroqRunner.messages st ++ [GroqRunner.UserMsg GroqRunner.correction];
     GroqRunner.tool_calls_made := GroqRunner.tool_calls_made st;
     GroqRunner.rate_limit_hits := GroqRunner.rate_limit_hits st;
     GroqRunner.tool_fail_retries := GroqRunner.tool_fail_retries st + 1;
     GroqRunner.client_idx := GroqRunner.client_idx st;
     GroqRunner.cycle_count := GroqRunner.cycle_count st |}.

(** The state a response leaves whose tool calls all carry arguments that
    do not parse. *)
Definition after_unparsable (st : GroqRunner.LoopState)
    (msg : GroqRunner.assistant_message) : GroqRunner.LoopState :=
  {| GroqRunner.messages :=
       GroqRunner.messages st ++ [GroqRunner.AssistantMsg msg]
       ++ ((λ tc, GroqRunner.ToolMsg (GroqRunner.tc_id tc) GroqRunner.parse_error)
             <$> GroqRunner.tool_calls msg);
     GroqRunner.tool_calls_made := GroqRunner.tool_calls_made st + 1;
     GroqRunner.rate_limit_hits := GroqRunner.rate_limit_hits st;
     GroqRunner.tool_fail_retries := GroqRunner.tool_fail_retries st;
     GroqRunner.client_idx := GroqRunner.client_idx st;
     GroqRunner.cycle_count := 0 |}.

(** *** Sample worlds and endpoints *)

Definition demo_world : GroqRunner.World :=
  {| GroqRunner.cwd := "/";
     GroqRunner.fs := {[ ["srv"] := OS.Dir; ["srv"; "proj"] := OS.Dir ]};
     GroqRunner.requests := 0;
     GroqRunner.sleeps := [];
     GroqRunner.started := [] |}.

(** An endpoint that rejects every request as rate-limited. *)
Definition saturated : GroqRunner.Oracle :=
  {| GroqRunner.api := λ _ _ _, GroqRunner.Failure "Error code: 429 - rate_limit_exceeded";
     GroqRunner.uniform_0_5 := λ _, (1 # 2)%Q |}.

(** An endpoint whose model keeps producing a malformed tool call. *)
Definition malformed : GroqRunner.Oracle :=
  {| GroqRunner.api := λ _ _ _, GroqRunner.Failure "Error code: 400 - tool_use_failed";
     GroqRunner.uniform_0_5 := λ _, 0%Q |}.

Definition write_call (id path : string) : GroqRunner.assistant_message :=
  {| GroqRunner.content := None;
     GroqRunner.tool_calls :=
       [ {| GroqRunner.tc_id := id; GroqRunner.tc_name := "write_file";
            GroqRunner.tc_arguments := Some {[ "path" := path; "content" := "text" ]} |} ] |}.

Definition garbled_call (id : string) : GroqRunner.assistant_message :=
  {| GroqRunner.content := None;
     GroqRunner.tool_calls :=
       [ {| GroqRunner.tc_id := id; GroqRunner.tc_name := "write_file";
            GroqRunner.tc_arguments := None |} ] |}.

Definition final_answer : GroqRunner.assistant_message :=
  {| GroqRunner.content := Some "done"; GroqRunner.tool_calls := [] |}.

(** An endpoint that writes the first three deliverables when asked and
    answers every other request with a final text: the Developer, the
    Validator and the Tester write nothing. *)
Definition lazy_reviewer : GroqRunner.Oracle :=
  {| GroqRunner.api := λ n _ _,
       match n with
       | 0 => GroqRunner.Response (write_call "call_0" "PRD.md")
       | 2 => GroqRunner.Response (write_call "call_2" "ARCHITECTURE.md")
       | 4 => GroqRunner.Response (write_call "call_4" "TASK_LIST.json")
       | _ => GroqRunner.Response final_answer
       end;
     GroqRunner.uniform_0_5 := λ _, 0%Q |}.

(** An endpoint that never calls a tool. *)
Definition idle : GroqRunner.Oracle :=
  {| GroqRunner.api := λ _ _ _, GroqRunner.Response final_answer;
     GroqRunner.uniform_0_5 := λ _, 0%Q |}.

(** A deliverable of the project is on disk. *)
Definition artifact_present (project_dir name : string) (w : GroqRunner.World) : bool :=
  OS.path_exists (GroqRunner.cwd w) (GroqRunner.fs w) (posixpath.join project_dir name).

(** *** The first three phase runs of the pipeline, as [run] issues them *)

Definition prd_phase (o : GroqRunner.Oracle) (clients : list string)
    (user_requirement project_dir : string) (w : GroqRunner.World) :=
  Orchestrator.call o clients project_dir "Project Manager" Orchestrator.PM_PRD_PROMPT
    ("Write a PRD for this project: " +:+ user_requirement) w.

Definition architecture_phase (o : GroqRunner.Oracle) (clients : list string)
    (project_dir : string) (w : GroqRunner.World) :=
  Orchestrator.call o clients project_dir "Architect" Orchestrator.PM_ARCH_PROMPT
    "Read PRD.md, then write ARCHITECTURE.md with the folder layout and file list." w.

Definition task_list_phase (o : GroqRunner.Oracle) (clients : list string)
    (project_dir : string) (w : GroqRunner.World) :=
  Orchestrator.call o clients project_dir "Team Lead" Orchestrator.TL_PROMPT
    "Read PRD.md and ARCHITECTURE.md, then write TASK_LIST.json." w.

(** The world [run] hands to the first phase, and the one the first phase
    leaves, over [demo_world] with the [idle] endpoint. *)
Definition demo_prepared : GroqRunner.World :=
  match Orchestrator.make_subdirs "/srv/proj" FileSystem.PROJECT_SUBDIRS demo_world with
  | inl w0 => w0
  | inr _ => demo_world
  end.

Definition demo_after_prd : GroqRunner.World :=
  match prd_phase idle ["gsk_1"] "build a counter CLI" "/srv/proj" demo_prepared with
  | Some (_, w1) => w1
  | None => demo_prepared
  end.

(** Fifty log lines, for the examples on the bounded deque. *)
Definition seq_lines (n : nat) : list string := (λ i, "line " +:+ pretty i) <$> seq 0 n.

(** *** Vocabulary of the further properties *)

(** A component of a normalised absolute path: a [component] other than
    [..]. *)
Definition plain_component (c : string) : Prop := component c ∧ c ≠ "..".

(** A root in the form [commonpath] spells paths in: one slash, then the
    components joined by single slashes.  The project directory [main.py]
    computes has this form. *)
Definition spelled_plainly (root : string) : Prop :=
  root = "/" +:+ Py.join "/" (posixpath.comps root).

(** The file [write_file] opens, as a key of the file-system state. *)
Definition target_key (cwd : string) (project_root : option string) (path : string)
    : list string :=
  OS.resolve cwd (FileSystem.resolved cwd project_root path).

(** Every node of [fs] outside of [region] is the same node in [fs']. *)
Definition untouched_outside (region : list string → Prop) (fs fs' : OS.FS) : Prop :=
  ∀ k n, fs !! k = Some n → ¬ region k → fs' !! k = Some n.

(** No node of [fs] is missing in [fs'], and every directory is still a
    directory. *)
Definition nothing_removed (fs fs' : OS.FS) : Prop :=
  ∀ k n, fs !! k = Some n →
         match n with
         | OS.Dir => fs' !! k = Some OS.Dir
         | OS.File _ => ∃ text, fs' !! k = Some (OS.File text)
         end.

(** The keys under a root. *)
Definition under (root : string) (k : list string) : Prop :=
  posixpath.comps root `prefix_of` k.

(** What a run may do to the files when its tools work under [root]: it
    leaves every node outside the root as it is and removes nothing. *)
Definition confined_to (root : string) (fs fs' : OS.FS) : Prop :=
  untouched_outside (under root) fs fs' ∧ nothing_removed fs fs'.

(** The root the tools of a run work under. *)
Definition effective_root (root : string) (w : GroqRunner.World) : string :=
  FileSystem.root_or_cwd (GroqRunner.cwd w) (Some root).

(** The call a tool-result message answers. *)
Definition answered_call (m : GroqRunner.message) : option string :=
  match m with
  | GroqRunner.ToolMsg tool_call_id _ => Some tool_call_id
  | _ => None
  end.

(** A pool of two credentials of which the first is always rejected and
    the second always answers. *)
Definition second_key_works : GroqRunner.Oracle :=
  {| GroqRunner.api := λ _ client _,
       if bool_decide (client = "gsk_good") then GroqRunner.Response final_answer
       else GroqRunner.Failure "Error code: 429 - rate_limit_exceeded";
     GroqRunner.uniform_0_5 := λ _, 0%Q |}.

(** The agent labels of the six phases, in the order [run] calls them. *)
Definition phase_labels : list string :=
  ["Project Manager"; "Architect"; "Team Lead"; "Developer";
   "Backend Logic Validator"; "QA Tester"].

(** A directory of the project is on disk, as a directory. *)
Definition is_directory (project_dir name : string) (w : GroqRunner.World) : Prop :=
  OS.node_at (GroqRunner.fs w)
    (OS.resolve (GroqRunner.cwd w) (posixpath.join project_dir name)) = Some OS.Dir.

(** Where a pipeline run stands after [n] phases were started: the process
    is in the same directory, the conversations started are those of the
    first [n] phases, and the files were only touched under the project
    directory. *)
Definition progress (project_dir : string) (n : nat) (w w' : GroqRunner.World) : Prop :=
  GroqRunner.cwd w' = GroqRunner.cwd w
  ∧ GroqRunner.started w' = GroqRunner.started w ++ take n phase_labels
  ∧ confined_to (effective_root project_dir w) (GroqRunner.fs w) (GroqRunner.fs w').

(** What holds of the result [r], the final world [w'] and the number [n]
    of phases started, for a pipeline run from [w]. *)
Definition run_outcome (project_dir : string) (w : GroqRunner.World)
    (r : GroqRunner.outcome) (w' : GroqRunner.World) (n : nat) : Prop :=
  n ≤ 6
  ∧ progress project_dir n w w'
  ∧ ∀ text, r = GroqRunner.Returned text →
      n = 6
      ∧ text = "NeoForge AI pipeline completed. Output in: " +:+ project_dir
      ∧ artifact_present project_dir "PRD.md" w' = true
      ∧ artifact_present project_dir "ARCHITECTURE.md" w' = true
      ∧ artifact_present project_dir "TASK_LIST.json" w' = true
      ∧ Forall (λ name, is_directory project_dir name w') FileSystem.PROJECT_SUBDIRS.

(** Every character of a string has a property. *)
Fixpoint all_chars (P : ascii → Prop) (s : string) : Prop :=
  match s with
  | EmptyString => True
  | String c s' => P c ∧ all_chars P s'
  end.

(** A letter or a digit: a word character other than the underscore. *)
Definition is_alnum (c : ascii) : bool := Slug.is_word c && negb (Ascii.eqb c "_").

(** Some character of a string passes a test. *)
Fixpoint some_char (p : ascii → bool) (s : string) : bool :=
  match s with
  | EmptyString => false
  | String c s' => p c || some_char p s'
  end.

(** No two underscores in a row. *)
Fixpoint no_double_underscore (s : string) : Prop :=
  match s with
  | String a ((String b _) as s') => ¬ (a = "_"%char ∧ b = "_"%char) ∧ no_double_underscore s'
  | _ => True
  end.

(** The text [slugify] truncates to 80 characters. *)
Definition before_cut (text : string) : string :=
  Slug.strip_char "_"
    (Slug.sub_runs (λ c, Ascii.eqb c "_") "_" false
       (Slug.sub_runs Slug.is_space_or_hyphen "_" false
          (Slug.keep (λ c, Slug.is_word c || Slug.is_space_or_hyphen c)
             (Slug.lower (Py.strip text))))).

(** A text of two lines, the first ended the DOS way. *)
Definition two_lines : string := "a" +:+ String "013" (String "010" "b").

(** *** Operations under a root, without a working directory

    What the three operations are to do with a caller's root, said without
    any working directory: the file meant by [path] is the one at
    [normpath (join root path)]; writing and reading are refused unless
    this place lies under the root. *)

Definition place (root path : string) : string :=
  posixpath.normpath (posixpath.join root path).

Definition place_key (root path : string) : list string :=
  posixpath.comps (place root path).

Definition inside (root path : string) : Prop :=
  spelled_plainly root ∧ posixpath.comps root `prefix_of` place_key root path.

Global Instance inside_dec root path : Decision (inside root path).
Proof. unfold inside, spelled_plainly. apply _. Defined.

Definition write_under (root : string) (fs : OS.FS) (path text : string)
    : string * OS.FS :=
  if bool_decide (inside root path) then
    match OS.makedirs_key (removelast (place_key root path)) fs with
    | inr e => ("Error writing file: " +:+ OS.strerror e, fs)
    | inl fs1 =>
        match OS.write_key (place_key root path) text fs1 with
        | inr e => ("Error writing file: " +:+ OS.strerror e, fs1)
        | inl fs2 => ("Successfully wrote to " +:+ path, fs2)
        end
    end
  else ("Error: Security violation. Cannot write outside project root.", fs).

Definition read_under (root : string) (fs : OS.FS) (path : string) : string :=
  if bool_decide (inside root path) then
    match OS.node_at fs (place_key root path) with
    | None => "Error: File " +:+ path +:+ " does not exist."
    | Some (OS.File text) => Py.universal_newlines text
    | Some OS.Dir =>
        "Error reading file: " +:+ OS.strerror (OS.IsADirectoryError (place_key root path))
    end
  else "Error: Security violation. Cannot read outside project root.".

(** [list_dir] has no containment check (see [list_dir_escapes]). *)
Definition list_under (root : string) (fs : OS.FS) (path : string) : string :=
  match OS.node_at fs (place_key root path) with
  | None => "Error: Directory " +:+ path +:+ " does not exist."
  | Some (OS.File _) =>
      "Error listing directory: "
      +:+ OS.strerror (OS.NotADirectoryError (place_key root path))
  | Some OS.Dir =>
      Py.join (String "010" "")
        (omap (λ e, OS.child_name (place_key root path) e.1) (map_to_list fs))
  end.

(** * Properties *)

(** ** Strings and paths *)

Section PathFacts.

Import posixpath.

Lemma append_cons_l (a : ascii) (s t : string) :
  String a s +:+ t = String a (s +:+ t).
Proof. reflexivity. Qed.

Lemma append_nil_l (t : string) : "" +:+ t = t.
Proof. reflexivity. Qed.

Lemma split_not_nil c s : Py.split c s ≠ [].
Proof.
  destruct s as [|a s]; simpl; [done|].
  destruct (Ascii.eqb a c); [done|]. by destruct (Py.split c s).
Qed.

Lemma split_pieces c s : Forall (Py.no_sep c) (Py.split c s).
Proof.
  induction s as [|a s IH]; simpl.
  - by repeat constructor.
  - destruct (Ascii.eqb_spec a c) as [->|Hne].
    + by constructor.
    + destruct (Py.split c s) as [|w ws].
      * by repeat constructor.
      * inversion_clear IH. by repeat constructor.
Qed.

Lemma split_whole c a : Py.no_sep c a → Py.split c a = [a].
Proof.
  induction a as [|x a IH]; simpl; [done|]. intros [Hne Ha].
  destruct (Ascii.eqb_spec x c); [done|]. by rewrite IH.
Qed.

Lemma split_append_sep c a s :
  Py.no_sep c a → Py.split c (a +:+ String c s) = a :: Py.split c s.
Proof.
  induction a as [|x a IH]; intros Ha.
  - rewrite append_nil_l. simpl. by rewrite Ascii.eqb_refl.
  - destruct Ha as [Hne Ha]. rewrite append_cons_l. simpl.
    destruct (Ascii.eqb_spec x c); [done|]. by rewrite IH.
Qed.

Lemma split_join c cs :
  Forall (Py.no_sep c) cs → cs ≠ [] →
  Py.split c (Py.join (String c "") cs) = cs.
Proof.
  induction cs as [|x cs IH]; [done|]. intros Hall _.
  inversion_clear Hall as [|? ? Hx Hcs].
  destruct cs as [|y cs].
  - simpl. by apply split_whole.
  - change (Py.join (String c "") (x :: y :: cs))
      with (x +:+ String c (Py.join (String c "") (y :: cs))).
    rewrite split_append_sep by done. f_equal. by apply IH.
Qed.

Lemma comps_components p : Forall component (comps p).
Proof.
  apply Forall_forall. intros c Hc. unfold comps in Hc.
  apply list_elem_of_filter in Hc as [Hc Hin]. split; [done|].
  pose proof (split_pieces sep p) as Hall.
  rewrite Forall_forall in Hall. by apply Hall.
Qed.

Lemma filter_components cs :
  Forall component cs → filter (λ c, c ≠ "" ∧ c ≠ ".") cs = cs.
Proof.
  induction 1 as [|c cs [Hc _] _ IH]; [done|].
  rewrite filter_cons_True by done. by rewrite IH.
Qed.

Lemma comps_join cs : Forall component cs → comps (Py.join "/" cs) = cs.
Proof.
  intros Hall. destruct cs as [|x cs]; [done|]. unfold comps.
  rewrite (split_join sep); [by apply filter_components| |done].
  eapply Forall_impl; [exact Hall|]. by intros ? [_ ?].
Qed.

Lemma comps_slash_join cs :
  Forall component cs → comps ("/" +:+ Py.join "/" cs) = cs.
Proof.
  intros Hall. rewrite <- (comps_join cs) at 2 by done.
  unfold comps. change ("/" +:+ Py.join "/" cs) with (String sep (Py.join "/" cs)).
  simpl. rewrite filter_cons_False; [done|].
  intros [Hne _]. by apply Hne.
Qed.

(** *** The order on component lists *)

Lemma string_compare_refl s : String.compare s s = Eq.
Proof.
  pose proof (String.compare_antisym s s) as H.
  destruct (String.compare s s); simpl in H; congruence.
Qed.

Lemma list_compare_refl a : Py.list_compare a a = Eq.
Proof. induction a as [|x a IH]; simpl; [done|]. by rewrite string_compare_refl. Qed.

Lemma list_compare_eq a b : Py.list_compare a b = Eq → a = b.
Proof.
  revert b. induction a as [|x a IH]; intros [|y b]; simpl; try done.
  destruct (String.compare x y) eqn:Hxy; try done.
  apply String.compare_eq_iff in Hxy as ->. intros H. f_equal. by apply IH.
Qed.

Lemma list_compare_antisym a b :
  Py.list_compare a b = CompOpp (Py.list_compare b a).
Proof.
  revert b. induction a as [|x a IH]; intros [|y b]; simpl; try done.
  rewrite (String.compare_antisym y x).
  destruct (String.compare x y); simpl; by try apply IH.
Qed.

Lemma min2_max2_ordered a b :
  Py.list_compare (Py.min2 a b) (Py.max2 a b) ≠ Gt.
Proof.
  unfold Py.min2, Py.max2. destruct (Py.list_compare b a) eqn:Hba.
  - by rewrite list_compare_refl.
  - by rewrite Hba.
  - by rewrite list_compare_antisym, Hba.
Qed.

Lemma min2_max2_cases a b :
  (Py.min2 a b = a ∧ Py.max2 a b = b) ∨ (Py.min2 a b = b ∧ Py.max2 a b = a).
Proof.
  unfold Py.min2, Py.max2. destruct (Py.list_compare b a) eqn:Hba; auto.
  apply list_compare_eq in Hba as ->. auto.
Qed.

(** *** The prefix loop of [commonpath] *)

Lemma common_loop_in_range s1 s2 :
  Py.list_compare s1 s2 ≠ Gt → is_Some (common_loop s1 s2).
Proof.
  revert s2. induction s1 as [|c s1 IH]; intros [|d s2]; simpl; try done.
  case_bool_decide as Hcd; [done|].
  assert (c = d) as -> by (destruct (decide (c = d)); [done|]; exfalso; auto).
  rewrite string_compare_refl. intros Hle.
  destruct (IH s2 Hle) as [r ->]. done.
Qed.

Lemma common_loop_prefix s1 s2 r :
  common_loop s1 s2 = Some r → r `prefix_of` s1 ∧ r `prefix_of` s2.
Proof.
  revert s2 r. induction s1 as [|c s1 IH]; intros s2 r; simpl.
  - intros [= <-]. split; apply prefix_nil.
  - destruct s2 as [|d s2]; [done|].
    case_bool_decide as Hcd.
    + intros [= <-]. split; apply prefix_nil.
    + assert (c = d) as -> by (destruct (decide (c = d)); [done|]; exfalso; auto).
      destruct (common_loop s1 s2) as [r'|] eqn:Hr; [|done].
      intros [= <-]. destruct (IH _ _ Hr). split; by apply prefix_cons.
Qed.

Lemma commonpath_never_out_of_range p1 p2 :
  commonpath p1 p2 ≠ RaisesIndexError.
Proof.
  unfold commonpath. destruct (negb _); [done|].
  destruct (common_loop_in_range _ _ (min2_max2_ordered (comps p1) (comps p2)))
    as [r ->]. done.
Qed.

(** The common path is spelled from components both paths start with. *)
Lemma commonpath_components p1 p2 c :
  commonpath p1 p2 = Common c →
  ∃ r, c = (if isabs p1 then "/" else "") +:+ Py.join "/" r
       ∧ isabs p1 = isabs p2
       ∧ r `prefix_of` comps p1 ∧ r `prefix_of` comps p2.
Proof.
  unfold commonpath.
  destruct (Bool.eqb (isabs p1) (isabs p2)) eqn:Habs; simpl; [|done].
  apply Bool.eqb_prop in Habs.
  destruct (common_loop _ _) as [r|] eqn:Hr; [|done].
  intros [= <-]. exists r. split; [done|]. split; [done|].
  apply common_loop_prefix in Hr as [H1 H2].
  destruct (min2_max2_cases (comps p1) (comps p2)) as [[E1 E2]|[E1 E2]];
    rewrite E1 in H1; rewrite E2 in H2; done.
Qed.

Lemma prefix_components (r l : list string) :
  r `prefix_of` l → Forall component l → Forall component r.
Proof. intros [k ->] H. by apply Forall_app in H as [? _]. Qed.

(** When [commonpath] answers the root itself, the root's components
    lead the path's components. *)
Lemma commonpath_is_root abs_path root :
  commonpath abs_path root = Common root →
  comps root `prefix_of` comps abs_path.
Proof.
  intros H. apply commonpath_components in H as (r & Hc & _ & H1 & H2).
  assert (Forall component r) as Hr
    by (eapply prefix_components; [exact H1|apply comps_components]).
  assert (comps root = r) as ->; [|done].
  rewrite Hc. destruct (isabs abs_path).
  - by apply comps_slash_join.
  - rewrite append_nil_l. by apply comps_join.
Qed.

Lemma isabs_normpath p : isabs p = true → isabs (normpath p) = true.
Proof.
  unfold isabs, normpath. intros Hp.
  destruct p as [|a p]; [done|]. rewrite bool_decide_eq_false_2 by done.
  rewrite Hp.
  destruct (_ && _); cbn [repeat_sep]; rewrite !append_cons_l.
  all: rewrite bool_decide_eq_false_2 by done.
  all: reflexivity.
Qed.

Lemma isabs_join a b : isabs a = true → isabs (join a b) = true.
Proof.
  unfold isabs, join. intros Ha.
  destruct (Py.startswith b "/") eqn:Hb; [done|].
  destruct a as [|x a]; [done|]. by destruct (_ || _).
Qed.

Lemma abspath_of_abs cwd1 cwd2 p : isabs p = true → abspath cwd1 p = abspath cwd2 p.
Proof. unfold abspath. by intros ->. Qed.

Lemma abspath_isabs cwd p : isabs p = true → isabs (abspath cwd p) = true.
Proof. unfold abspath. intros Hp. rewrite Hp. by apply isabs_normpath. Qed.

End PathFacts.

(** ** Sandboxed file access *)

Section Sandbox.

Import FileSystem.

Lemma violation_is_refusal action :
  is_refusal (Some (security_violation action)) = Some (security_violation action).
Proof. reflexivity. Qed.

(** The containment check answers [None] only for paths under the root. *)
Lemma assert_within_root_sound abs_path path action root :
  ¬ posixpath.comps root `prefix_of` posixpath.comps abs_path →
  _assert_within_root abs_path path action root
  = inl (Some (security_violation action)).
Proof.
  intros Hout. unfold _assert_within_root.
  destruct (posixpath.commonpath abs_path root) as [c| |] eqn:Hc.
  - case_bool_decide as Hne; [done|].
    exfalso. apply Hout. apply commonpath_is_root.
    destruct (decide (c = root)) as [->|]; [done|]. exfalso; auto.
  - done.
  - by apply commonpath_never_out_of_range in Hc.
Qed.

(** C2.  An operation on a path that resolves outside the project root
    answers with the containment-violation text and leaves the file
    system as it was: [write_file] returns the state it received, and
    [read_file] has no state to change. *)
Theorem escaping_path_is_refused cwd fs path text project_root :
  ¬ within_root cwd project_root path →
  write_file cwd fs path text project_root
  = ("Error: Security violation. Cannot write outside project root.", fs)
  ∧ read_file cwd fs path project_root
    = "Error: Security violation. Cannot read outside project root.".
Proof.
  intros Hout. unfold within_root, resolved in Hout.
  unfold write_file, read_file.
  rewrite !assert_within_root_sound by done.
  by rewrite !violation_is_refusal.
Qed.

Lemma escaping_path_is_refused_witness :
  ¬ within_root "/" (Some "/srv/proj") "../proj_evil/x"
  ∧ write_file "/" demo_fs "../proj_evil/x" "boom" (Some "/srv/proj")
    = ("Error: Security violation. Cannot write outside project root.", demo_fs)
  ∧ read_file "/" demo_fs "../proj_evil/x" (Some "/srv/proj")
    = "Error: Security violation. Cannot read outside project root.".
Proof.
  assert (¬ within_root "/" (Some "/srv/proj") "../proj_evil/x") as Hout.
  { intros [k Hk]. vm_compute in Hk. discriminate Hk. }
  split; [exact Hout|].
  exact (escaping_path_is_refused "/" demo_fs "../proj_evil/x" "boom"
           (Some "/srv/proj") Hout).
Defined.

(** C3.  [list_dir] has no containment check: asked for [..] under the
    root [/srv/proj], a path outside the root, it answers with the
    entries of [/srv]. *)
Theorem list_dir_escapes :
  ¬ within_root "/" (Some "/srv/proj") ".."
  ∧ list_dir "/" demo_fs ".." (Some "/srv/proj")
    = Py.join (String "010"%char "") ["secret.txt"; "proj"]
  ∧ read_file "/" demo_fs ".." (Some "/srv/proj")
    = "Error: Security violation. Cannot read outside project root.".
Proof.
  split; [|split].
  - intros [k Hk]. vm_compute in Hk. discriminate Hk.
  - vm_compute. reflexivity.
  - vm_compute. reflexivity.
Qed.

(** *** The root an operation resolves against *)

Lemma root_of_absolute cwd root :
  posixpath.isabs root = true → root_or_cwd cwd (Some root) = root.
Proof. unfold root_or_cwd. by destruct root. Qed.

(** C4 as stated fails: called without a root, as the legacy tool
    wrappers do, [write_file] resolves the path against the working
    directory, so two processes in different directories write two
    different files. *)
Lemma root_defaults_to_cwd :
  resolved "/srv" None "a.txt" = "/srv/a.txt"
  ∧ resolved "/srv/proj" None "a.txt" = "/srv/proj/a.txt"
  ∧ (write_file "/srv" demo_fs "a.txt" "x" None).2 !! ["srv"; "a.txt"]
    = Some (OS.File "x")
  ∧ (write_file "/srv/proj" demo_fs "a.txt" "x" None).2 !! ["srv"; "a.txt"]
    = None
  ∧ ¬ (∀ cwd cwd' fs path text project_root,
         write_file cwd fs path text project_root
         = write_file cwd' fs path text project_root).
Proof.
  split; [|split; [|split; [|split]]].
  1-4: vm_compute; reflexivity.
  intros H. specialize (H "/srv" "/srv/proj" demo_fs "a.txt" "x" None).
  apply (f_equal (λ r, r.2 !! ["srv"; "a.txt"])) in H.
  vm_compute in H. discriminate H.
Qed.

End Sandbox.

(** ** The progress record *)

Section Progress.

Import VizState.

Lemma last_n_length {A} n (l : list A) : length (last_n n l) = length l `min` n.
Proof. unfold last_n. rewrite length_drop. lia. Qed.

Lemma last_n_last_n {A} n m (l : list A) :
  n ≤ m → last_n n (last_n m l) = last_n n l.
Proof.
  intros Hnm. unfold last_n. rewrite length_drop, drop_drop. f_equal. lia.
Qed.

(** Appending to the bounded deque keeps the newest [maxlen] lines. *)
Lemma deque_append_last_n l x :
  deque_append (last_n maxlen l) x = last_n maxlen (l ++ [x]).
Proof.
  unfold deque_append, last_n, maxlen.
  rewrite !length_app, !length_drop. simpl.
  destruct (decide (length l < 50)) as [Hlt|Hge].
  - replace (length l - 50) with 0 by lia.
    replace (length l - 0 + 1 - 50) with 0 by lia.
    replace (length l + 1 - 50) with 0 by lia. done.
  - replace (length l - (length l - 50) + 1 - 50) with 1 by lia.
    rewrite !drop_app_le by (rewrite ?length_drop; lia).
    rewrite drop_drop. do 2 f_equal. lia.
Qed.

Lemma after_snoc calls c : after (calls ++ [c]) = apply_call (after calls) c.
Proof. unfold after. by rewrite fold_left_app. Qed.

Lemma appended_snoc calls c :
  appended (calls ++ [c])
  = appended calls ++ match c.2 with
                      | Some m => if Py.truthy m then [m] else []
                      | None => []
                      end.
Proof.
  unfold appended. rewrite omap_app. f_equal. simpl.
  destruct c.2 as [m|]; [|done]. by destruct (Py.truthy m).
Qed.

(** The deque holds the newest 50 of the lines appended so far. *)
Lemma messages_after calls :
  messages (after calls) = last_n maxlen (appended calls).
Proof.
  induction calls as [|c calls IH] using rev_ind; [done|].
  rewrite after_snoc, appended_snoc. unfold apply_call, update. simpl.
  destruct c.2 as [m|]; [destruct (Py.truthy m)|]; rewrite ?app_nil_r; try done.
  rewrite IH. apply deque_append_last_n.
Qed.

(** C10.  After any sequence of [update] calls, [get_snapshot] returns
    the current agent label, the current task text and the newest five of
    the appended log lines (all of them when fewer were appended), while
    the deque itself keeps up to fifty. *)
Theorem snapshot_shows_last_five (calls : list call) :
  let st := after calls in
  let snap := get_snapshot st in
  agent snap = active_agent st
  ∧ task snap = current_task st
  ∧ agent snap = from_option (λ c : call, c.1.1) "Idle" (last calls)
  ∧ task snap = from_option (λ c : call, c.1.2) "Waiting..." (last calls)
  ∧ logs snap = last_n 5 (appended calls)
  ∧ length (logs snap) = length (appended calls) `min` 5
  ∧ length (logs snap) ≤ 5
  ∧ messages st = last_n 50 (appended calls)
  ∧ length (messages st) ≤ 50.
Proof.
  simpl. split; [done|]. split; [done|].
  assert (logs (get_snapshot (after calls)) = last_n 5 (appended calls)) as Hlogs.
  { simpl. rewrite messages_after. apply last_n_last_n. unfold maxlen. lia. }
  split; [|split].
  - destruct calls as [|c calls _] using rev_ind; [done|].
    by rewrite after_snoc, last_snoc.
  - destruct calls as [|c calls _] using rev_ind; [done|].
    by rewrite after_snoc, last_snoc.
  - change (last_n 5 (messages (after calls))) with (logs (get_snapshot (after calls))).
    rewrite Hlogs, messages_after, !last_n_length. unfold maxlen.
    split; [done|]. split; [done|]. split; [lia|]. split; [done|lia].
Qed.

End Progress.

(** ** The credential pool *)

Section Pool.

Import GroqRunner.

Lemma usable_valid raw : usable (Py.strip raw) = true ↔ valid_credential raw.
Proof.
  unfold usable, valid_credential, Py.truthy.
  rewrite andb_true_iff, !negb_true_iff, bool_decide_eq_false. done.
Qed.

(** The accumulation loop of [build_client_pool] is a filter. *)
Lemma collect_keys (raws : list string) (keys : list string) :
  fold_left (λ keys raw,
               let key := Py.strip raw in
               if usable key then keys ++ [key] else keys) raws keys
  = keys ++ (Py.strip <$> filter valid_credential raws).
Proof.
  revert keys. induction raws as [|raw raws IH]; intros keys; simpl.
  - by rewrite app_nil_r.
  - rewrite IH. destruct (usable (Py.strip raw)) eqn:Hu.
    + apply usable_valid in Hu. rewrite filter_cons_True by done.
      by rewrite <- app_assoc.
    + rewrite filter_cons_False; [done|].
      intros Hv. apply usable_valid in Hv. congruence.
Qed.

Lemma build_client_pool_filter environ :
  build_client_pool environ
  = if bool_decide (valid_credentials environ = []) then inr no_keys_error
    else inl (valid_credentials environ).
Proof.
  unfold build_client_pool, valid_credentials, credential_slots.
  pose proof (collect_keys (getenv environ <$> (slot_name <$> seq 2 4))) as Hfold.
  assert (∀ keys,
    fold_left (λ keys i,
                 let key := Py.strip (getenv environ (slot_name i)) in
                 if usable key then keys ++ [key] else keys) (seq 2 4) keys
    = keys ++ (Py.strip <$> filter valid_credential
                 (getenv environ <$> (slot_name <$> seq 2 4)))) as ->.
  { intros keys. rewrite <- Hfold. reflexivity. }
  rewrite fmap_cons.
  destruct (usable (Py.strip (getenv environ "GROQ_API_KEY"))) eqn:Hu.
  - apply usable_valid in Hu. rewrite filter_cons_True by done. done.
  - rewrite filter_cons_False; [done|].
    intros Hv. apply usable_valid in Hv. congruence.
Qed.

(** C9.  [build_client_pool] raises the configuration error exactly when
    the environment holds no valid credential, and otherwise returns the
    valid credentials, trimmed, in slot order; in the first case [main]
    ends with that error before any request is sent and before any
    phase's conversation is started. *)
Theorem pool_needs_a_valid_credential (environ : gmap string string) :
  (build_client_pool environ = inr no_keys_error ↔ valid_credentials environ = [])
  ∧ (valid_credentials environ ≠ [] →
     build_client_pool environ = inl (valid_credentials environ))
  ∧ (∀ pool, build_client_pool environ = inl pool →
     pool = valid_credentials environ ∧ pool ≠ [])
  ∧ (valid_credentials environ = [] →
     ∀ o user_requirement project_dir w,
       ∃ e w', Main.main o environ user_requirement project_dir w
               = Some (Main.Uncaught e, w')
               ∧ requests w' = requests w ∧ started w' = started w
               ∧ (∀ fs0, OS.makedirs (cwd w) (fs w) project_dir = inl fs0 →
                  e = no_keys_error ∧ w' = set_fs w fs0)).
Proof.
  rewrite build_client_pool_filter.
  case_bool_decide as Hv.
  - split; [done|]. split; [done|]. split; [done|].
    intros _ o user_requirement project_dir w. unfold Main.main.
    destruct (OS.makedirs _ _ _) as [fs0|e] eqn:Hmk.
    + unfold Orchestrator.create. rewrite build_client_pool_filter.
      rewrite bool_decide_eq_true_2 by done.
      eexists _, _. split; [done|]. split; [done|]. split; [done|].
      by intros ? [= <-].
    + eexists _, _. split; [done|]. split; [done|]. split; [done|]. done.
  - split; [done|]. split; [done|]. split; [|done].
    intros pool [= <-]. done.
Qed.

Lemma pool_needs_a_valid_credential_witness :
  (valid_credentials demo_environ ≠ []
   ∧ build_client_pool demo_environ = inl ["gsk_second"; "gsk_fourth"])
  ∧ (valid_credentials placeholder_environ = []
     ∧ build_client_pool placeholder_environ = inr no_keys_error).
Proof.
  split.
  - assert (valid_credentials demo_environ ≠ []) as Hne
      by (vm_compute; discriminate).
    split; [exact Hne|].
    exact (proj1 (proj2 (pool_needs_a_valid_credential demo_environ)) Hne).
  - assert (valid_credentials placeholder_environ = []) as He
      by (vm_compute; reflexivity).
    split; [exact He|].
    exact (proj2 (proj1 (pool_needs_a_valid_credential placeholder_environ)) He).
Defined.

End Pool.

(** ** The tool-calling loop *)

Section Engine.

Import GroqRunner.

Variable o : Oracle.
Variable clients : list string.
Variable root : string.

Lemma same_process_refl w : same_process w w.
Proof. by repeat split. Qed.

Lemma same_process_trans w1 w2 w3 :
  same_process w1 w2 → same_process w2 w3 → same_process w1 w3.
Proof. unfold same_process. intros (?&?&?&?) (?&?&?&?). repeat split; congruence. Qed.

Lemma execute_tool_frame w name args r w' :
  _execute_tool w name args root = inl (r, w') → same_process w w'.
Proof.
  unfold _execute_tool. repeat case_bool_decide.
  - destruct (args !! "path"); [|done]. destruct (args !! "content"); [|done].
    intros [= _ <-]. by repeat split.
  - destruct (args !! "path"); [|done]. intros [= _ <-]. apply same_process_refl.
  - intros [= _ <-]. apply same_process_refl.
Qed.

Lemma process_tool_calls_frame tcs msgs w :
  match process_tool_calls tcs root msgs w with
  | inl (_, w') => same_process w w'
  | inr (_, w') => same_process w w'
  end.
Proof.
  revert msgs w. induction tcs as [|tc tcs IH]; intros msgs w; simpl.
  - apply same_process_refl.
  - destruct (tc_arguments tc) as [fn_args|]; [|apply IH].
    destruct (_execute_tool w (tc_name tc) fn_args root) as [[r w1]|e] eqn:Hx.
    + apply execute_tool_frame in Hx.
      specialize (IH (msgs ++ [ToolMsg (tc_id tc) r]) w1).
      destruct (process_tool_calls _ _ _ _) as [[? ?]|[? ?]];
        by eapply same_process_trans.
    + apply same_process_refl.
Qed.

Ltac max_tool_fail_retries_unfold := unfold max_tool_fail_retries in *.

(** *** One turn, case by case *)

Lemma iteration_rate_limited st w client error_str :
  clients !! client_idx st = Some client →
  api o (requests w) client (messages st) = Failure error_str →
  Py.contains "rate_limit_exceeded" error_str = true →
  iteration o clients root st w
  = Continue (after_rate_limit clients st)
      (if (client_idx st + 1) mod length clients =? 0
       then sleep (count_request w)
              (backoff_wait (cycle_count st + 1) (uniform_0_5 o (length (sleeps w))))
       else count_request w).
Proof.
  intros Hc Hout Hrl. unfold iteration, after_rate_limit.
  rewrite Hc, Hout, Hrl. simpl. by destruct (_ =? 0).
Qed.




(** A turn that continues consumed one answer of the endpoint and raised
    exactly the counter that goes with the kind of answer. *)
Lemma iteration_continue st w st' w' :
  iteration o clients root st w = Continue st' w' →
  ∃ client,
    clients !! client_idx st = Some client
    ∧ let out := api o (requests w) client (messages st) in
      tool_calls_made st' = tool_calls_made st + (if responded out then 1 else 0)
      ∧ rate_limit_hits st' = rate_limit_hits st + (if rate_limited out then 1 else 0)
      ∧ tool_fail_retries st'
        = tool_fail_retries st + (if responded out || rate_limited out then 0 else 1)
      ∧ tool_fail_retries st' ≤ tool_fail_retries st `max` max_tool_fail_retries
      ∧ cwd w' = cwd w ∧ started w' = started w ∧ requests w' = S (requests w)
      ∧ (if rate_limited out && ((client_idx st + 1) mod length clients =? 0)
         then cycle_count st' = cycle_count st + 1 ∧ client_idx st' = 0
              ∧ sleeps w' = sleeps w
                  ++ [backoff_wait (cycle_count st') (uniform_0_5 o (length (sleeps w)))]
         else sleeps w' = sleeps w).
Proof.
  unfold iteration.
  destruct (clients !! client_idx st) as [client|] eqn:Hc; [|done].
  intros H. exists client. split; [done|]. simpl.
  destruct (api o (requests w) client (messages st)) as [msg|error_str]; simpl.
  - destruct (tool_calls msg) as [|tc tcs]; [done|].
    pose proof (process_tool_calls_frame (tc :: tcs)
                  (messages st ++ [AssistantMsg msg]) (count_request w)) as Hf.
    destruct (process_tool_calls _ _ _ _) as [[msgs w2]|[e w2]]; [|done].
    injection H as <- <-. destruct Hf as (?&?&?&?). simpl.
    repeat split; try done; lia.
  - destruct (Py.contains "rate_limit_exceeded" error_str); simpl.
    + injection H as <- <-. simpl.
      destruct (_ =? 0) eqn:Hz; simpl.
      * apply Nat.eqb_eq in Hz. repeat split; try done; lia.
      * repeat split; try done; lia.
    + destruct (Py.contains "tool_use_failed" error_str); [|done].
      destruct (tool_fail_retries st <? max_tool_fail_retries) eqn:Hlt; [|done].
      apply Nat.ltb_lt in Hlt.
      injection H as <- <-. simpl. repeat split; try done; lia.
Qed.

Lemma count_where_cons {A} (p : A → bool) x l :
  count_where p (x :: l) = (if p x then 1 else 0) + count_where p l.
Proof.
  unfold count_where. destruct (p x) eqn:Hp.
  - by rewrite filter_cons_True.
  - rewrite filter_cons_False; [done|]. congruence.
Qed.

(** *** Whole runs *)

Lemma steps_counters st w outs st' w' :
  steps o clients root st w outs st' w' →
  tool_calls_made st' = tool_calls_made st + count_where responded outs
  ∧ rate_limit_hits st' = rate_limit_hits st + count_where rate_limited outs
  ∧ counters st' = counters st + length outs
  ∧ requests w' = requests w + length outs
  ∧ (tool_fail_retries st ≤ max_tool_fail_retries →
     tool_fail_retries st' ≤ max_tool_fail_retries).
Proof.
  induction 1 as [st w|st w client st1 w1 outs st2 w2 Hg Hc Hit _ IH].
  - unfold count_where. simpl. repeat split; lia.
  - apply iteration_continue in Hit as (client' & Hc' & Hit).
    rewrite Hc in Hc'. injection Hc' as <-. simpl in Hit.
    destruct Hit as (Ht & Hr & Hf & Hfm & _ & _ & Hq & _).
    destruct IH as (IHt & IHr & IHc & IHq & IHf).
    rewrite !count_where_cons. unfold counters in *. simpl.
    max_tool_fail_retries_unfold.
    destruct (api o (requests w) client (messages st)) as [msg|error_str];
      simpl in *; [|destruct (Py.contains _ error_str)]; simpl in *;
      repeat split; lia.
Qed.

(** C5.  A turn whose request is rate-limited raises the rate-limit
    counter, moves to the next client round-robin and leaves the
    productive-call counter, the malformed-retry counter, the conversation
    and the files alone; over any run, whatever the pool and whatever the
    order of answers, the productive-call counter has grown by the number
    of responses and the rate-limit counter by the number of rate-limited
    requests. *)
Theorem rate_limit_spares_productive_calls :
  (∀ st w client error_str,
     clients !! client_idx st = Some client →
     api o (requests w) client (messages st) = Failure error_str →
     Py.contains "rate_limit_exceeded" error_str = true →
     ∃ st' w',
       iteration o clients root st w = Continue st' w'
       ∧ rate_limit_hits st' = rate_limit_hits st + 1
       ∧ client_idx st' = (client_idx st + 1) mod length clients
       ∧ tool_calls_made st' = tool_calls_made st
       ∧ tool_fail_retries st' = tool_fail_retries st
       ∧ messages st' = messages st
       ∧ fs w' = fs w)
  ∧ (∀ st w outs st' w',
       steps o clients root st w outs st' w' →
       tool_calls_made st' = tool_calls_made st + count_where responded outs
       ∧ rate_limit_hits st' = rate_limit_hits st + count_where rate_limited outs).
Proof.
  split.
  - intros st w client error_str Hc Hout Hrl.
    rewrite (iteration_rate_limited st w client error_str) by done.
    eexists _, _. split; [done|]. simpl.
    repeat split. by destruct (_ =? 0).
  - intros st w outs st' w' Hsteps.
    apply steps_counters in Hsteps as (? & ? & _). done.
Qed.

End Engine.

Lemma rate_limit_spares_productive_calls_witness :
  ∃ st' w',
    GroqRunner.iteration saturated ["gsk_1"; "gsk_2"] "/srv/proj"
      (GroqRunner.initial_state "system" "user") demo_world
    = GroqRunner.Continue st' w'
    ∧ GroqRunner.rate_limit_hits st' = 0 + 1
    ∧ GroqRunner.client_idx st' = (0 + 1) mod 2
    ∧ GroqRunner.tool_calls_made st' = 0
    ∧ GroqRunner.tool_fail_retries st' = 0
    ∧ GroqRunner.messages st'
      = GroqRunner.messages (GroqRunner.initial_state "system" "user")
    ∧ GroqRunner.fs w' = GroqRunner.fs demo_world.
Proof.
  exact (proj1 (rate_limit_spares_productive_calls saturated ["gsk_1"; "gsk_2"] "/srv/proj")
           (GroqRunner.initial_state "system" "user") demo_world "gsk_1"
           "Error code: 429 - rate_limit_exceeded" eq_refl eq_refl eq_refl).
Defined.

Section Backoff.

Import GroqRunner.

Variable o : Oracle.
Variable clients : list string.
Variable root : string.

Lemma backoff_grows (c : nat) (j1 j2 : Q) :
  1 ≤ c → (0 <= j1)%Q → (j1 < 5)%Q → (0 <= j2)%Q → (j2 < 5)%Q →
  (backoff_wait c j1 < backoff_wait (c + 1) j2)%Q.
Proof.
  intros Hc Hj1 Hj1' Hj2 Hj2'. unfold backoff_wait, base_wait.
  replace (Z.of_nat (c + 1) - 1)%Z with (Z.succ (Z.of_nat c - 1)) by lia.
  rewrite Z.pow_succ_r by lia.
  assert (0 < 2 ^ (Z.of_nat c - 1))%Z as Hpos by (apply Z.pow_pos_nonneg; lia).
  set (a := (2 ^ (Z.of_nat c - 1))%Z) in *.
  replace (20 * (2 * a))%Z with (20 * a + 20 * a)%Z by lia.
  rewrite inject_Z_plus.
  assert (inject_Z 20 <= inject_Z (20 * a))%Q as Hle by (rewrite <- Zle_Qle; lia).
  change (inject_Z 20) with 20%Q in Hle. lra.
Qed.

Lemma steps_nil_inv st w st' w' :
  steps o clients root st w [] st' w' → st' = st ∧ w' = w.
Proof. by inversion 1. Qed.

(** From client [i] of [N], the [N - i] rate-limited requests that finish
    the sweep end in one back-off, taken at the last of them. *)
Lemma sweep_ends_in_one_backoff st w outs st' w' :
  steps o clients root st w outs st' w' →
  ∀ k, forallb rate_limited outs = true →
       length outs = S k →
       client_idx st + S k = length clients →
       client_idx st' = 0
       ∧ cycle_count st' = cycle_count st + 1
       ∧ sleeps w'
         = sleeps w ++ [backoff_wait (cycle_count st + 1)
                          (uniform_0_5 o (length (sleeps w)))].
Proof.
  induction 1 as [st w|st w client st1 w1 outs st2 w2 Hg Hc Hit Hsteps IH];
    intros k Hall Hlen Hidx; [done|].
  simpl in Hall. apply andb_true_iff in Hall as [Hrl Hall].
  destruct (api o (requests w) client (messages st)) as [msg|error_str] eqn:Hout;
    [done|]. simpl in Hrl.
  rewrite (iteration_rate_limited o clients root st w client error_str) in Hit by done.
  injection Hit as <- <-. simpl in Hlen.
  destruct k as [|k].
  - destruct outs; [|done]. apply steps_nil_inv in Hsteps as [-> ->].
    assert ((client_idx st + 1) mod length clients = 0) as Hz.
    { replace (client_idx st + 1) with (length clients) by lia.
      apply Nat.Div0.mod_same. }
    unfold after_rate_limit. simpl. rewrite Hz. simpl. done.
  - assert ((client_idx st + 1) mod length clients = client_idx st + 1) as Hs
      by (apply Nat.mod_small; lia).
    destruct (IH k Hall) as (Hi & Hcy & Hsl).
    { lia. }
    { unfold after_rate_limit. simpl. rewrite Hs. lia. }
    revert Hi Hcy Hsl. unfold after_rate_limit. simpl. rewrite Hs.
    replace (client_idx st + 1 =? 0) with false by (symmetry; apply Nat.eqb_neq; lia).
    simpl. intros Hi Hcy Hsl. done.
Qed.

Lemma steps_app st w outs1 st1 w1 outs2 st2 w2 :
  steps o clients root st w outs1 st1 w1 →
  steps o clients root st1 w1 outs2 st2 w2 →
  steps o clients root st w (outs1 ++ outs2) st2 w2.
Proof.
  induction 1 as [st w|st w client sta wa outs stb wb Hg Hc Hit _ IH]; [done|].
  intros H2. simpl. eapply steps_turn; [done|done|exact Hit|]. by apply IH.
Qed.

(** The turns of a sweep: when the requests sent to the clients from
    [client_idx st] to the last one of the pool are all rate-limited and
    the budgets allow them, the loop takes these turns, and takes one
    back-off, at the last of them. *)
Lemma rate_limited_turns k : ∀ st w,
  client_idx st + S k = length clients →
  tool_calls_made st < max_tool_calls →
  rate_limit_hits st + k < max_rate_retries →
  (∀ j client, j ≤ k → clients !! (client_idx st + j) = Some client →
     rate_limited (api o (requests w + j) client (messages st)) = true) →
  ∃ outs st' w',
    steps o clients root st w outs st' w'
    ∧ length outs = S k
    ∧ forallb rate_limited outs = true
    ∧ messages st' = messages st
    ∧ tool_calls_made st' = tool_calls_made st
    ∧ rate_limit_hits st' = rate_limit_hits st + S k
    ∧ client_idx st' = 0
    ∧ cycle_count st' = cycle_count st + 1
    ∧ requests w' = requests w + S k
    ∧ sleeps w'
      = sleeps w ++ [backoff_wait (cycle_count st + 1)
                       (uniform_0_5 o (length (sleeps w)))].
Proof.
  induction k as [|k IH]; intros st w Hidx Hcalls Hhits Hall.
  - destruct (lookup_lt_is_Some_2 clients (client_idx st)) as [client Hc]; [lia|].
    pose proof (Hall 0 client (Nat.le_refl _)) as Hrl.
    rewrite !Nat.add_0_r in Hrl. specialize (Hrl Hc).
    destruct (api o (requests w) client (messages st)) as [msg|error_str] eqn:Hout;
      [done|]. simpl in Hrl.
    pose proof (iteration_rate_limited o clients root st w client error_str Hc Hout Hrl)
      as Hit.
    assert ((client_idx st + 1) mod length clients = 0) as Hz.
    { replace (client_idx st + 1) with (length clients) by lia.
      apply Nat.Div0.mod_same. }
    rewrite Hz in Hit. simpl in Hit.
    eexists [Failure error_str], _, _. split.
    { rewrite <- Hout. eapply steps_turn; [|exact Hc|exact Hit|constructor].
      unfold loop_guard. apply andb_true_iff. split; apply Nat.ltb_lt; lia. }
    unfold after_rate_limit. rewrite Hz. simpl. rewrite Hrl.
    repeat split; lia.
  - destruct (lookup_lt_is_Some_2 clients (client_idx st)) as [client Hc]; [lia|].
    pose proof (Hall 0 client (Nat.le_0_l _)) as Hrl.
    rewrite !Nat.add_0_r in Hrl. specialize (Hrl Hc).
    destruct (api o (requests w) client (messages st)) as [msg|error_str] eqn:Hout;
      [done|]. simpl in Hrl.
    pose proof (iteration_rate_limited o clients root st w client error_str Hc Hout Hrl)
      as Hit.
    assert ((client_idx st + 1) mod length clients = client_idx st + 1) as Hs
      by (apply Nat.mod_small; lia).
    rewrite Hs in Hit.
    replace (client_idx st + 1 =? 0) with false in Hit
      by (symmetry; apply Nat.eqb_neq; lia).
    destruct (IH (after_rate_limit clients st) (count_request w))
      as (outs & st' & w' & Hsteps & Hlen & Hfor & Hm & Ht & Hr & Hi & Hcy & Hq & Hsl).
    { unfold after_rate_limit. simpl. rewrite Hs. lia. }
    { done. }
    { unfold after_rate_limit. simpl. lia. }
    { intros j c Hj. unfold after_rate_limit. simpl. rewrite Hs. intros Hjc.
      replace (S (requests w + j)) with (requests w + S j) by lia.
      apply Hall; [lia|]. by replace (client_idx st + S j) with (client_idx st + 1 + j) by lia. }
    revert Hm Ht Hr Hi Hcy Hq Hsl. unfold after_rate_limit. simpl. rewrite Hs.
    replace (client_idx st + 1 =? 0) with false by (symmetry; apply Nat.eqb_neq; lia).
    intros Hm Ht Hr Hi Hcy Hq Hsl.
    exists (Failure error_str :: outs), st', w'. split.
    { rewrite <- Hout. eapply steps_turn; [|exact Hc|exact Hit|exact Hsteps].
      unfold loop_guard. apply andb_true_iff. split; apply Nat.ltb_lt; lia. }
    simpl. rewrite Hrl, Hfor, Hlen.
    repeat split; try done; lia.
Qed.

(** A turn whose request is not rate-limited does not sleep, however it
    ends. *)
Lemma other_turns_do_not_sleep st w client :
  clients !! client_idx st = Some client →
  rate_limited (api o (requests w) client (messages st)) = false →
  match iteration o clients root st w with
  | Continue _ w' | Return _ w' | Raise _ w' => sleeps w' = sleeps w
  end.
Proof.
  intros Hc Hrl. unfold iteration. rewrite Hc.
  destruct (api o (requests w) client (messages st)) as [msg|error_str].
  - destruct (tool_calls msg) as [|tc tcs]; [done|].
    pose proof (process_tool_calls_frame root (tc :: tcs)
                  (messages st ++ [AssistantMsg msg]) (count_request w)) as Hf.
    destruct (process_tool_calls _ _ _ _) as [[? ?]|[? ?]];
      by destruct Hf as (_ & _ & ? & _).
  - simpl in Hrl. rewrite Hrl. by destruct (_ && _).
Qed.

(** C6.  (1) A turn whose request is rate-limited continues with the next
    client, and it takes the back-off exactly when the rotation wraps to
    client 0: then the cycle counter goes up by one and the process sleeps
    for [20 * 2^(cycle-1)] plus the jitter drawn; otherwise the cycle
    counter stays and there is no sleep.  (2) A turn whose request is not
    rate-limited does not sleep.  (3) When the requests to all the clients
    from the current one to the last are rate-limited, the loop runs
    through them and sleeps once, at the last.  (4) Any such sweep ends in
    one back-off.  (5) Over two full exhaustions in a row the process
    sleeps twice, for the waits of cycle [c] and cycle [c + 1], and the
    second wait is the longer one whatever jitters in [0, 5) are drawn.
    (6) For every cycle [c >= 1] and all jitters in [0, 5) the wait of
    cycle [c] is below the wait of cycle [c + 1]. *)
Theorem exhaustion_backoff :
  (∀ st w client error_str,
     clients !! client_idx st = Some client →
     api o (requests w) client (messages st) = Failure error_str →
     Py.contains "rate_limit_exceeded" error_str = true →
     ∃ st' w',
       iteration o clients root st w = Continue st' w'
       ∧ client_idx st' = (client_idx st + 1) mod length clients
       ∧ if client_idx st' =? 0
         then cycle_count st' = cycle_count st + 1
              ∧ sleeps w'
                = sleeps w
                  ++ [(inject_Z (20 * 2 ^ (Z.of_nat (cycle_count st') - 1))
                       + uniform_0_5 o (length (sleeps w)))%Q]
         else cycle_count st' = cycle_count st ∧ sleeps w' = sleeps w)
  ∧ (∀ st w client,
       clients !! client_idx st = Some client →
       rate_limited (api o (requests w) client (messages st)) = false →
       match iteration o clients root st w with
       | Continue _ w' | Return _ w' | Raise _ w' => sleeps w' = sleeps w
       end)
  ∧ (∀ st w k,
       client_idx st + S k = length clients →
       tool_calls_made st < max_tool_calls →
       rate_limit_hits st + k < max_rate_retries →
       (∀ j client, j ≤ k → clients !! (client_idx st + j) = Some client →
          rate_limited (api o (requests w + j) client (messages st)) = true) →
       ∃ outs st' w',
         steps o clients root st w outs st' w'
         ∧ length outs = S k
         ∧ client_idx st' = 0
         ∧ cycle_count st' = cycle_count st + 1
         ∧ sleeps w'
           = sleeps w ++ [backoff_wait (cycle_count st + 1)
                            (uniform_0_5 o (length (sleeps w)))])
  ∧ (∀ st w outs st' w' k,
       steps o clients root st w outs st' w' →
       forallb rate_limited outs = true →
       length outs = S k →
       client_idx st + S k = length clients →
       client_idx st' = 0 ∧ cycle_count st' = cycle_count st + 1
       ∧ sleeps w'
         = sleeps w ++ [backoff_wait (cycle_count st + 1)
                          (uniform_0_5 o (length (sleeps w)))])
  ∧ ((∀ i, (0 <= uniform_0_5 o i)%Q ∧ (uniform_0_5 o i < 5)%Q) →
     ∀ st w,
       client_idx st < length clients →
       tool_calls_made st < max_tool_calls →
       rate_limit_hits st + (length clients - client_idx st) + length clients
         ≤ max_rate_retries →
       (∀ j client,
          j < (length clients - client_idx st) + length clients →
          clients !! ((client_idx st + j) mod length clients) = Some client →
          rate_limited (api o (requests w + j) client (messages st)) = true) →
       ∃ outs st' w' wait1 wait2,
         steps o clients root st w outs st' w'
         ∧ length outs = (length clients - client_idx st) + length clients
         ∧ cycle_count st' = cycle_count st + 2
         ∧ sleeps w' = sleeps w ++ [wait1; wait2]
         ∧ wait1 = backoff_wait (cycle_count st + 1) (uniform_0_5 o (length (sleeps w)))
         ∧ wait2 = backoff_wait (cycle_count st + 2)
                     (uniform_0_5 o (length (sleeps w) + 1))
         ∧ (wait1 < wait2)%Q)
  ∧ (∀ (c : nat) (j1 j2 : Q),
       1 ≤ c → (0 <= j1)%Q → (j1 < 5)%Q → (0 <= j2)%Q → (j2 < 5)%Q →
       (backoff_wait c j1 < backoff_wait (c + 1) j2)%Q).
Proof.
  split; [|split; [|split; [|split; [|split]]]].
  - intros st w client error_str Hc Hout Hrl.
    rewrite (iteration_rate_limited o clients root st w client error_str) by done.
    eexists _, _. split; [done|]. unfold after_rate_limit. simpl.
    split; [done|]. by destruct (_ =? 0).
  - apply other_turns_do_not_sleep.
  - intros st w k Hidx Hcalls Hhits Hall.
    destruct (rate_limited_turns k st w Hidx Hcalls Hhits Hall)
      as (outs & st' & w' & Hsteps & Hlen & _ & _ & _ & _ & Hi & Hcy & _ & Hsl).
    by exists outs, st', w'.
  - intros st w outs st' w' k Hsteps Hall Hlen Hidx.
    by apply (sweep_ends_in_one_backoff _ _ _ _ _ Hsteps k).
  - intros Hjit st w Hidx Hcalls Hhits Hall.
    set (n := length clients) in *. set (i := client_idx st) in *.
    destruct (rate_limited_turns (n - i - 1) st w)
      as (outs1 & st1 & w1 & Hsteps1 & Hlen1 & _ & Hm1 & Ht1 & Hr1 & Hi1 & Hcy1 & Hq1 & Hsl1).
    { fold i n. lia. }
    { done. }
    { fold i. lia. }
    { intros j client Hj Hjc. apply Hall; [fold i n; lia|].
      fold i. rewrite Nat.mod_small by (fold n; lia). done. }
    destruct (rate_limited_turns (n - 1) st1 w1)
      as (outs2 & st2 & w2 & Hsteps2 & Hlen2 & _ & _ & _ & _ & _ & Hcy2 & _ & Hsl2).
    { rewrite Hi1. fold n. lia. }
    { by rewrite Ht1. }
    { rewrite Hr1. fold i. lia. }
    { intros j client Hj. rewrite Hi1, Hq1, Hm1. simpl. intros Hjc.
      replace (requests w + S (n - i - 1) + j) with (requests w + (n - i + j)) by lia.
      apply Hall; [fold i n; lia|]. fold i n.
      replace (i + (n - i + j)) with (j + 1 * n) by lia.
      rewrite Nat.Div0.mod_add. rewrite Nat.mod_small by lia. done. }
    exists (outs1 ++ outs2), st2, w2.
    exists (backoff_wait (cycle_count st + 1) (uniform_0_5 o (length (sleeps w)))).
    exists (backoff_wait (cycle_count st + 2) (uniform_0_5 o (length (sleeps w) + 1))).
    split; [by eapply steps_app|].
    split; [rewrite length_app, Hlen1, Hlen2; lia|].
    split; [lia|].
    split.
    { rewrite Hsl2, Hsl1, Hcy1, length_app. simpl.
      rewrite <- app_assoc. simpl.
      by replace (cycle_count st + 1 + 1) with (cycle_count st + 2) by lia. }
    split; [done|]. split; [done|].
    replace (cycle_count st + 2) with (cycle_count st + 1 + 1) by lia.
    apply backoff_grows; [lia|apply Hjit..].
  - apply backoff_grows.
Qed.

End Backoff.

Lemma exhaustion_backoff_witness :
  ∃ outs st' w' wait1 wait2,
    steps saturated ["k1"; "k2"] "/srv/proj"
      (GroqRunner.initial_state "system" "user") demo_world outs st' w'
    ∧ length outs = 4
    ∧ GroqRunner.cycle_count st' = 2
    ∧ GroqRunner.sleeps w' = [wait1; wait2]
    ∧ wait1 = GroqRunner.backoff_wait 1 (1 # 2)
    ∧ wait2 = GroqRunner.backoff_wait 2 (1 # 2)
    ∧ (wait1 < wait2)%Q.
Proof.
  refine (proj1 (proj2 (proj2 (proj2 (proj2
            (exhaustion_backoff saturated ["k1"; "k2"] "/srv/proj")))))
            _ (GroqRunner.initial_state "system" "user") demo_world _ _ _ _).
  - intros i. split; [vm_compute; discriminate|vm_compute; reflexivity].
  - simpl. lia.
  - vm_compute. lia.
  - vm_compute. lia.
  - intros j client _ _. reflexivity.
Defined.

Section Termination.

Import GroqRunner.

Variable o : Oracle.
Variable clients : list string.
Variable root : string.

Lemma iteration_return st w result w' :
  iteration o clients root st w = Return result w' →
  ∃ client msg,
    clients !! client_idx st = Some client
    ∧ api o (requests w) client (messages st) = Response msg
    ∧ tool_calls msg = []
    ∧ result = default "" (content msg)
    ∧ w' = count_request w.
Proof.
  unfold iteration.
  destruct (clients !! client_idx st) as [client|]; [|done].
  destruct (api o (requests w) client (messages st)) as [msg|error_str] eqn:Hout.
  - destruct (tool_calls msg) as [|tc tcs] eqn:Htcs.
    + intros [= <- <-]. by exists client, msg.
    + by destruct (process_tool_calls _ _ _ _) as [[? ?]|[? ?]].
  - destruct (Py.contains "rate_limit_exceeded" error_str); [done|].
    by destruct (_ && _).
Qed.

Lemma guard_true st :
  loop_guard st = true ↔
  tool_calls_made st < max_tool_calls ∧ rate_limit_hits st < max_rate_retries.
Proof.
  unfold loop_guard. rewrite andb_true_iff, !Nat.ltb_lt. done.
Qed.

Lemma guard_false st :
  loop_guard st = false ↔
  max_tool_calls ≤ tool_calls_made st ∨ max_rate_retries ≤ rate_limit_hits st.
Proof.
  unfold loop_guard. rewrite andb_false_iff, !Nat.ltb_ge. done.
Qed.

(** A turn that continues raises the sum of the counters by one and
    keeps every counter within its budget. *)
Lemma iteration_progress st w st' w' :
  loop_guard st = true → within_budgets st →
  iteration o clients root st w = Continue st' w' →
  counters st' = counters st + 1 ∧ within_budgets st'
  ∧ tool_calls_made st ≤ tool_calls_made st'
  ∧ rate_limit_hits st ≤ rate_limit_hits st'
  ∧ tool_fail_retries st ≤ tool_fail_retries st'.
Proof.
  intros Hg (Ht & Hr & Hf & _) Hit. apply guard_true in Hg as [Hgt Hgr].
  apply iteration_continue in Hit as (client & _ & Hit). simpl in Hit.
  destruct Hit as (Ht' & Hr' & Hf' & Hfm & _).
  unfold counters, within_budgets,
    max_tool_calls, max_rate_retries, max_tool_fail_retries in *.
  destruct (api o (requests w) client (messages st)) as [msg|error_str];
    simpl in *; [|destruct (Py.contains _ error_str)]; simpl in *; lia.
Qed.

Lemma after_loop_cases st :
  within_budgets st → loop_guard st = false →
  (tool_calls_made st = max_tool_calls ∧ rate_limit_hits st < max_rate_retries
   ∧ after_loop st = "Agent reached max tool calls.")
  ∨ (rate_limit_hits st = max_rate_retries ∧ tool_calls_made st < max_tool_calls
     ∧ after_loop st = "Agent aborted: rate limit hit 30 times.").
Proof.
  intros (Ht & Hr & _ & Hone) Hg. apply guard_false in Hg.
  unfold after_loop.
  destruct (max_rate_retries <=? rate_limit_hits st) eqn:Hle.
  - apply Nat.leb_le in Hle. right.
    assert (rate_limit_hits st = max_rate_retries) as Heq by lia.
    split; [done|]. split; [lia|]. by rewrite Heq.
  - apply Nat.leb_gt in Hle. left. split; [lia|]. done.
Qed.

(** With enough turns left the loop ends, in one of the four ways of
    [ending]. *)
Lemma run_loop_ends fuel st w :
  within_budgets st → enough_turns ≤ counters st + fuel →
  ∃ r w' outs st' wl,
    run_loop fuel o clients root st w = Some (r, w')
    ∧ steps o clients root st w outs st' wl
    ∧ counters st' = counters st + length outs
    ∧ within_budgets st'
    ∧ ending o clients root st' wl r w'.
Proof.
  revert st w. induction fuel as [|fuel IH]; intros st w Hb Hfuel.
  - assert (loop_guard st = false) as Hg.
    { apply guard_false. destruct Hb as (? & ? & ? & _).
      unfold enough_turns, counters, max_tool_calls, max_rate_retries,
        max_tool_fail_retries in *. lia. }
    exists (Returned (after_loop st)), w, [], st, w. simpl. rewrite Hg.
    split; [done|]. split; [constructor|]. split; [lia|]. split; [done|].
    destruct (after_loop_cases st Hb Hg) as [(?&?&->)|(?&?&->)];
      by constructor.
  - simpl. destruct (loop_guard st) eqn:Hg.
    + destruct (iteration o clients root st w) as [st1 w1|result w1|e w1] eqn:Hit.
      * destruct (iteration_progress _ _ _ _ Hg Hb Hit) as (Hc & Hb1 & _).
        destruct (IH st1 w1 Hb1) as (r & w' & outs & st' & wl & Hrun & Hs & Hcs & Hb' & He).
        { lia. }
        pose proof Hit as Hit'.
        apply iteration_continue in Hit' as (client & Hcl & _).
        exists r, w', (api o (requests w) client (messages st) :: outs), st', wl.
        split; [done|]. split; [by econstructor|].
        split; [simpl; lia|]. done.
      * apply iteration_return in Hit as (client & msg & Hcl & Hout & Htc & -> & ->).
        exists (Returned (default "" (content msg))), (count_request w), [], st, w.
        split; [done|]. split; [constructor|]. split; [simpl; lia|].
        split; [done|]. by econstructor.
      * exists (Raised e), w1, [], st, w.
        split; [done|]. split; [constructor|]. split; [simpl; lia|].
        split; [done|]. by constructor.
    + exists (Returned (after_loop st)), w, [], st, w.
      split; [done|]. split; [constructor|]. split; [simpl; lia|]. split; [done|].
      destruct (after_loop_cases st Hb Hg) as [(?&?&->)|(?&?&->)];
        by constructor.
Qed.

Lemma run_loop_more_turns fuel fuel' st w x :
  run_loop fuel o clients root st w = Some x → fuel ≤ fuel' →
  run_loop fuel' o clients root st w = Some x.
Proof.
  revert fuel' st w. induction fuel as [|fuel IH]; intros fuel' st w; simpl.
  - destruct (loop_guard st) eqn:Hg; [done|]. intros Hx _.
    destruct fuel'; simpl; by rewrite Hg.
  - destruct (loop_guard st) eqn:Hg.
    + intros Hx Hle. destruct fuel' as [|fuel']; [lia|]. simpl. rewrite Hg.
      destruct (iteration o clients root st w); [|done|done].
      apply IH; [done|lia].
    + intros Hx _. destruct fuel'; simpl; by rewrite Hg.
Qed.

Lemma initial_within_budgets system_prompt user_message :
  within_budgets (initial_state system_prompt user_message).
Proof.
  unfold within_budgets, max_tool_calls, max_rate_retries, max_tool_fail_retries.
  simpl. lia.
Qed.

(** C8.  [run_agent] always ends: after at most 57 turns that continue,
    it returns the assistant's text of a response without tool calls, or
    the max-calls text with the productive-call budget (25) used up, or
    the rate-limit text with the rate-limit budget (30) used up, or it
    lets an exception through; more turns than [enough_turns] change
    nothing.  Every turn returns, raises, or raises the sum of the three
    bounded counters by one without lowering any of them. *)
Theorem run_agent_total system_prompt user_message agent_name w :
  (∃ r w' outs st wl,
     run_agent o system_prompt user_message clients root agent_name w = Some (r, w')
     ∧ (∀ fuel, enough_turns ≤ fuel →
        run_loop fuel o clients root (initial_state system_prompt user_message)
          (start w agent_name) = Some (r, w'))
     ∧ steps o clients root (initial_state system_prompt user_message)
         (start w agent_name) outs st wl
     ∧ length outs < enough_turns
     ∧ ending o clients root st wl r w')
  ∧ (∀ st w st' w',
       loop_guard st = true → within_budgets st →
       iteration o clients root st w = Continue st' w' →
       counters st' = counters st + 1 ∧ within_budgets st'
       ∧ tool_calls_made st ≤ tool_calls_made st'
       ∧ rate_limit_hits st ≤ rate_limit_hits st'
       ∧ tool_fail_retries st ≤ tool_fail_retries st').
Proof.
  split; [|apply iteration_progress].
  set (st0 := initial_state system_prompt user_message).
  pose proof (initial_within_budgets system_prompt user_message) as Hb.
  destruct (run_loop_ends enough_turns st0 (start w agent_name) Hb)
    as (r & w' & outs & st & wl & Hrun & Hs & Hc & Hb' & He); [lia|].
  exists r, w', outs, st, wl. split; [done|]. split; [|split; [done|split; [|done]]].
  - intros fuel Hfuel. by eapply run_loop_more_turns.
  - change (counters st0) with 0 in Hc.
    destruct Hb' as (Ht & Hr & Hf & Hone).
    unfold counters, enough_turns, max_tool_calls, max_rate_retries,
      max_tool_fail_retries in *. lia.
Qed.

End Termination.

Lemma run_agent_total_witness :
  ∃ st' w',
    (counters st' = counters (GroqRunner.initial_state "system" "user") + 1
     ∧ within_budgets st')
    ∧ GroqRunner.iteration saturated ["gsk_1"; "gsk_2"] "/srv/proj"
        (GroqRunner.initial_state "system" "user") demo_world
      = GroqRunner.Continue st' w'.
Proof.
  eexists _, _. split.
  - refine (let H := proj2 (run_agent_total saturated ["gsk_1"; "gsk_2"] "/srv/proj"
                              "system" "user" "Developer" demo_world)
                       (GroqRunner.initial_state "system" "user") demo_world _ _
                       eq_refl _ _ in
            conj (proj1 H) (proj1 (proj2 H))).
    + unfold within_budgets. simpl. unfold GroqRunner.max_tool_calls,
        GroqRunner.max_rate_retries, GroqRunner.max_tool_fail_retries. lia.
    + vm_compute. reflexivity.
  - vm_compute. reflexivity.
Defined.

Section Malformed.

Import GroqRunner.

Variable o : Oracle.
Variable clients : list string.
Variable root : string.


End Malformed.



(** ** The phase pipeline *)

Section Pipeline.

Import GroqRunner.

Variable o : Oracle.
Variable clients : list string.

Lemma iteration_frame root st w :
  match iteration o clients root st w with
  | Continue _ w' | Return _ w' | Raise _ w' =>
      cwd w' = cwd w ∧ started w' = started w
  end.
Proof.
  unfold iteration.
  destruct (clients !! client_idx st) as [client|]; [|done].
  destruct (api o (requests w) client (messages st)) as [msg|error_str].
  - destruct (tool_calls msg) as [|tc tcs]; [done|].
    pose proof (process_tool_calls_frame root (tc :: tcs)
                  (messages st ++ [AssistantMsg msg]) (count_request w)) as Hf.
    destruct (process_tool_calls _ _ _ _) as [[? ?]|[? ?]];
      by destruct Hf as (?&?&?&?).
  - destruct (Py.contains "rate_limit_exceeded" error_str).
    + by destruct (_ =? 0).
    + by destruct (_ && _).
Qed.

Lemma run_loop_frame fuel root st w r w' :
  run_loop fuel o clients root st w = Some (r, w') →
  cwd w' = cwd w ∧ started w' = started w.
Proof.
  revert st w. induction fuel as [|fuel IH]; intros st w; simpl.
  - destruct (loop_guard st); [done|]. by intros [= _ <-].
  - destruct (loop_guard st); [|by intros [= _ <-]].
    pose proof (iteration_frame root st w) as Hf.
    destruct (iteration o clients root st w) as [st1 w1|result w1|e w1].
    + intros Hrun. apply IH in Hrun as [? ?]. destruct Hf. split; congruence.
    + by intros [= _ <-].
    + by intros [= _ <-].
Qed.

(** A run starts one conversation, its own. *)
Lemma call_started project_dir agent_name prompt message w r w' :
  Orchestrator.call o clients project_dir agent_name prompt message w = Some (r, w') →
  started w' = started w ++ [agent_name].
Proof.
  unfold Orchestrator.call, run_agent. intros Hrun.
  by apply run_loop_frame in Hrun as [_ ->].
Qed.

Lemma make_subdirs_started project_dir subdirs w w0 :
  Orchestrator.make_subdirs project_dir subdirs w = inl w0 →
  started w0 = started w.
Proof.
  revert w. induction subdirs as [|d subdirs IH]; intros w; simpl.
  - by intros [= <-].
  - destruct (OS.makedirs _ _ _) as [fs'|e]; [|done].
    intros H. by apply IH in H as ->.
Qed.

(** C1, as the code has it.  After each of the first three phases
    returns, [run] looks for the phase's deliverable ([PRD.md],
    [ARCHITECTURE.md], [TASK_LIST.json]); when it is missing, [run] ends
    there with the phase's [RuntimeError], in the world the phase left,
    in which no later phase has started a conversation. *)
Theorem first_three_phases_are_gated user_requirement project_dir w w0 :
  Orchestrator.make_subdirs project_dir FileSystem.PROJECT_SUBDIRS w = inl w0 →
  (∀ r1 w1,
     prd_phase o clients user_requirement project_dir w0 = Some (Returned r1, w1) →
     artifact_present project_dir "PRD.md" w1 = false →
     Orchestrator.run o clients user_requirement project_dir w
     = Some (Raised (RuntimeError "PRD.md not created by Project Manager agent."), w1)
     ∧ started w1 = started w ++ ["Project Manager"])
  ∧ (∀ r1 w1 r2 w2,
       prd_phase o clients user_requirement project_dir w0 = Some (Returned r1, w1) →
       artifact_present project_dir "PRD.md" w1 = true →
       architecture_phase o clients project_dir w1 = Some (Returned r2, w2) →
       artifact_present project_dir "ARCHITECTURE.md" w2 = false →
       Orchestrator.run o clients user_requirement project_dir w
       = Some (Raised (RuntimeError "ARCHITECTURE.md not created by Architect agent."), w2)
       ∧ started w2 = started w ++ ["Project Manager"; "Architect"])
  ∧ (∀ r1 w1 r2 w2 r3 w3,
       prd_phase o clients user_requirement project_dir w0 = Some (Returned r1, w1) →
       artifact_present project_dir "PRD.md" w1 = true →
       architecture_phase o clients project_dir w1 = Some (Returned r2, w2) →
       artifact_present project_dir "ARCHITECTURE.md" w2 = true →
       task_list_phase o clients project_dir w2 = Some (Returned r3, w3) →
       artifact_present project_dir "TASK_LIST.json" w3 = false →
       Orchestrator.run o clients user_requirement project_dir w
       = Some (Raised (RuntimeError "TASK_LIST.json not created by Team Lead agent."), w3)
       ∧ started w3 = started w ++ ["Project Manager"; "Architect"; "Team Lead"]).
Proof.
  intros Hsub. pose proof (make_subdirs_started _ _ _ _ Hsub) as Hs0.
  unfold prd_phase, architecture_phase, task_list_phase, artifact_present.
  split; [|split].
  - intros r1 w1 H1 A1. split.
    + unfold Orchestrator.run. rewrite Hsub, H1. simpl.
      unfold Orchestrator.verify_created. by rewrite A1.
    + apply call_started in H1. by rewrite H1, Hs0.
  - intros r1 w1 r2 w2 H1 A1 H2 A2. split.
    + unfold Orchestrator.run. rewrite Hsub, H1. simpl.
      unfold Orchestrator.verify_created. rewrite A1. simpl.
      rewrite H2. simpl. by rewrite A2.
    + apply call_started in H1, H2. rewrite H2, H1, Hs0.
      by rewrite <- app_assoc.
  - intros r1 w1 r2 w2 r3 w3 H1 A1 H2 A2 H3 A3. split.
    + unfold Orchestrator.run. rewrite Hsub, H1. simpl.
      unfold Orchestrator.verify_created. rewrite A1. simpl.
      rewrite H2. simpl. rewrite A2. simpl. rewrite H3. simpl. by rewrite A3.
    + apply call_started in H1, H2, H3. rewrite H3, H2, H1, Hs0.
      by rewrite <- !app_assoc.
Qed.

End Pipeline.

Lemma first_three_phases_are_gated_witness :
  Orchestrator.run idle ["gsk_1"] "build a counter CLI" "/srv/proj" demo_world
  = Some (GroqRunner.Raised (RuntimeError "PRD.md not created by Project Manager agent."),
          demo_after_prd)
  ∧ GroqRunner.started demo_after_prd
    = GroqRunner.started demo_world ++ ["Project Manager"].
Proof.
  refine (proj1 (first_three_phases_are_gated idle ["gsk_1"] "build a counter CLI"
                   "/srv/proj" demo_world demo_prepared _) "done" demo_after_prd _ _).
  - vm_compute. reflexivity.
  - vm_compute. reflexivity.
  - vm_compute. reflexivity.
Defined.

(** C1 as stated fails: nothing is checked after the Developer, Validator
    and Tester phases.  With an endpoint whose Validator and Tester write
    nothing, [run] completes, the Tester's conversation is started, and
    neither [VALIDATION_REPORT.md] nor [tests/test_main.py] exists. *)
Lemma late_phases_are_not_gated :
  ∃ w', Orchestrator.run lazy_reviewer ["gsk_1"] "build a counter CLI" "/srv/proj"
          demo_world
        = Some (GroqRunner.Returned "NeoForge AI pipeline completed. Output in: /srv/proj",
                w')
        ∧ GroqRunner.started w'
          = ["Project Manager"; "Architect"; "Team Lead"; "Developer";
             "Backend Logic Validator"; "QA Tester"]
        ∧ artifact_present "/srv/proj" "TASK_LIST.json" w' = true
        ∧ artifact_present "/srv/proj" "VALIDATION_REPORT.md" w' = false
        ∧ artifact_present "/srv/proj" "tests/test_main.py" w' = false.
Proof.
  eexists. split; [vm_compute; reflexivity|].
  split; [reflexivity|]. split; [vm_compute; reflexivity|].
  split; vm_compute; reflexivity.
Qed.

(** ** The embedding on concrete inputs *)

Example split_keeps_empty_pieces : Py.split "/" "/a//b/" = [""; "a"; ""; "b"; ""].
Proof. reflexivity. Qed.

Example strip_both_ends : Py.strip "  gsk_key  " = "gsk_key".
Proof. vm_compute. reflexivity. Qed.

Example normpath_folds_dotdot : posixpath.normpath "/srv/proj/../x/./y" = "/srv/x/y".
Proof. vm_compute. reflexivity. Qed.

Example normpath_keeps_two_slashes : posixpath.normpath "//a/../.." = "//".
Proof. vm_compute. reflexivity. Qed.

Example commonpath_is_not_a_string_prefix :
  posixpath.commonpath "/srv/proj_evil/x" "/srv/proj" = posixpath.Common "/srv".
Proof. vm_compute. reflexivity. Qed.

Example write_inside_the_root :
  (FileSystem.write_file "/" demo_fs "src/a.py" "x" (Some "/srv/proj")).1
  = "Successfully wrote to src/a.py"
  ∧ (FileSystem.write_file "/" demo_fs "src/a.py" "x" (Some "/srv/proj")).2
      !! ["srv"; "proj"; "src"] = Some OS.Dir.
Proof. split; vm_compute; reflexivity. Qed.

Example root_with_trailing_slash_refuses_all :
  FileSystem.read_file "/" demo_fs "a.txt" (Some "/srv/proj/")
  = "Error: Security violation. Cannot read outside project root.".
Proof. vm_compute. reflexivity. Qed.

Example pool_skips_placeholders :
  GroqRunner.build_client_pool demo_environ = inl ["gsk_second"; "gsk_fourth"].
Proof. vm_compute. reflexivity. Qed.

Example saturated_pool_gives_up :
  ∃ w', GroqRunner.run_agent saturated "system" "user" ["k1"; "k2"; "k3"] "/srv/proj"
          "Developer" demo_world
        = Some (GroqRunner.Returned "Agent aborted: rate limit hit 30 times.", w')
        ∧ GroqRunner.requests w' = 30
        ∧ length (GroqRunner.sleeps w') = 10
        ∧ GroqRunner.sleeps w' !! 2 = Some (161 # 2)%Q.
Proof.
  eexists. split; [vm_compute; reflexivity|].
  split; [reflexivity|]. split; reflexivity.
Qed.

Example unparsable_arguments_are_fed_back :
  GroqRunner.iteration
    {| GroqRunner.api := λ _ _ _, GroqRunner.Response (garbled_call "call_9");
       GroqRunner.uniform_0_5 := λ _, 0%Q |}
    ["gsk_1"] "/srv/proj" (GroqRunner.initial_state "system" "user") demo_world
  = GroqRunner.Continue
      (after_unparsable (GroqRunner.initial_state "system" "user") (garbled_call "call_9"))
      (GroqRunner.count_request demo_world).
Proof. vm_compute. reflexivity. Qed.

Example deque_drops_the_oldest :
  VizState.deque_append (seq_lines 50) "new" = drop 1 (seq_lines 50) ++ ["new"].
Proof. vm_compute. reflexivity. Qed.

(** * Further properties of the modelled code *)

(** ** Normalised paths *)

Section Normalised.

Import posixpath.

Lemma plain_not_skipped c :
  plain_component c → bool_decide (c = "" ∨ c = ".") = false.
Proof.
  intros [[[H1 H2] _] _]. apply bool_decide_eq_false. by intros [?|?].
Qed.

Lemma normpath_step_plain k acc c :
  plain_component c → normpath_step k acc c = acc ++ [c].
Proof.
  intros Hc. unfold normpath_step. rewrite plain_not_skipped by done.
  destruct Hc as [_ Hc]. by rewrite (bool_decide_eq_true_2 (c ≠ "..")).
Qed.

Lemma fold_plain k cs acc :
  Forall plain_component cs → fold_left (normpath_step k) cs acc = acc ++ cs.
Proof.
  intros Hcs. revert acc. induction Hcs as [|c cs Hc _ IH]; intros acc; simpl.
  - by rewrite app_nil_r.
  - rewrite normpath_step_plain by done. rewrite IH. by rewrite <- app_assoc.
Qed.

Lemma last_plain acc : Forall plain_component acc → last acc ≠ Some "..".
Proof.
  intros Hacc Hl. apply last_Some_elem_of in Hl.
  rewrite Forall_forall in Hacc. by destruct (Hacc _ Hl) as [_ ?].
Qed.

Lemma removelast_plain (acc : list string) :
  Forall plain_component acc → Forall plain_component (removelast acc).
Proof.
  induction 1 as [|c acc Hc Hacc IH]; simpl; [done|].
  destruct acc; [done|]. by constructor.
Qed.

(** Below an absolute start the component loop of [normpath] keeps only
    plain components. *)
Lemma normpath_step_keeps_plain k acc c :
  k ≠ 0 → Py.no_sep sep c → Forall plain_component acc →
  Forall plain_component (normpath_step k acc c).
Proof.
  intros Hk Hc Hacc. unfold normpath_step.
  case_bool_decide as Hskip; [done|].
  assert (c ≠ "" ∧ c ≠ ".") as Hne.
  { split; intros ->; apply Hskip; auto. }
  case_bool_decide as Hdd.
  - simpl. apply Forall_app. split; [done|].
    apply Forall_singleton. destruct Hne. split; [split; [split|]|]; done.
  - replace (k =? 0) with false by (symmetry; by apply Nat.eqb_neq).
    rewrite (bool_decide_eq_false_2 (last acc = Some "..")) by by apply last_plain.
    simpl. case_bool_decide; [by apply removelast_plain|done].
Qed.

Lemma fold_keeps_plain k l acc :
  k ≠ 0 → Forall (Py.no_sep sep) l → Forall plain_component acc →
  Forall plain_component (fold_left (normpath_step k) l acc).
Proof.
  intros Hk Hl. revert acc. induction Hl as [|c l Hc _ IH]; intros acc Hacc; simpl.
  - done.
  - apply IH. by apply normpath_step_keeps_plain.
Qed.

Lemma plain_components (cs : list string) :
  Forall plain_component cs → Forall component cs.
Proof. intros H. eapply Forall_impl; [exact H|]. by intros c [? _]. Qed.

Lemma startswith_char a s b :
  Py.startswith (String a s) (String b "") = Ascii.eqb b a.
Proof. cbn [Py.startswith]. apply andb_true_r. Qed.

Lemma join_no_leading_slash cs :
  Forall plain_component cs → Py.startswith (Py.join "/" cs) "/" = false.
Proof.
  intros Hcs. destruct Hcs as [|c cs [[[Hne _] Hsep] _] _]; [done|].
  destruct c as [|a c]; [done|]. destruct Hsep as [Ha _].
  assert (Py.startswith (String a c +:+ "/" +:+ Py.join "/" cs) "/" = false) as Hlong.
  { rewrite append_cons_l, startswith_char. unfold sep in Ha.
    destruct (Ascii.eqb_spec "/" a) as [<-|]; done. }
  destruct cs as [|d cs]; [|exact Hlong].
  cbn [Py.join]. rewrite startswith_char.
  destruct (Ascii.eqb_spec "/" a) as [<-|]; done.
Qed.

Lemma split_join_or_empty cs :
  Forall plain_component cs →
  fold_left (normpath_step 1) (Py.split sep (Py.join "/" cs)) [] = cs
  ∧ fold_left (normpath_step 2) (Py.split sep (Py.join "/" cs)) [] = cs.
Proof.
  intros Hcs. destruct cs as [|c cs]; [done|].
  rewrite (split_join sep); [|eapply Forall_impl; [exact Hcs|]; by intros ? [[_ ?] _]|done].
  by rewrite !fold_plain.
Qed.

Lemma fold_skips_slash k x :
  fold_left (normpath_step k) (Py.split sep (String sep x)) []
  = fold_left (normpath_step k) (Py.split sep x) [].
Proof. reflexivity. Qed.

(** A path made of one or two slashes and plain components is in normal
    form. *)
Lemma normpath_fixed k cs :
  k = 1 ∨ k = 2 → Forall plain_component cs →
  normpath (repeat_sep k +:+ Py.join "/" cs) = repeat_sep k +:+ Py.join "/" cs.
Proof.
  intros Hk Hcs. pose proof (join_no_leading_slash cs Hcs) as Hj.
  destruct (split_join_or_empty cs Hcs) as [F1 F2].
  unfold normpath. destruct Hk as [-> | ->]; cbn [repeat_sep]; rewrite !append_cons_l,
    append_nil_l; rewrite bool_decide_eq_false_2 by done.
  - change (Py.startswith (String sep (Py.join "/" cs)) "/") with true.
    change (Py.startswith (String sep (Py.join "/" cs)) "//")
      with (Py.startswith (Py.join "/" cs) "/").
    rewrite Hj. cbn [andb negb repeat_sep]. rewrite fold_skips_slash, F1.
    rewrite append_cons_l, append_nil_l. by rewrite bool_decide_eq_false_2.
  - change (Py.startswith (String sep (String sep (Py.join "/" cs))) "/") with true.
    change (Py.startswith (String sep (String sep (Py.join "/" cs))) "//") with true.
    change (Py.startswith (String sep (String sep (Py.join "/" cs))) "///")
      with (Py.startswith (Py.join "/" cs) "/").
    rewrite Hj. cbn [andb negb repeat_sep]. rewrite !fold_skips_slash, F2.
    rewrite !append_cons_l, append_nil_l. by rewrite bool_decide_eq_false_2.
Qed.

(** The normal form of an absolute path. *)
Lemma normpath_of_absolute p :
  isabs p = true →
  ∃ k cs, (k = 1 ∨ k = 2) ∧ Forall plain_component cs
          ∧ normpath p = repeat_sep k +:+ Py.join "/" cs.
Proof.
  intros Hp. unfold normpath. unfold isabs in Hp.
  destruct p as [|a p]; [done|]. rewrite bool_decide_eq_false_2 by done. rewrite Hp.
  set (k := if _ && _ then 2 else 1).
  assert (k = 1 ∨ k = 2) as Hk by (unfold k; destruct (_ && _); auto).
  exists k, (fold_left (normpath_step k) (Py.split sep (String a p)) []).
  split; [done|]. split.
  - apply fold_keeps_plain; [lia|apply split_pieces|constructor].
  - rewrite bool_decide_eq_false_2; [done|].
    destruct Hk as [-> | ->]; cbn [repeat_sep]; by rewrite append_cons_l.
Qed.

Lemma normpath_idempotent p :
  isabs p = true → normpath (normpath p) = normpath p.
Proof.
  intros Hp. destruct (normpath_of_absolute p Hp) as (k & cs & Hk & Hcs & ->).
  by apply normpath_fixed.
Qed.

(** The kernel resolves an already resolved path to itself. *)
Lemma resolve_resolved cwd p :
  isabs cwd = true → OS.resolve cwd (abspath cwd p) = comps (abspath cwd p).
Proof.
  intros Hcwd. unfold OS.resolve.
  assert (∃ q, isabs q = true ∧ abspath cwd p = normpath q) as (q & Hq & ->).
  { unfold abspath. destruct (isabs p) eqn:Hp; [by exists p|].
    exists (join cwd p). split; [by apply isabs_join|done]. }
  unfold abspath at 1. rewrite isabs_normpath by done.
  by rewrite normpath_idempotent.
Qed.

End Normalised.

(** ** What the file operations do to the file system *)

Section FileEffects.

Import OS FileSystem.

Lemma node_at_lookup (fs : FS) (k : list string) : k ≠ [] → node_at fs k = fs !! k.
Proof. intros Hk. unfold node_at. by rewrite bool_decide_eq_false_2. Qed.

Lemma snoc_not_nil {A} (l : list A) x : l ++ [x] ≠ [].
Proof. by destruct l. Qed.

(** [makedirs] keeps every node, adds directories only, and only along the
    path it is asked for; at the end the path is a directory. *)
Lemma makedirs_from_effect (pre rest : list string) (fs fs' : FS) :
  makedirs_from pre rest fs = inl fs' →
  (∀ k n, fs !! k = Some n → fs' !! k = Some n)
  ∧ (∀ k, fs !! k = None → is_Some (fs' !! k) →
          fs' !! k = Some Dir
          ∧ ∃ r1 r2, rest = r1 ++ r2 ∧ r1 ≠ [] ∧ k = pre ++ r1)
  ∧ (node_at fs pre = Some Dir → node_at fs' (pre ++ rest) = Some Dir).
Proof.
  revert pre fs. induction rest as [|c rest IH]; intros pre fs; simpl.
  - intros [= <-]. split; [done|]. split.
    + intros k Hk [n Hn]. congruence.
    + by rewrite app_nil_r.
  - pose proof (snoc_not_nil pre c) as Hne.
    rewrite (node_at_lookup fs (pre ++ [c])) by done.
    destruct (fs !! (pre ++ [c])) as [[text|]|] eqn:Hn; [done| |].
    + intros Hmk. destruct (IH _ _ Hmk) as (H1 & H2 & H3).
      split; [done|]. split.
      * intros k Hk Hs. destruct (H2 k Hk Hs) as (Hd & r1 & r2 & -> & Hr1 & ->).
        split; [done|]. exists (c :: r1), r2.
        split; [done|]. split; [done|]. by rewrite <- app_assoc.
      * intros _. rewrite <- app_assoc in H3. apply H3.
        by rewrite node_at_lookup.
    + intros Hmk. destruct (IH _ _ Hmk) as (H1 & H2 & H3).
      split; [|split].
      * intros k n Hk. apply H1. rewrite lookup_insert_ne; [done|]. congruence.
      * intros k Hk Hs. destruct (decide (k = pre ++ [c])) as [->|Hkc].
        -- split; [apply H1; by rewrite lookup_insert_eq|].
           exists [c], rest. by repeat split.
        -- destruct (H2 k) as (Hd & r1 & r2 & -> & Hr1 & ->);
             [by rewrite lookup_insert_ne|done|].
           split; [done|]. exists (c :: r1), r2.
           split; [done|]. split; [done|]. by rewrite <- app_assoc.
      * intros _. rewrite <- app_assoc in H3. apply H3.
        rewrite node_at_lookup by done. by rewrite lookup_insert_eq.
Qed.

Lemma write_key_effect (k : list string) (text : string) (fs fs' : FS) :
  write_key k text fs = inl fs' →
  k ≠ [] ∧ fs' = <[k := File text]> fs
  ∧ (fs !! k = None ∨ ∃ old, fs !! k = Some (File old)).
Proof.
  unfold write_key. destruct (decide (k = [])) as [->|Hk]; [done|].
  rewrite (node_at_lookup fs k) by done.
  destruct (fs !! k) as [[old|]|] eqn:Hn; [| done |].
  - destruct (node_at fs (removelast k)) as [[?|]|]; [done| |done].
    intros [= <-]. eauto.
  - destruct (node_at fs (removelast k)) as [[?|]|]; [done| |done].
    intros [= <-]. eauto.
Qed.

(** The check lets through only paths under the root. *)
Lemma assert_within_root_passes abs_path path action root err :
  _assert_within_root abs_path path action root = inl err →
  is_refusal err = None →
  posixpath.comps root `prefix_of` posixpath.comps abs_path.
Proof.
  unfold _assert_within_root.
  destruct (posixpath.commonpath abs_path root) as [c| |] eqn:Hc; [| |done].
  - case_bool_decide as Hne.
    + intros [= <-]. by rewrite violation_is_refusal.
    + intros _ _. apply commonpath_is_root.
      destruct (decide (c = root)) as [->|]; [done|]. exfalso; auto.
  - intros [= <-]. by rewrite violation_is_refusal.
Qed.

(** What [write_file] does to each key [k] of the state, seen from the
    key [t] of the file it opens: nothing; or [k] is [t] and now holds the
    text, where there was no node or a file; or [k] was missing, leads to
    [t] and is now a directory. *)
Lemma write_file_keys (cwd : string) (fs : FS) (path text : string)
    (project_root : option string) (k : list string) :
  let fs' := (write_file cwd fs path text project_root).2 in
  let t := target_key cwd project_root path in
  fs' !! k = fs !! k
  ∨ (k = t ∧ fs' !! k = Some (File text)
     ∧ (fs !! k = None ∨ ∃ old, fs !! k = Some (File old))
     ∧ (write_file cwd fs path text project_root).1 = "Successfully wrote to " +:+ path
     ∧ ∃ err, _assert_within_root (resolved cwd project_root path) path "write"
                (root_or_cwd cwd project_root) = inl err
              ∧ is_refusal err = None)
  ∨ (fs !! k = None ∧ fs' !! k = Some Dir ∧ ∃ r, r ≠ [] ∧ t = k ++ r).
Proof.
  simpl. unfold target_key, resolved, write_file.
  set (root := root_or_cwd cwd project_root).
  set (abs_path := posixpath.abspath cwd (posixpath.join root path)).
  set (t := resolve cwd abs_path).
  destruct (_assert_within_root abs_path path "write" root) as [err|e] eqn:Hchk;
    [|by left].
  destruct (is_refusal err) as [e|] eqn:Hrf; [by left|].
  unfold makedirs_key, dirname_key.
  destruct (makedirs_from [] (removelast t) fs) as [fs1|e] eqn:Hmk; [|by left].
  apply makedirs_from_effect in Hmk as (H1 & H2 & _).
  assert (fs1 !! k = fs !! k
          ∨ (fs !! k = None ∧ fs1 !! k = Some Dir ∧ ∃ r, r ≠ [] ∧ t = k ++ r)) as Hdirs.
  { destruct (fs !! k) as [n|] eqn:Hk; [left; by apply H1|].
    destruct (fs1 !! k) as [n1|] eqn:Hk1; [|by left].
    right. destruct (H2 k Hk) as (Hd & r1 & r2 & Hrest & Hr1 & ->); [by eexists|].
    split; [done|]. split; [congruence|].
    destruct t as [|x t'] using rev_ind.
    - simpl in Hrest. by destruct r1.
    - rewrite removelast_last in Hrest. exists (r2 ++ [x]).
      split; [by destruct r2|]. rewrite Hrest. by rewrite <- app_assoc. }
  destruct (write_key t text fs1) as [fs2|e] eqn:Hwr; simpl.
  - apply write_key_effect in Hwr as (Ht & -> & Hold).
    destruct (decide (k = t)) as [->|Hkt].
    + right; left. rewrite lookup_insert_eq. split; [done|]. split; [done|].
      split; [|split; [done|by exists err]].
      destruct (fs !! t) as [n|] eqn:Hk; [|by left].
      right. apply H1 in Hk. destruct Hold as [?|[old ?]]; [congruence|].
      exists old. congruence.
    + rewrite lookup_insert_ne by done.
      destruct Hdirs as [?|?]; [by left|by right; right].
  - destruct Hdirs as [?|?]; [by left|by right; right].
Qed.

Lemma write_file_target_under cwd path project_root err :
  posixpath.isabs cwd = true →
  _assert_within_root (resolved cwd project_root path) path "write"
    (root_or_cwd cwd project_root) = inl err →
  is_refusal err = None →
  under (root_or_cwd cwd project_root) (target_key cwd project_root path).
Proof.
  intros Hcwd Hchk Hrf. unfold under, target_key.
  unfold resolved at 1. rewrite resolve_resolved by done.
  by eapply assert_within_root_passes.
Qed.

End FileEffects.

Section SandboxMore.

Import OS FileSystem.

Lemma prefix_not_greater (r k : list string) : Py.list_compare r (r ++ k) ≠ Gt.
Proof.
  induction r as [|c r IH]; simpl; [by destruct k|].
  by rewrite string_compare_refl.
Qed.

Lemma common_loop_of_prefix (r k : list string) :
  posixpath.common_loop r (r ++ k) = Some r.
Proof.
  induction r as [|c r IH]; simpl; [done|].
  rewrite bool_decide_eq_false_2 by (intros H; by apply H). by rewrite IH.
Qed.

Lemma commonpath_of_descendant abs_path root :
  posixpath.isabs abs_path = true → posixpath.isabs root = true →
  posixpath.comps root `prefix_of` posixpath.comps abs_path →
  posixpath.commonpath abs_path root
  = posixpath.Common ("/" +:+ Py.join "/" (posixpath.comps root)).
Proof.
  intros Ha Hr [k Hk]. unfold posixpath.commonpath. rewrite Ha, Hr. simpl.
  rewrite Hk. set (r := posixpath.comps root).
  pose proof (prefix_not_greater r k) as Hle.
  unfold Py.min2, Py.max2.
  destruct (Py.list_compare r (r ++ k)) eqn:Hcmp; [| |done].
  - apply list_compare_eq in Hcmp. rewrite <- Hcmp.
    rewrite <- (app_nil_r r) at 2. by rewrite common_loop_of_prefix.
  - by rewrite common_loop_of_prefix.
Qed.

Lemma spelled_plainly_isabs root : spelled_plainly root → posixpath.isabs root = true.
Proof. unfold spelled_plainly. by intros ->. Qed.

(** X3.  For a resolved (absolute) path, [_assert_within_root] lets the
    operation through exactly when the root is spelled as
    [/c1/.../cn] and its components lead the components of the path; in
    every other case, among them a relative root and a root with a
    trailing slash, it answers with the violation text. *)
Theorem within_root_check_is_exact abs_path path action root :
  posixpath.isabs abs_path = true →
  (spelled_plainly root
   ∧ posixpath.comps root `prefix_of` posixpath.comps abs_path →
   _assert_within_root abs_path path action root = inl None)
  ∧ (¬ (spelled_plainly root
        ∧ posixpath.comps root `prefix_of` posixpath.comps abs_path) →
     _assert_within_root abs_path path action root
     = inl (Some (security_violation action))).
Proof.
  intros Ha. split.
  - intros [Hsp Hpre]. unfold _assert_within_root.
    rewrite (commonpath_of_descendant abs_path root Ha
               (spelled_plainly_isabs root Hsp) Hpre).
    rewrite <- Hsp. by rewrite bool_decide_eq_false_2 by (intros H; by apply H).
  - intros Hnot. unfold _assert_within_root.
    destruct (posixpath.commonpath abs_path root) as [c| |] eqn:Hc.
    + case_bool_decide as Hne; [done|]. exfalso. apply Hnot.
      assert (c = root) as -> by (destruct (decide (c = root)); [done|]; exfalso; auto).
      split; [|by apply commonpath_is_root].
      apply commonpath_components in Hc as (r & Hroot & _ & H1 & _).
      rewrite Ha in Hroot. unfold spelled_plainly. rewrite Hroot at 2.
      rewrite comps_slash_join; [done|].
      eapply prefix_components; [exact H1|apply comps_components].
    + done.
    + by apply commonpath_never_out_of_range in Hc.
Qed.

Lemma within_root_check_is_exact_witness :
  _assert_within_root "/srv/proj/src/a.py" "src/a.py" "write" "/srv/proj" = inl None
  ∧ _assert_within_root "/srv/proj/src/a.py" "src/a.py" "write" "/srv/proj/"
    = inl (Some (security_violation "write"))
  ∧ _assert_within_root "/srv/proj/src/a.py" "src/a.py" "write" "srv/proj"
    = inl (Some (security_violation "write")).
Proof.
  split; [|split].
  - apply (proj1 (within_root_check_is_exact "/srv/proj/src/a.py" "src/a.py" "write"
                    "/srv/proj" eq_refl)).
    split; [vm_compute; reflexivity|]. exists ["src"; "a.py"]. vm_compute. reflexivity.
  - apply (proj2 (within_root_check_is_exact "/srv/proj/src/a.py" "src/a.py" "write"
                    "/srv/proj/" eq_refl)).
    intros [Hsp _]. vm_compute in Hsp. discriminate Hsp.
  - apply (proj2 (within_root_check_is_exact "/srv/proj/src/a.py" "src/a.py" "write"
                    "srv/proj" eq_refl)).
    intros [Hsp _]. vm_compute in Hsp. discriminate Hsp.
Defined.

Lemma refusal_text abs_path path action root err e :
  _assert_within_root abs_path path action root = inl err →
  is_refusal err = Some e → e = security_violation action.
Proof.
  unfold _assert_within_root.
  destruct (posixpath.commonpath abs_path root); [case_bool_decide| |];
    intros [= <-]; try done; rewrite violation_is_refusal; congruence.
Qed.

Lemma check_ignores_action abs_path path action action' root err :
  _assert_within_root abs_path path action root = inl err →
  is_refusal err = None →
  _assert_within_root abs_path path action' root = inl None.
Proof.
  unfold _assert_within_root.
  destruct (posixpath.commonpath abs_path root); [case_bool_decide| |];
    intros [= <-]; try done; by rewrite violation_is_refusal.
Qed.

Lemma startswith_cr c s :
  Py.startswith (String c s) (String "013" "") = Ascii.eqb "013" c.
Proof. cbn [Py.startswith]. apply andb_true_r. Qed.

(** A text without [\r] is read as it is stored. *)
Lemma universal_newlines_plain (s : string) :
  Py.contains (String "013" "") s = false → Py.universal_newlines s = s.
Proof.
  induction s as [|c s IH]; [done|].
  cbn [Py.contains]. rewrite startswith_cr. intros H.
  apply orb_false_iff in H as [Hc Hs].
  cbn [Py.universal_newlines]. rewrite Ascii.eqb_sym, Hc. by rewrite IH.
Qed.

(** X1.  When [write_file] reports success, [read_file] with the same
    path and root on the resulting file system returns the text written
    with its line ends translated: every [\r\n] and every other [\r] reads
    back as [\n], and a text without [\r] reads back as it was written. *)
Theorem read_after_write (cwd : string) (fs : FS) (path text : string)
    (project_root : option string) :
  (write_file cwd fs path text project_root).1 = "Successfully wrote to " +:+ path →
  read_file cwd (write_file cwd fs path text project_root).2 path project_root
  = Py.universal_newlines text
  ∧ (Py.contains (String "013" "") text = false → Py.universal_newlines text = text).
Proof.
  intros Hok. split; [|apply universal_newlines_plain].
  revert Hok. unfold write_file, read_file.
  set (root := root_or_cwd cwd project_root).
  set (abs_path := posixpath.abspath cwd (posixpath.join root path)).
  destruct (_assert_within_root abs_path path "write" root) as [err|e] eqn:Hchk;
    [|discriminate].
  destruct (is_refusal err) as [e|] eqn:Hrf.
  { rewrite (refusal_text _ _ _ _ _ _ Hchk Hrf). discriminate. }
  rewrite (check_ignores_action _ _ _ "read" _ _ Hchk Hrf). simpl.
  destruct (makedirs_key _ fs) as [fs1|e]; [|discriminate].
  destruct (write_key _ text fs1) as [fs2|e] eqn:Hwr; [|discriminate].
  intros _. simpl. apply write_key_effect in Hwr as (Ht & -> & _).
  unfold path_exists, read_key. rewrite node_at_lookup by done.
  rewrite lookup_insert_eq. by rewrite bool_decide_eq_true_2.
Qed.

Lemma read_after_write_witness :
  read_file "/" (write_file "/" demo_fs "src/a.py" two_lines (Some "/srv/proj")).2
    "src/a.py" (Some "/srv/proj")
  = "a" +:+ String "010" "b".
Proof.
  apply (read_after_write "/" demo_fs "src/a.py" two_lines (Some "/srv/proj")).
  vm_compute. reflexivity.
Defined.

Lemma write_file_effects (cwd : string) (fs : FS)
    (path text : string) (project_root : option string) :
  posixpath.isabs cwd = true →
  let fs' := (write_file cwd fs path text project_root).2 in
  let t := target_key cwd project_root path in
  let root := root_or_cwd cwd project_root in
  (∀ k n, fs !! k = Some n →
     fs' !! k = Some n
     ∨ (k = t ∧ under root t ∧ ∃ old, n = File old ∧ fs' !! k = Some (File text)))
  ∧ (∀ k, fs !! k = None → is_Some (fs' !! k) →
       (k = t ∧ under root t ∧ fs' !! k = Some (File text))
       ∨ (fs' !! k = Some Dir ∧ ∃ r, r ≠ [] ∧ t = k ++ r))
  ∧ untouched_outside (under root) fs fs'
  ∧ nothing_removed fs fs'.
Proof.
  intros Hcwd fs' t root.
  assert (∀ k,
    fs' !! k = fs !! k
    ∨ (k = t ∧ under root t ∧ fs' !! k = Some (File text)
       ∧ (fs !! k = None ∨ ∃ old, fs !! k = Some (File old)))
    ∨ (fs !! k = None ∧ fs' !! k = Some Dir ∧ ∃ r, r ≠ [] ∧ t = k ++ r)) as Hkeys.
  { intros k.
    destruct (write_file_keys cwd fs path text project_root k)
      as [?|[(-> & Hf & Hold & _ & err & Hchk & Hrf)|?]]; [by left| |by right; right].
    right; left. split; [done|]. split; [|done].
    by eapply write_file_target_under. }
  split; [|split; [|split]].
  - intros k n Hk. destruct (Hkeys k) as [Heq|[(-> & Hu & Hf & Hold)|(Hnone & _)]].
    + left. congruence.
    + right. split; [done|]. split; [done|].
      destruct Hold as [?|[old Hold]]; [congruence|]. exists old. split; congruence.
    + congruence.
  - intros k Hk [n Hn].
    destruct (Hkeys k) as [Heq|[(-> & Hu & Hf & _)|(_ & Hd & Hr)]].
    + congruence.
    + by left.
    + by right.
  - intros k n Hk Hout.
    destruct (Hkeys k) as [Heq|[(-> & Hu & _)|(Hnone & _)]]; congruence.
  - intros k n Hk.
    destruct (Hkeys k) as [Heq|[(-> & Hu & Hf & Hold)|(Hnone & _)]].
    + rewrite Heq, Hk. destruct n; eauto.
    + destruct Hold as [?|[old Hold]]; [congruence|].
      rewrite Hk in Hold. injection Hold as ->. eauto.
    + congruence.
Qed.

(** X2.  [write_file] removes nothing: every directory is still a
    directory and every file still a file afterwards (the text of a file
    may have changed).  Its answer is the success text, the
    containment-violation text, or an error text that starts with
    [Error writing file: ]. *)
Theorem write_file_removes_nothing (cwd : string) (fs : FS)
    (path text : string) (project_root : option string) :
  nothing_removed fs (write_file cwd fs path text project_root).2
  ∧ ((write_file cwd fs path text project_root).1 = "Successfully wrote to " +:+ path
     ∨ (write_file cwd fs path text project_root).1
       = "Error: Security violation. Cannot write outside project root."
     ∨ ∃ reason,
         (write_file cwd fs path text project_root).1 = "Error writing file: " +:+ reason).
Proof.
  split.
  - intros k n Hk.
    destruct (write_file_keys cwd fs path text project_root k)
      as [Heq|[(_ & Hf & Hold & _)|(Hnone & _)]].
    + rewrite Heq, Hk. destruct n; eauto.
    + destruct Hold as [?|[old Hold]]; [congruence|].
      rewrite Hk in Hold. injection Hold as ->. eauto.
    + congruence.
  - unfold write_file.
    destruct (_assert_within_root _ path "write" _) as [err|e] eqn:Hchk;
      [|right; right; by eexists].
    destruct (is_refusal err) as [e|] eqn:Hrf.
    { right; left. simpl. apply (refusal_text _ _ _ _ _ _ Hchk Hrf). }
    destruct (makedirs_key _ fs) as [fs1|e]; [|right; right; by eexists].
    destruct (write_key _ text fs1) as [fs2|e]; [by left|right; right; by eexists].
Qed.

End SandboxMore.

(** ** The root an operation works under *)

Section SuppliedRoot.

Import OS FileSystem.

Lemma place_isabs root path :
  posixpath.isabs root = true → posixpath.isabs (place root path) = true.
Proof.
  intros Habs. unfold place. apply isabs_normpath. by apply isabs_join.
Qed.

(** For an absolute root the containment check decides [inside]. *)
Lemma check_decides_inside root path action :
  posixpath.isabs root = true →
  _assert_within_root (place root path) path action root
  = if bool_decide (inside root path) then inl None
    else inl (Some (security_violation action)).
Proof.
  intros Habs. pose proof (place_isabs root path Habs) as Ha.
  unfold _assert_within_root. case_bool_decide as Hin.
  - destruct Hin as [Hsp Hpre]. unfold place_key in Hpre.
    rewrite (commonpath_of_descendant _ root Ha Habs Hpre).
    rewrite <- Hsp. by rewrite bool_decide_eq_false_2 by (intros H; by apply H).
  - destruct (posixpath.commonpath (place root path) root) as [c| |] eqn:Hc.
    + case_bool_decide as Hne; [done|]. exfalso. apply Hin.
      assert (c = root) as -> by (destruct (decide (c = root)); [done|]; exfalso; auto).
      split; [|by apply commonpath_is_root].
      apply commonpath_components in Hc as (r & Hroot & _ & H1 & _).
      rewrite Ha in Hroot. unfold spelled_plainly. rewrite Hroot at 2.
      rewrite comps_slash_join; [done|].
      eapply prefix_components; [exact H1|apply comps_components].
    + done.
    + by apply commonpath_never_out_of_range in Hc.
Qed.

(** Whatever the working directory, an operation whose root is the
    absolute [root] works at [place root path]. *)
Lemma operations_under (cwd : string) (fs : FS) (path text : string)
    (project_root : option string) (root : string) :
  root_or_cwd cwd project_root = root →
  posixpath.isabs root = true →
  write_file cwd fs path text project_root = write_under root fs path text
  ∧ read_file cwd fs path project_root = read_under root fs path
  ∧ list_dir cwd fs path project_root = list_under root fs path.
Proof.
  intros Hroot Habs.
  pose proof (isabs_join root path Habs) as Hj.
  pose proof (place_isabs root path Habs) as Ha.
  assert (posixpath.abspath cwd (posixpath.join root path) = place root path) as Hplace.
  { unfold posixpath.abspath. by rewrite Hj. }
  assert (resolve cwd (place root path) = place_key root path) as Hkey.
  { unfold resolve, posixpath.abspath. rewrite Ha. unfold place_key, place.
    by rewrite normpath_idempotent. }
  unfold write_file, read_file, list_dir, path_exists.
  rewrite Hroot, Hplace, Hkey, !check_decides_inside by done.
  unfold write_under, read_under, list_under, dirname_key, read_key, listdir_key.
  split; [|split].
  - by case_bool_decide.
  - case_bool_decide; [|done]. simpl.
    destruct (node_at fs (place_key root path)) as [[c|]|].
    + by rewrite bool_decide_eq_true_2.
    + by rewrite bool_decide_eq_true_2.
    + rewrite bool_decide_eq_false_2; [done|]. by intros [? ?].
  - destruct (node_at fs (place_key root path)) as [[c|]|].
    + by rewrite bool_decide_eq_true_2.
    + by rewrite bool_decide_eq_true_2.
    + rewrite bool_decide_eq_false_2; [done|]. by intros [? ?].
Qed.

(** C4, as the code has it.  With an absolute root supplied by the
    caller each of the three operations works at
    [normpath (join root path)], whatever the working directory of the
    process: it is the operation under that root, which knows no working
    directory, and a successful write leaves the text at that place.
    Called without a root ([None], the default) or with an empty root, each
    of the three is the operation under the working directory. *)
Theorem supplied_root_is_used (cwd : string) (fs : FS) (path text : string) :
  (∀ root : string,
     posixpath.isabs root = true →
     write_file cwd fs path text (Some root) = write_under root fs path text
     ∧ read_file cwd fs path (Some root) = read_under root fs path
     ∧ list_dir cwd fs path (Some root) = list_under root fs path
     ∧ ((write_file cwd fs path text (Some root)).1 = "Successfully wrote to " +:+ path →
        (write_file cwd fs path text (Some root)).2
          !! posixpath.comps (posixpath.normpath (posixpath.join root path))
        = Some (File text)))
  ∧ (posixpath.isabs cwd = true →
     ∀ project_root : option string,
       project_root = None ∨ project_root = Some "" →
       write_file cwd fs path text project_root = write_under cwd fs path text
       ∧ read_file cwd fs path project_root = read_under cwd fs path
       ∧ list_dir cwd fs path project_root = list_under cwd fs path).
Proof.
  split.
  - intros root Habs.
    destruct (operations_under cwd fs path text (Some root) root
                (root_of_absolute cwd root Habs) Habs) as (Hw & Hr & Hl).
    split; [done|]. split; [done|]. split; [done|].
    rewrite Hw. unfold write_under. case_bool_decide; [|discriminate].
    destruct (makedirs_key _ fs) as [fs1|e]; [|discriminate].
    destruct (write_key _ text fs1) as [fs2|e] eqn:Hwr; [|discriminate].
    intros _. apply write_key_effect in Hwr as (_ & -> & _).
    simpl. apply lookup_insert_eq.
  - intros Hcwd project_root Hpr.
    apply operations_under; [|done].
    by destruct Hpr as [-> | ->].
Qed.

Lemma supplied_root_is_used_witness :
  write_file "/home/u" demo_fs "a.txt" "x" (Some "/srv/proj")
  = write_under "/srv/proj" demo_fs "a.txt" "x"
  ∧ read_file "/home/u" demo_fs "secret.txt" (Some "/srv")
    = read_under "/srv" demo_fs "secret.txt"
  ∧ list_dir "/home/u" demo_fs "." None = list_under "/home/u" demo_fs ".".
Proof.
  split; [|split].
  - exact (proj1 (proj1 (supplied_root_is_used "/home/u" demo_fs "a.txt" "x")
                    "/srv/proj" eq_refl)).
  - exact (proj1 (proj2 (proj1 (supplied_root_is_used "/home/u" demo_fs "secret.txt" "x")
                           "/srv" eq_refl))).
  - exact (proj2 (proj2 (proj2 (supplied_root_is_used "/home/u" demo_fs "." "x")
                           eq_refl None (or_introl eq_refl)))).
Defined.

End SuppliedRoot.

(** ** Whole runs of the engine *)

Section EngineMore.

Import GroqRunner.

Variable o : Oracle.
Variable clients : list string.
Variable root : string.

Lemma confined_refl (r : string) (fs : OS.FS) : confined_to r fs fs.
Proof.
  split; [by intros k n Hk _|]. intros k n Hk. rewrite Hk. destruct n; eauto.
Qed.

Lemma confined_trans (r : string) (fs1 fs2 fs3 : OS.FS) :
  confined_to r fs1 fs2 → confined_to r fs2 fs3 → confined_to r fs1 fs3.
Proof.
  intros [U1 N1] [U2 N2]. split.
  - intros k n Hk Hout. eapply U2; [|done]. by eapply U1.
  - intros k n Hk. specialize (N1 k n Hk). destruct n as [text|].
    + destruct N1 as [text1 H1]. apply (N2 k (OS.File text1) H1).
    + apply (N2 k OS.Dir N1).
Qed.

Lemma execute_tool_confined w name args r w' :
  posixpath.isabs (cwd w) = true →
  _execute_tool w name args root = inl (r, w') →
  confined_to (effective_root root w) (fs w) (fs w').
Proof.
  intros Hcwd. unfold _execute_tool. repeat case_bool_decide.
  - destruct (args !! "path") as [path|]; [|done].
    destruct (args !! "content") as [text|]; [|done].
    intros [= _ <-]. simpl.
    destruct (write_file_effects (cwd w) (fs w) path text (Some root) Hcwd)
      as (_ & _ & ? & ?).
    by split.
  - destruct (args !! "path"); [|done]. intros [= _ <-]. apply confined_refl.
  - intros [= _ <-]. apply confined_refl.
Qed.

Lemma process_tool_calls_confined tcs msgs w :
  posixpath.isabs (cwd w) = true →
  match process_tool_calls tcs root msgs w with
  | inl (_, w') | inr (_, w') => confined_to (effective_root root w) (fs w) (fs w')
  end.
Proof.
  revert msgs w. induction tcs as [|tc tcs IH]; intros msgs w Hcwd; simpl.
  - apply confined_refl.
  - destruct (tc_arguments tc) as [fn_args|]; [|by apply IH].
    destruct (_execute_tool w (tc_name tc) fn_args root) as [[r w1]|e] eqn:Hx.
    + pose proof (execute_tool_frame root _ _ _ _ _ Hx) as (Hc & _).
      pose proof (execute_tool_confined _ _ _ _ _ Hcwd Hx) as H1.
      assert (effective_root root w1 = effective_root root w) as Hr
        by (unfold effective_root; by rewrite Hc).
      specialize (IH (msgs ++ [ToolMsg (tc_id tc) r]) w1).
      rewrite Hc, Hr in IH. specialize (IH Hcwd).
      destruct (process_tool_calls _ _ _ _) as [[? ?]|[? ?]];
        by eapply confined_trans.
    + apply confined_refl.
Qed.

Lemma iteration_confined st w :
  posixpath.isabs (cwd w) = true →
  match iteration o clients root st w with
  | Continue _ w' | Return _ w' | Raise _ w' =>
      confined_to (effective_root root w) (fs w) (fs w')
  end.
Proof.
  intros Hcwd. unfold iteration.
  destruct (clients !! client_idx st) as [client|]; [|apply confined_refl].
  destruct (api o (requests w) client (messages st)) as [msg|error_str].
  - destruct (tool_calls msg) as [|tc tcs]; [apply confined_refl|].
    pose proof (process_tool_calls_confined (tc :: tcs)
                  (messages st ++ [AssistantMsg msg]) (count_request w) Hcwd) as Hf.
    by destruct (process_tool_calls _ _ _ _) as [[? ?]|[? ?]].
  - destruct (Py.contains "rate_limit_exceeded" error_str).
    + destruct (_ =? 0); apply confined_refl.
    + destruct (_ && _); apply confined_refl.
Qed.

Lemma run_loop_confined fuel st w r w' :
  posixpath.isabs (cwd w) = true →
  run_loop fuel o clients root st w = Some (r, w') →
  confined_to (effective_root root w) (fs w) (fs w').
Proof.
  revert st w. induction fuel as [|fuel IH]; intros st w Hcwd; simpl.
  - destruct (loop_guard st); [done|]. intros [= _ <-]. apply confined_refl.
  - destruct (loop_guard st); [|intros [= _ <-]; apply confined_refl].
    pose proof (iteration_confined st w Hcwd) as Hf.
    pose proof (iteration_frame o clients root st w) as Hfr.
    destruct (iteration o clients root st w) as [st1 w1|result w1|e w1].
    + destruct Hfr as [Hc _]. intros Hrun.
      assert (effective_root root w1 = effective_root root w) as Hr
        by (unfold effective_root; by rewrite Hc).
      apply IH in Hrun; [|by rewrite Hc]. rewrite Hr in Hrun.
      by eapply confined_trans.
    + by intros [= _ <-].
    + by intros [= _ <-].
Qed.

(** X4.  A run of [run_agent] always ends and, whatever tool calls the
    model issues, removes nothing: every directory is still a directory
    and every file still a file at the end; the working directory of the
    process is the same. *)
Theorem run_agent_removes_nothing system_prompt user_message agent_name w :
  posixpath.isabs (cwd w) = true →
  ∃ r w',
    run_agent o system_prompt user_message clients root agent_name w = Some (r, w')
    ∧ cwd w' = cwd w
    ∧ nothing_removed (fs w) (fs w').
Proof.
  intros Hcwd.
  destruct (run_loop_ends o clients root enough_turns
              (initial_state system_prompt user_message) (start w agent_name)
              (initial_within_budgets _ _))
    as (r & w' & _ & _ & _ & Hrun & _); [simpl; lia|].
  exists r, w'. split; [done|].
  pose proof (run_loop_frame o clients _ _ _ _ _ _ Hrun) as [Hc _].
  split; [done|].
  apply run_loop_confined in Hrun; [|done]. apply Hrun.
Qed.

End EngineMore.

Lemma run_agent_removes_nothing_witness :
  ∃ r w',
    GroqRunner.run_agent lazy_reviewer "system" "user" ["gsk_1"] "/srv/proj"
      "Project Manager" demo_world = Some (r, w')
    ∧ GroqRunner.cwd w' = GroqRunner.cwd demo_world
    ∧ nothing_removed (GroqRunner.fs demo_world) (GroqRunner.fs w').
Proof.
  exact (run_agent_removes_nothing lazy_reviewer ["gsk_1"] "/srv/proj"
           "system" "user" "Project Manager" demo_world eq_refl).
Defined.

Section Conversation.

Import GroqRunner.

Variable o : Oracle.
Variable clients : list string.
Variable root : string.

(** The tool loop appends one tool-result message per tool call, in the
    order of the calls, each under the identifier of its call. *)
Lemma process_tool_calls_answers tcs msgs w msgs' w' :
  process_tool_calls tcs root msgs w = inl (msgs', w') →
  ∃ results, msgs' = msgs ++ results
             ∧ answered_call <$> results = (λ tc, Some (tc_id tc)) <$> tcs.
Proof.
  revert msgs w. induction tcs as [|tc tcs IH]; intros msgs w; simpl.
  - intros [= <- <-]. exists []. by rewrite app_nil_r.
  - destruct (tc_arguments tc) as [fn_args|].
    + destruct (_execute_tool w (tc_name tc) fn_args root) as [[r w1]|e]; [|done].
      intros Hp. apply IH in Hp as (results & -> & Hids).
      exists (ToolMsg (tc_id tc) r :: results). split.
      * by rewrite <- app_assoc.
      * rewrite !fmap_cons. by rewrite Hids.
    + intros Hp. apply IH in Hp as (results & -> & Hids).
      exists (ToolMsg (tc_id tc) parse_error :: results). split.
      * by rewrite <- app_assoc.
      * rewrite !fmap_cons. by rewrite Hids.
Qed.

(** X6.  A turn answered by a response with tool calls appends the
    assistant message and then exactly one tool-result message per tool
    call, in the order of the calls and under their call identifiers. *)
Theorem every_tool_call_is_answered st w client msg st' w' :
  clients !! client_idx st = Some client →
  api o (requests w) client (messages st) = Response msg →
  iteration o clients root st w = Continue st' w' →
  tool_calls msg ≠ []
  ∧ ∃ results,
      messages st' = messages st ++ AssistantMsg msg :: results
      ∧ answered_call <$> results = (λ tc, Some (tc_id tc)) <$> tool_calls msg
      ∧ length results = length (tool_calls msg).
Proof.
  intros Hc Hout. unfold iteration. rewrite Hc, Hout.
  destruct (tool_calls msg) as [|tc tcs] eqn:Htcs; [done|].
  destruct (process_tool_calls _ _ _ _) as [[msgs w2]|[e w2]] eqn:Hp; [|done].
  intros [= <- <-]. split; [done|].
  apply process_tool_calls_answers in Hp as (results & -> & Hids).
  exists results. simpl. split; [by rewrite <- app_assoc|]. split; [done|].
  apply (f_equal length) in Hids. by rewrite !length_fmap in Hids.
Qed.

Lemma iteration_grows st w st' w' :
  iteration o clients root st w = Continue st' w' →
  messages st `prefix_of` messages st'.
Proof.
  unfold iteration.
  destruct (clients !! client_idx st) as [client|]; [|done].
  destruct (api o (requests w) client (messages st)) as [msg|error_str].
  - destruct (tool_calls msg) as [|tc tcs]; [done|].
    destruct (process_tool_calls _ _ _ _) as [[msgs w2]|[e w2]] eqn:Hp; [|done].
    intros [= <- <-]. simpl.
    apply process_tool_calls_answers in Hp as (results & -> & _).
    rewrite <- app_assoc. by eexists.
  - destruct (Py.contains "rate_limit_exceeded" error_str).
    + by intros [= <- <-].
    + destruct (_ && _); [|done]. intros [= <- <-]. simpl. by eexists.
Qed.

(** X5.  Along a run the conversation only grows: every later state's
    messages extend the earlier ones, so a run started by [run_agent] always
    has the system prompt and the user message as its first two messages. *)
Theorem conversation_only_grows st w outs st' w' :
  steps o clients root st w outs st' w' →
  messages st `prefix_of` messages st'
  ∧ ∀ system_prompt user_message,
      st = initial_state system_prompt user_message →
      ∃ more, messages st' = SystemMsg system_prompt :: UserMsg user_message :: more.
Proof.
  intros Hsteps.
  assert (messages st `prefix_of` messages st') as Hpre.
  { induction Hsteps as [st w|st w client st1 w1 outs st2 w2 _ _ Hit _ IH]; [done|].
    etrans; [|exact IH]. by eapply iteration_grows. }
  split; [done|]. intros system_prompt user_message ->.
  destruct Hpre as [more Hmore]. exists more. by rewrite Hmore.
Qed.

End Conversation.

Lemma every_tool_call_is_answered_witness :
  ∃ st' w' results,
    GroqRunner.iteration lazy_reviewer ["gsk_1"] "/srv/proj"
      (GroqRunner.initial_state "system" "user") demo_world = GroqRunner.Continue st' w'
    ∧ GroqRunner.messages st'
      = GroqRunner.messages (GroqRunner.initial_state "system" "user")
        ++ GroqRunner.AssistantMsg (write_call "call_0" "PRD.md") :: results
    ∧ answered_call <$> results = [Some "call_0"].
Proof.
  pose (r := GroqRunner.iteration lazy_reviewer ["gsk_1"] "/srv/proj"
               (GroqRunner.initial_state "system" "user") demo_world).
  assert (∃ st' w', r = GroqRunner.Continue st' w') as (st' & w' & Hit)
    by (vm_compute; by eexists _, _).
  destruct (every_tool_call_is_answered lazy_reviewer ["gsk_1"] "/srv/proj"
              (GroqRunner.initial_state "system" "user") demo_world "gsk_1"
              (write_call "call_0" "PRD.md") st' w' eq_refl eq_refl Hit)
    as (_ & results & Hm & Hids & _).
  by exists st', w', results.
Defined.

Lemma conversation_only_grows_witness :
  ∃ more,
    GroqRunner.messages (after_correction (GroqRunner.initial_state "system" "user"))
    = GroqRunner.SystemMsg "system" :: GroqRunner.UserMsg "user" :: more.
Proof.
  refine (proj2 (conversation_only_grows malformed ["gsk_1"] "/srv/proj"
                   (GroqRunner.initial_state "system" "user") demo_world
                   [GroqRunner.Failure "Error code: 400 - tool_use_failed"]
                   (after_correction (GroqRunner.initial_state "system" "user"))
                   (GroqRunner.count_request demo_world) _) "system" "user" eq_refl).
  eapply (steps_turn malformed ["gsk_1"] "/srv/proj" _ _ "gsk_1").
  - reflexivity.
  - reflexivity.
  - vm_compute. reflexivity.
  - constructor.
Defined.

Section RunBounds.

Import GroqRunner.

Variable o : Oracle.
Variable clients : list string.
Variable root : string.

(** What a turn that ends the run leaves of the process state. *)
Lemma iteration_last_turn st w :
  match iteration o clients root st w with
  | Continue _ _ => True
  | Return _ w' | Raise _ w' =>
      requests w' ≤ S (requests w) ∧ sleeps w' = sleeps w
  end.
Proof.
  unfold iteration.
  destruct (clients !! client_idx st) as [client|]; [|simpl; split; [lia|done]].
  destruct (api o (requests w) client (messages st)) as [msg|error_str].
  - destruct (tool_calls msg) as [|tc tcs]; [simpl; split; [lia|done]|].
    pose proof (process_tool_calls_frame root (tc :: tcs)
                  (messages st ++ [AssistantMsg msg]) (count_request w)) as Hf.
    destruct (process_tool_calls _ _ _ _) as [[? ?]|[? w2]]; [done|].
    destruct Hf as (_ & Hq & Hs & _). rewrite Hq, Hs. simpl. split; [lia|done].
  - destruct (Py.contains "rate_limit_exceeded" error_str); [done|].
    destruct (_ && _); [done|]. simpl. split; [lia|done].
Qed.

Lemma iteration_keeps_index st w st' w' :
  iteration o clients root st w = Continue st' w' →
  client_idx st' < length clients.
Proof.
  unfold iteration.
  destruct (clients !! client_idx st) as [client|] eqn:Hc; [|done].
  apply lookup_lt_Some in Hc.
  destruct (api o (requests w) client (messages st)) as [msg|error_str].
  - destruct (tool_calls msg) as [|tc tcs]; [done|].
    destruct (process_tool_calls _ _ _ _) as [[? ?]|[? ?]]; [|done].
    by intros [= <- _].
  - destruct (Py.contains "rate_limit_exceeded" error_str).
    + intros [= <- _]. simpl. apply Nat.mod_upper_bound. lia.
    + destruct (_ && _); [|done]. by intros [= <- _].
Qed.

Lemma steps_keep_index st w outs st' w' :
  steps o clients root st w outs st' w' →
  client_idx st < length clients → client_idx st' < length clients.
Proof.
  induction 1 as [st w|st w client st1 w1 outs st2 w2 _ _ Hit _ IH]; [done|].
  intros _. apply IH. by eapply iteration_keeps_index.
Qed.

Lemma steps_sleeps st w outs st' w' :
  steps o clients root st w outs st' w' →
  length (sleeps w') ≤ length (sleeps w) + count_where rate_limited outs.
Proof.
  induction 1 as [st w|st w client st1 w1 outs st2 w2 _ Hc Hit _ IH]; [lia|].
  apply iteration_continue in Hit as (client' & Hc' & Hit).
  rewrite Hc in Hc'. injection Hc' as <-. simpl in Hit.
  destruct Hit as (_ & _ & _ & _ & _ & _ & _ & Hsl).
  rewrite count_where_cons.
  destruct (rate_limited (api o (requests w) client (messages st))); simpl in Hsl.
  - destruct (_ =? 0).
    + destruct Hsl as (_ & _ & Hsl). rewrite Hsl, length_app in IH. simpl in IH. lia.
    + rewrite Hsl in IH. lia.
  - rewrite Hsl in IH. lia.
Qed.

(** X7.  The client index stays in the pool.  With a non-empty pool the
    lookup [clients[client_idx]] succeeds in every turn of a run: each
    turn that continues leaves an index below [len(clients)], and the run
    ends in a state whose index has a client.  With an empty pool the run
    raises [IndexError] at the first lookup, before any request. *)
Theorem client_index_stays_in_pool system_prompt user_message agent_name w :
  (clients ≠ [] →
   ∃ r w' outs st wl,
     run_agent o system_prompt user_message clients root agent_name w = Some (r, w')
     ∧ steps o clients root (initial_state system_prompt user_message)
         (start w agent_name) outs st wl
     ∧ ending o clients root st wl r w'
     ∧ is_Some (clients !! client_idx st))
  ∧ (∀ st w0 outs st' w',
       steps o clients root st w0 outs st' w' →
       client_idx st < length clients → client_idx st' < length clients)
  ∧ (clients = [] →
     run_agent o system_prompt user_message clients root agent_name w
     = Some (Raised IndexError, start w agent_name)).
Proof.
  split; [|split].
  - intros Hne.
    destruct (run_loop_ends o clients root enough_turns
                (initial_state system_prompt user_message) (start w agent_name)
                (initial_within_budgets _ _))
      as (r & w' & outs & st & wl & Hrun & Hsteps & _ & _ & Hend); [simpl; lia|].
    exists r, w', outs, st, wl. split; [done|]. split; [done|]. split; [done|].
    apply lookup_lt_is_Some_2.
    apply (steps_keep_index _ _ _ _ _ Hsteps). destruct clients; [done|simpl; lia].
  - apply steps_keep_index.
  - intros ->. reflexivity.
Qed.

(** X8.  A run sends at most 56 chat requests and sleeps at most 30
    times. *)
Theorem run_agent_request_bound system_prompt user_message agent_name w :
  ∃ r w',
    run_agent o system_prompt user_message clients root agent_name w = Some (r, w')
    ∧ requests w ≤ requests w' ≤ requests w + 56
    ∧ length (sleeps w') ≤ length (sleeps w) + 30.
Proof.
  destruct (run_loop_ends o clients root enough_turns
              (initial_state system_prompt user_message) (start w agent_name)
              (initial_within_budgets _ _))
    as (r & w' & outs & st & wl & Hrun & Hsteps & Hcount & Hb & Hend); [simpl; lia|].
  exists r, w'. split; [done|].
  pose proof (steps_counters _ _ _ _ _ _ _ _ Hsteps) as (_ & Hrl & _ & Hreq & _).
  pose proof (steps_sleeps _ _ _ _ _ Hsteps) as Hsl.
  change (counters (initial_state system_prompt user_message)) with 0 in Hcount.
  change (rate_limit_hits (initial_state system_prompt user_message)) with 0 in Hrl.
  change (requests (start w agent_name)) with (requests w) in Hreq.
  change (sleeps (start w agent_name)) with (sleeps w) in Hsl.
  destruct Hb as (Ht & Hr & Hf & Hone).
  unfold counters, max_tool_calls, max_rate_retries, max_tool_fail_retries in *.
  inversion Hend as [client msg Hg _ _ _| | |e w'' Hg Hit]; subst.
  - apply guard_true in Hg as [? ?].
    unfold max_tool_calls, max_rate_retries in *. simpl. lia.
  - lia.
  - lia.
  - apply guard_true in Hg as [? ?].
    pose proof (iteration_last_turn st wl) as Hlast.
    pose proof (iteration_frame o clients root st wl) as Hfr.
    rewrite Hit in Hlast, Hfr. destruct Hlast as [Hq Hs].
    assert (requests wl ≤ requests w') as Hmono.
    { revert Hit. unfold iteration.
      destruct (clients !! client_idx st); [|by intros [= _ <-]].
      destruct (api o (requests wl) _ (messages st)) as [msg|error_str].
      - destruct (tool_calls msg) as [|tc tcs]; [done|].
        pose proof (process_tool_calls_frame root (tc :: tcs)
                      (messages st ++ [AssistantMsg msg]) (count_request wl)) as Hf2.
        destruct (process_tool_calls _ _ _ _) as [[? ?]|[? w2]]; [done|].
        intros [= _ <-]. destruct Hf2 as (_ & -> & _). simpl. lia.
      - destruct (Py.contains "rate_limit_exceeded" error_str); [done|].
        destruct (_ && _); [done|]. intros [= _ <-]. simpl. lia. }
    unfold max_tool_calls, max_rate_retries in *. rewrite Hs. lia.
Qed.

End RunBounds.

Lemma client_index_stays_in_pool_witness :
  ∃ r w' outs st wl,
    GroqRunner.run_agent saturated "system" "user" ["gsk_1"; "gsk_2"] "/srv/proj"
      "Developer" demo_world = Some (r, w')
    ∧ steps saturated ["gsk_1"; "gsk_2"] "/srv/proj"
        (GroqRunner.initial_state "system" "user")
        (GroqRunner.start demo_world "Developer") outs st wl
    ∧ ending saturated ["gsk_1"; "gsk_2"] "/srv/proj" st wl r w'
    ∧ is_Some (["gsk_1"; "gsk_2"] !! GroqRunner.client_idx st).
Proof.
  apply (proj1 (client_index_stays_in_pool saturated ["gsk_1"; "gsk_2"] "/srv/proj"
                  "system" "user" "Developer" demo_world)).
  discriminate.
Defined.

Section WorkingCredential.

Import GroqRunner.

Variable o : Oracle.
Variable clients : list string.
Variable root : string.

(** The pool holds, at index [g], a credential the endpoint never
    rejects. *)
Variable g : nat.
Variable good : string.
Hypothesis good_in_pool : clients !! g = Some good.
Hypothesis good_answers : ∀ n msgs, responded (api o n good msgs) = true.

Lemma iteration_towards_good st w st' w' :
  client_idx st ≤ g →
  iteration o clients root st w = Continue st' w' →
  client_idx st ≤ client_idx st' ≤ g
  ∧ rate_limit_hits st' + client_idx st = rate_limit_hits st + client_idx st'
  ∧ sleeps w' = sleeps w.
Proof.
  intros Hle. unfold iteration.
  destruct (clients !! client_idx st) as [client|] eqn:Hc; [|done].
  pose proof (good_answers (requests w) (messages st)) as Hgood.
  destruct (api o (requests w) client (messages st)) as [msg|error_str] eqn:Hout.
  - destruct (tool_calls msg) as [|tc tcs]; [done|].
    pose proof (process_tool_calls_frame root (tc :: tcs)
                  (messages st ++ [AssistantMsg msg]) (count_request w)) as Hf.
    destruct (process_tool_calls _ _ _ _) as [[? w2]|[? ?]]; [|done].
    intros [= <- <-]. destruct Hf as (_ & _ & Hs & _). simpl. rewrite Hs.
    split; [lia|]. split; [lia|done].
  - assert (client_idx st < g) as Hlt.
    { destruct (decide (client_idx st = g)) as [Heq|]; [|lia].
      rewrite Heq, good_in_pool in Hc. injection Hc as <-.
      by rewrite Hout in Hgood. }
    pose proof (lookup_lt_Some _ _ _ good_in_pool) as Hg.
    destruct (Py.contains "rate_limit_exceeded" error_str).
    + rewrite Nat.mod_small by lia.
      replace (client_idx st + 1 =? 0) with false by (symmetry; apply Nat.eqb_neq; lia).
      intros [= <- <-]. simpl. split; [lia|]. split; [lia|done].
    + destruct (_ && _); [|done]. intros [= <- <-]. simpl.
      split; [lia|]. split; [lia|done].
Qed.

Lemma steps_towards_good st w outs st' w' :
  steps o clients root st w outs st' w' →
  client_idx st ≤ g →
  client_idx st ≤ client_idx st' ≤ g
  ∧ rate_limit_hits st' + client_idx st = rate_limit_hits st + client_idx st'
  ∧ sleeps w' = sleeps w.
Proof.
  induction 1 as [st w|st w client st1 w1 outs st2 w2 _ _ Hit _ IH]; intros Hle.
  - split; [lia|]. split; [lia|done].
  - destruct (iteration_towards_good _ _ _ _ Hle Hit) as (H1 & H2 & H3).
    destruct IH as (H4 & H5 & H6); [lia|].
    split; [lia|]. split; [lia|congruence].
Qed.

(** X9.  When the pool holds a credential that is never rejected, at
    index [g], a run rotates forward until it reaches a working credential
    and stays there: it is rate-limited at most [g] times (so for [g]
    below 30 the rate-limit budget is never used up), never wraps around
    and never sleeps. *)
Theorem run_settles_on_working_credential system_prompt user_message agent_name w :
  ∃ r w' outs st wl,
    run_agent o system_prompt user_message clients root agent_name w = Some (r, w')
    ∧ steps o clients root (initial_state system_prompt user_message)
        (start w agent_name) outs st wl
    ∧ ending o clients root st wl r w'
    ∧ count_where rate_limited outs = client_idx st
    ∧ client_idx st ≤ g
    ∧ rate_limit_hits st ≤ g
    ∧ sleeps w' = sleeps w.
Proof.
  destruct (run_loop_ends o clients root enough_turns
              (initial_state system_prompt user_message) (start w agent_name)
              (initial_within_budgets _ _))
    as (r & w' & outs & st & wl & Hrun & Hsteps & Hcount & Hb & Hend); [simpl; lia|].
  exists r, w', outs, st, wl. split; [done|]. split; [done|]. split; [done|].
  pose proof (steps_counters _ _ _ _ _ _ _ _ Hsteps) as (_ & Hrl & _).
  destruct (steps_towards_good _ _ _ _ _ Hsteps) as (Hidx & Hhits & Hsl);
    [simpl; lia|].
  simpl in Hrl, Hhits, Hsl.
  split; [lia|]. split; [lia|]. split; [lia|].
  inversion Hend as [client msg Hg _ _ _| | |e w'' Hg Hit]; subst; try done.
  pose proof (iteration_last_turn o clients root st wl) as Hlast.
  rewrite Hit in Hlast. destruct Hlast as [_ ->]. done.
Qed.

End WorkingCredential.

Lemma run_settles_on_working_credential_witness :
  ∃ r w' outs st wl,
    GroqRunner.run_agent second_key_works "system" "user" ["gsk_bad"; "gsk_good"]
      "/srv/proj" "Developer" demo_world = Some (r, w')
    ∧ steps second_key_works ["gsk_bad"; "gsk_good"] "/srv/proj"
        (GroqRunner.initial_state "system" "user")
        (GroqRunner.start demo_world "Developer") outs st wl
    ∧ ending second_key_works ["gsk_bad"; "gsk_good"] "/srv/proj" st wl r w'
    ∧ count_where rate_limited outs = GroqRunner.client_idx st
    ∧ GroqRunner.client_idx st ≤ 1
    ∧ GroqRunner.rate_limit_hits st ≤ 1
    ∧ GroqRunner.sleeps w' = GroqRunner.sleeps demo_world.
Proof.
  exact (run_settles_on_working_credential second_key_works ["gsk_bad"; "gsk_good"]
           "/srv/proj" 1 "gsk_good" eq_refl (λ _ _, eq_refl)
           "system" "user" "Developer" demo_world).
Defined.

(** ** More on the credential pool *)

Section PoolMore.

Import GroqRunner.

Lemma valid_credentials_length environ : length (valid_credentials environ) ≤ 5.
Proof.
  unfold valid_credentials. rewrite length_fmap.
  etrans; [apply length_filter|]. by rewrite length_fmap.
Qed.

(** X10.  The keys of a pool that [build_client_pool] returns: there are
    between one and five of them, and each is the trimmed value of one of
    the five variables [GROQ_API_KEY], [GROQ_API_KEY_2] ..
    [GROQ_API_KEY_5], is not empty and does not start with [your_].  (A
    client is identified with its key; the address of the endpoint, which
    [_make_client] reads from [OPENAI_API_BASE], is no part of it.) *)
Theorem pool_shape (environ : gmap string string) (pool : list string) :
  build_client_pool environ = inl pool →
  1 ≤ length pool ≤ 5
  ∧ ∀ key, key ∈ pool →
      key ≠ "" ∧ Py.startswith key "your_" = false
      ∧ ∃ slot, slot ∈ credential_slots ∧ key = Py.strip (getenv environ slot).
Proof.
  rewrite build_client_pool_filter.
  case_bool_decide as Hv; [done|]. intros [= <-].
  pose proof (valid_credentials_length environ) as Hlen. split.
  - split; [|done]. destruct (valid_credentials environ); [done|simpl; lia].
  - intros key Hkey. unfold valid_credentials in Hkey.
    apply list_elem_of_fmap in Hkey as (raw & -> & Hraw).
    apply list_elem_of_filter in Hraw as [[Hne Hph] Hraw].
    apply list_elem_of_fmap in Hraw as (slot & -> & Hslot).
    split; [done|]. split; [done|]. by exists slot.
Qed.

Lemma pool_shape_witness :
  1 ≤ length ["gsk_second"; "gsk_fourth"] ≤ 5
  ∧ ∀ key, key ∈ ["gsk_second"; "gsk_fourth"] →
      key ≠ "" ∧ Py.startswith key "your_" = false
      ∧ ∃ slot, slot ∈ credential_slots ∧ key = Py.strip (getenv demo_environ slot).
Proof.
  apply (pool_shape demo_environ ["gsk_second"; "gsk_fourth"]).
  vm_compute. reflexivity.
Defined.

End PoolMore.

(** ** Whole runs of the pipeline *)

Section PipelineMore.

Import GroqRunner.

Variable o : Oracle.
Variable clients : list string.

Lemma makedirs_confined (r cwd0 : string) (fs fs' : OS.FS) (p : string) :
  OS.makedirs cwd0 fs p = inl fs' →
  confined_to r fs fs'
  ∧ OS.node_at fs' (OS.resolve cwd0 p) = Some OS.Dir
  ∧ (∀ k, fs !! k = Some OS.Dir → fs' !! k = Some OS.Dir).
Proof.
  unfold OS.makedirs, OS.makedirs_key. intros Hmk.
  apply makedirs_from_effect in Hmk as (H1 & _ & H3).
  split; [split|split].
  - intros k n Hk _. by apply H1.
  - intros k n Hk. apply H1 in Hk. rewrite Hk. destruct n; eauto.
  - by apply H3.
  - intros k Hk. by apply H1.
Qed.

Lemma node_at_kept (fs fs' : OS.FS) (k : list string) :
  nothing_removed fs fs' → is_Some (OS.node_at fs k) → is_Some (OS.node_at fs' k).
Proof.
  intros Hkeep. unfold OS.node_at. case_bool_decide; [done|].
  intros [n Hn]. specialize (Hkeep k n Hn). destruct n as [text|].
  - destruct Hkeep as [text' ->]. by eexists.
  - rewrite Hkeep. by eexists.
Qed.

Lemma directory_kept (fs fs' : OS.FS) (k : list string) :
  nothing_removed fs fs' → OS.node_at fs k = Some OS.Dir →
  OS.node_at fs' k = Some OS.Dir.
Proof.
  intros Hkeep. unfold OS.node_at. case_bool_decide; [done|].
  intros Hn. apply (Hkeep k OS.Dir Hn).
Qed.

(** The setup of [run]. *)
Lemma make_subdirs_effect (r project_dir : string) subdirs w w0 :
  Orchestrator.make_subdirs project_dir subdirs w = inl w0 →
  same_process w w0
  ∧ confined_to r (fs w) (fs w0)
  ∧ Forall (λ name, is_directory project_dir name w0) subdirs.
Proof.
  revert w. induction subdirs as [|d subdirs IH]; intros w; simpl.
  - intros [= <-]. split; [apply same_process_refl|].
    split; [apply confined_refl|done].
  - destruct (OS.makedirs _ _ _) as [fs'|e] eqn:Hmk; [|done].
    intros Hrest. apply (makedirs_confined r) in Hmk as (Hc & Hd & _).
    destruct (IH _ Hrest) as (Hsame & Hc2 & Hall). simpl in Hsame, Hc2.
    split; [exact Hsame|]. split; [by eapply confined_trans|].
    constructor; [|done]. unfold is_directory.
    destruct Hsame as (Hcwd & _). simpl in Hcwd. rewrite Hcwd.
    eapply directory_kept; [apply Hc2|done].
Qed.

(** One phase run: it ends, starts its own conversation and works under
    the project directory. *)
Lemma call_effect project_dir agent_name prompt message w :
  posixpath.isabs (cwd w) = true →
  ∃ r w',
    Orchestrator.call o clients project_dir agent_name prompt message w = Some (r, w')
    ∧ cwd w' = cwd w
    ∧ started w' = started w ++ [agent_name]
    ∧ confined_to (effective_root project_dir w) (fs w) (fs w').
Proof.
  intros Hcwd. unfold Orchestrator.call, run_agent.
  destruct (run_loop_ends o clients project_dir enough_turns
              (initial_state prompt message) (start w agent_name)
              (initial_within_budgets _ _))
    as (r & w' & _ & _ & _ & Hrun & _); [simpl; lia|].
  exists r, w'. split; [done|].
  pose proof (run_loop_frame o clients _ _ _ _ _ _ Hrun) as [Hc Hs].
  split; [done|]. split; [done|].
  by apply run_loop_confined in Hrun.
Qed.

Lemma artifact_kept project_dir name w w' :
  cwd w' = cwd w → nothing_removed (fs w) (fs w') →
  artifact_present project_dir name w = true →
  artifact_present project_dir name w' = true.
Proof.
  intros Hc Hkeep. unfold artifact_present, OS.path_exists.
  rewrite !bool_decide_eq_true, Hc. by apply node_at_kept.
Qed.

Lemma progress_step project_dir n agent_name w wk wk' :
  phase_labels !! n = Some agent_name →
  progress project_dir n w wk →
  cwd wk' = cwd wk →
  started wk' = started wk ++ [agent_name] →
  confined_to (effective_root project_dir wk) (fs wk) (fs wk') →
  progress project_dir (S n) w wk'.
Proof.
  intros Hl (Hc & Hs & Hf) Hc' Hs' Hf'. split; [congruence|]. split.
  - rewrite Hs', Hs, <- app_assoc. f_equal. symmetry. by apply take_S_r.
  - eapply confined_trans; [exact Hf|].
    unfold effective_root in *. by rewrite <- Hc.
Qed.

Lemma make_subdirs_fails (r project_dir : string) subdirs w e w0 :
  Orchestrator.make_subdirs project_dir subdirs w = inr (e, w0) →
  same_process w w0 ∧ confined_to r (fs w) (fs w0).
Proof.
  revert w. induction subdirs as [|d subdirs IH]; intros w; simpl; [done|].
  destruct (OS.makedirs _ _ _) as [fs'|e1] eqn:Hmk.
  - intros Hrest. apply (makedirs_confined r) in Hmk as (Hc & _).
    destruct (IH _ Hrest) as (Hsame & Hc2). simpl in Hsame, Hc2.
    split; [exact Hsame|by eapply confined_trans].
  - intros [= _ <-]. split; [apply same_process_refl|apply confined_refl].
Qed.

Lemma raised_outcome project_dir w e w' n :
  n ≤ 6 → progress project_dir n w w' → run_outcome project_dir w (Raised e) w' n.
Proof. intros Hn Hp. split; [done|]. split; [done|]. by intros text. Qed.

(** A phase followed by the rest of the pipeline. *)
Lemma phase_then project_dir n agent_name prompt message w wk
    (k : World → option (outcome * World)) :
  posixpath.isabs (cwd wk) = true →
  phase_labels !! n = Some agent_name →
  progress project_dir n w wk →
  (∀ wk', progress project_dir (S n) w wk' → cwd wk' = cwd wk →
          nothing_removed (fs wk) (fs wk') →
          ∃ r w' m, k wk' = Some (r, w') ∧ run_outcome project_dir w r w' m) →
  ∃ r w' m,
    Orchestrator.and_then
      (Orchestrator.call o clients project_dir agent_name prompt message wk) k
    = Some (r, w')
    ∧ run_outcome project_dir w r w' m.
Proof.
  intros Hcwd Hl Hp Hk.
  destruct (call_effect project_dir agent_name prompt message wk Hcwd)
    as (r1 & w1 & H1 & Hc1 & Hs1 & Hf1).
  pose proof (progress_step _ _ _ _ _ _ Hl Hp Hc1 Hs1 Hf1) as Hp1.
  rewrite H1. destruct r1 as [text|e]; simpl.
  - apply Hk; [done|done|apply Hf1].
  - exists (Raised e), w1, (S n). split; [done|].
    apply raised_outcome; [|done]. apply lookup_lt_Some in Hl. simpl in Hl. lia.
Qed.

(** The gate after a phase. *)
Lemma verify_then project_dir name msg n w wk
    (k : World → option (outcome * World)) :
  n ≤ 6 → progress project_dir n w wk →
  (artifact_present project_dir name wk = true →
   ∃ r w' m, k wk = Some (r, w') ∧ run_outcome project_dir w r w' m) →
  ∃ r w' m,
    Orchestrator.verify_created project_dir name msg wk k = Some (r, w')
    ∧ run_outcome project_dir w r w' m.
Proof.
  intros Hn Hp Hk. unfold Orchestrator.verify_created.
  change (OS.path_exists (cwd wk) (fs wk) (posixpath.join project_dir name))
    with (artifact_present project_dir name wk).
  destruct (artifact_present project_dir name wk); simpl.
  - by apply Hk.
  - exists (Raised (RuntimeError msg)), wk, n. split; [done|]. by apply raised_outcome.
Qed.

Lemma directories_kept project_dir names w w' :
  cwd w' = cwd w → nothing_removed (fs w) (fs w') →
  Forall (λ name, is_directory project_dir name w) names →
  Forall (λ name, is_directory project_dir name w') names.
Proof.
  intros Hc Hkeep Hall. eapply Forall_impl; [exact Hall|].
  intros name. unfold is_directory. rewrite Hc. by apply directory_kept.
Qed.

(** The shape of every pipeline run. *)
Lemma run_shape user_requirement project_dir w :
  posixpath.isabs (cwd w) = true →
  ∃ r w' n,
    Orchestrator.run o clients user_requirement project_dir w = Some (r, w')
    ∧ run_outcome project_dir w r w' n.
Proof.
  intros Hcwd. unfold Orchestrator.run.
  destruct (Orchestrator.make_subdirs project_dir FileSystem.PROJECT_SUBDIRS w)
    as [w0|[e w0]] eqn:Hsub.
  2:{ apply (make_subdirs_fails (effective_root project_dir w)) in Hsub
        as ((Hc & _ & _ & Hs) & Hf).
      exists (Raised e), w0, 0. split; [done|]. apply raised_outcome; [lia|].
      split; [done|]. split; [by rewrite Hs, app_nil_r|done]. }
  apply (make_subdirs_effect (effective_root project_dir w)) in Hsub
    as ((Hc0 & _ & _ & Hs0) & Hf0 & Hdirs0).
  assert (progress project_dir 0 w w0) as P0.
  { split; [done|]. split; [by rewrite Hs0, app_nil_r|done]. }
  assert (posixpath.isabs (cwd w0) = true) as Hcwd0 by by rewrite Hc0.
  eapply (phase_then project_dir 0); [done|reflexivity|done|]. intros w1 P1 Hc1 K1.
  assert (posixpath.isabs (cwd w1) = true) as Hcwd1 by by rewrite Hc1.
  pose proof (directories_kept _ _ _ _ Hc1 K1 Hdirs0) as Hdirs1.
  eapply (verify_then project_dir _ _ 1); [lia|done|]. intros A1.
  eapply (phase_then project_dir 1); [done|reflexivity|done|]. intros w2 P2 Hc2 K2.
  assert (posixpath.isabs (cwd w2) = true) as Hcwd2 by by rewrite Hc2.
  pose proof (directories_kept _ _ _ _ Hc2 K2 Hdirs1) as Hdirs2.
  pose proof (artifact_kept _ _ _ _ Hc2 K2 A1) as A12.
  eapply (verify_then project_dir _ _ 2); [lia|done|]. intros A2.
  eapply (phase_then project_dir 2); [done|reflexivity|done|]. intros w3 P3 Hc3 K3.
  assert (posixpath.isabs (cwd w3) = true) as Hcwd3 by by rewrite Hc3.
  pose proof (directories_kept _ _ _ _ Hc3 K3 Hdirs2) as Hdirs3.
  pose proof (artifact_kept _ _ _ _ Hc3 K3 A12) as A13.
  pose proof (artifact_kept _ _ _ _ Hc3 K3 A2) as A23.
  eapply (verify_then project_dir _ _ 3); [lia|done|]. intros A3.
  eapply (phase_then project_dir 3); [done|reflexivity|done|]. intros w4 P4 Hc4 K4.
  assert (posixpath.isabs (cwd w4) = true) as Hcwd4 by by rewrite Hc4.
  pose proof (directories_kept _ _ _ _ Hc4 K4 Hdirs3) as Hdirs4.
  pose proof (artifact_kept _ _ _ _ Hc4 K4 A13) as A14.
  pose proof (artifact_kept _ _ _ _ Hc4 K4 A23) as A24.
  pose proof (artifact_kept _ _ _ _ Hc4 K4 A3) as A34.
  eapply (phase_then project_dir 4); [done|reflexivity|done|]. intros w5 P5 Hc5 K5.
  assert (posixpath.isabs (cwd w5) = true) as Hcwd5 by by rewrite Hc5.
  pose proof (directories_kept _ _ _ _ Hc5 K5 Hdirs4) as Hdirs5.
  pose proof (artifact_kept _ _ _ _ Hc5 K5 A14) as A15.
  pose proof (artifact_kept _ _ _ _ Hc5 K5 A24) as A25.
  pose proof (artifact_kept _ _ _ _ Hc5 K5 A34) as A35.
  eapply (phase_then project_dir 5); [done|reflexivity|done|]. intros w6 P6 Hc6 K6.
  pose proof (directories_kept _ _ _ _ Hc6 K6 Hdirs5) as Hdirs6.
  pose proof (artifact_kept _ _ _ _ Hc6 K6 A15) as A16.
  pose proof (artifact_kept _ _ _ _ Hc6 K6 A25) as A26.
  pose proof (artifact_kept _ _ _ _ Hc6 K6 A35) as A36.
  eexists _, w6, 6. split; [done|]. split; [lia|]. split; [done|].
  intros text [= <-]. done.
Qed.

(** X11.  Every pipeline run ends.  The conversations it started are
    those of the first [n] phases, in the fixed order, each once; and when
    it returns a text, this is the completion message, all six phases were
    started, [PRD.md], [ARCHITECTURE.md] and [TASK_LIST.json] exist at the
    end and the four standard subdirectories are directories. *)
Theorem pipeline_runs_in_order user_requirement project_dir w :
  posixpath.isabs (cwd w) = true →
  ∃ r w' n,
    Orchestrator.run o clients user_requirement project_dir w = Some (r, w')
    ∧ n ≤ 6
    ∧ started w' = started w ++ take n phase_labels
    ∧ ∀ text, r = Returned text →
        n = 6
        ∧ text = "NeoForge AI pipeline completed. Output in: " +:+ project_dir
        ∧ artifact_present project_dir "PRD.md" w' = true
        ∧ artifact_present project_dir "ARCHITECTURE.md" w' = true
        ∧ artifact_present project_dir "TASK_LIST.json" w' = true
        ∧ Forall (λ name, is_directory project_dir name w') FileSystem.PROJECT_SUBDIRS.
Proof.
  intros Hcwd.
  destruct (run_shape user_requirement project_dir w Hcwd)
    as (r & w' & n & Hrun & Hn & (_ & Hs & _) & Hret).
  by exists r, w', n.
Qed.

(** X12.  Every pipeline run ends and, whatever the models ask for,
    removes nothing: every directory is still a directory and every file
    still a file at the end; the working directory of the process is the
    same. *)
Theorem pipeline_removes_nothing user_requirement project_dir w :
  posixpath.isabs (cwd w) = true →
  ∃ r w',
    Orchestrator.run o clients user_requirement project_dir w = Some (r, w')
    ∧ cwd w' = cwd w
    ∧ nothing_removed (fs w) (fs w').
Proof.
  intros Hcwd.
  destruct (run_shape user_requirement project_dir w Hcwd)
    as (r & w' & n & Hrun & _ & (Hc & _ & Hu & Hk) & _).
  by exists r, w'.
Qed.

(** X13.  The setup of [run]: when the four [os.makedirs] calls succeed,
    [src], [tests], [frontend] and [logs] are directories under the project
    directory and nothing else of the process state has changed; when one
    of them fails, [run] ends with that [OSError] before any request is
    sent or any conversation is started. *)
Theorem setup_creates_the_subdirectories user_requirement project_dir w :
  (∀ w0, Orchestrator.make_subdirs project_dir FileSystem.PROJECT_SUBDIRS w = inl w0 →
     same_process w w0
     ∧ nothing_removed (fs w) (fs w0)
     ∧ is_directory project_dir "src" w0 ∧ is_directory project_dir "tests" w0
     ∧ is_directory project_dir "frontend" w0 ∧ is_directory project_dir "logs" w0)
  ∧ (∀ e w0, Orchestrator.make_subdirs project_dir FileSystem.PROJECT_SUBDIRS w
             = inr (e, w0) →
       Orchestrator.run o clients user_requirement project_dir w = Some (Raised e, w0)
       ∧ same_process w w0
       ∧ ∃ os_error, e = OSError os_error).
Proof.
  split.
  - intros w0 Hsub.
    apply (make_subdirs_effect project_dir) in Hsub as (Hsame & [_ Hk] & Hdirs).
    split; [done|]. split; [done|].
    unfold FileSystem.PROJECT_SUBDIRS in Hdirs.
    inversion_clear Hdirs as [|? ? H1 Hd1]. inversion_clear Hd1 as [|? ? H2 Hd2].
    inversion_clear Hd2 as [|? ? H3 Hd3]. inversion_clear Hd3 as [|? ? H4 _].
    done.
  - intros e w0 Hsub. unfold Orchestrator.run. rewrite Hsub. split; [done|].
    split; [by apply (make_subdirs_fails project_dir) in Hsub as [? _]|].
    revert Hsub. generalize FileSystem.PROJECT_SUBDIRS as subdirs. intros subdirs.
    revert w. induction subdirs as [|d subdirs IH]; intros w; simpl; [done|].
    destruct (OS.makedirs _ _ _) as [fs'|e1]; [apply IH|].
    intros [= <- _]. by eexists.
Qed.

End PipelineMore.

Lemma pipeline_runs_in_order_witness :
  ∃ r w' n,
    Orchestrator.run lazy_reviewer ["gsk_1"] "build a counter CLI" "/srv/proj" demo_world
    = Some (r, w')
    ∧ n ≤ 6
    ∧ GroqRunner.started w' = GroqRunner.started demo_world ++ take n phase_labels
    ∧ ∀ text, r = GroqRunner.Returned text →
        n = 6
        ∧ text = "NeoForge AI pipeline completed. Output in: " +:+ "/srv/proj"
        ∧ artifact_present "/srv/proj" "PRD.md" w' = true
        ∧ artifact_present "/srv/proj" "ARCHITECTURE.md" w' = true
        ∧ artifact_present "/srv/proj" "TASK_LIST.json" w' = true
        ∧ Forall (λ name, is_directory "/srv/proj" name w') FileSystem.PROJECT_SUBDIRS.
Proof.
  exact (pipeline_runs_in_order lazy_reviewer ["gsk_1"] "build a counter CLI"
           "/srv/proj" demo_world eq_refl).
Defined.

Lemma pipeline_removes_nothing_witness :
  ∃ r w',
    Orchestrator.run lazy_reviewer ["gsk_1"] "build a counter CLI" "/srv/proj" demo_world
    = Some (r, w')
    ∧ GroqRunner.cwd w' = GroqRunner.cwd demo_world
    ∧ nothing_removed (GroqRunner.fs demo_world) (GroqRunner.fs w').
Proof.
  exact (pipeline_removes_nothing lazy_reviewer ["gsk_1"] "build a counter CLI"
           "/srv/proj" demo_world eq_refl).
Defined.

Lemma setup_creates_the_subdirectories_witness :
  is_directory "/srv/proj" "src" demo_prepared
  ∧ is_directory "/srv/proj" "logs" demo_prepared.
Proof.
  destruct (proj1 (setup_creates_the_subdirectories idle ["gsk_1"] "build a counter CLI"
                     "/srv/proj" demo_world) demo_prepared)
    as (_ & _ & Hsrc & _ & _ & Hlogs).
  - vm_compute. reflexivity.
  - by split.
Defined.

(** ** The directory name of a project *)

Section SlugFacts.

Import Slug.

Ltac each_char c := destruct c as [[] [] [] [] [] [] [] []].

Lemma word_char_is_harmless c :
  is_word c = true →
  c ≠ "/"%char ∧ c ≠ "."%char ∧ c ≠ "-"%char ∧ Py.isspace c = false.
Proof. each_char c; vm_compute; intros H; try discriminate H; by repeat split. Qed.

Lemma lower_char_idempotent c : lower_char (lower_char c) = lower_char c.
Proof. each_char c; reflexivity. Qed.

Lemma lower_char_alnum c : is_alnum (lower_char c) = is_alnum c.
Proof. each_char c; reflexivity. Qed.

Lemma space_not_alnum c : Py.isspace c = true → is_alnum c = false.
Proof. each_char c; vm_compute; intros H; try discriminate H; done. Qed.

Lemma hyphen_not_alnum c : is_space_or_hyphen c = true → is_alnum c = false.
Proof. each_char c; vm_compute; intros H; try discriminate H; done. Qed.

Lemma alnum_is_word c : is_alnum c = true → is_word c = true ∧ c ≠ "_"%char.
Proof. each_char c; vm_compute; intros H; try discriminate H; by split. Qed.

Lemma word_not_alnum c : is_word c = true → is_alnum c = false → c = "_"%char.
Proof. each_char c; vm_compute; intros H1 H2; try discriminate H1; try discriminate H2; done. Qed.

(** *** Characters through the steps of [slugify] *)

Lemma all_chars_impl (P Q : ascii → Prop) s :
  (∀ c, P c → Q c) → all_chars P s → all_chars Q s.
Proof. intros HPQ. induction s as [|c s IH]; simpl; [done|]. intros [? ?]. auto. Qed.

Lemma lower_all s : all_chars (λ c, lower_char c = c) (lower s).
Proof.
  induction s as [|c s IH]; simpl; [done|]. split; [apply lower_char_idempotent|done].
Qed.

Lemma keep_all (P : ascii → Prop) p s :
  all_chars P s → all_chars (λ c, p c = true ∧ P c) (keep p s).
Proof.
  induction s as [|c s IH]; simpl; [done|]. intros [Hc Hs].
  destruct (p c) eqn:Hp; simpl; auto.
Qed.

Lemma sub_runs_all (P0 P : ascii → Prop) p rep b s :
  P rep → (∀ c, P0 c → p c = false → P c) →
  all_chars P0 s → all_chars P (sub_runs p rep b s).
Proof.
  intros Hrep Hkeep. revert b. induction s as [|c s IH]; intros b; simpl; [done|].
  intros [Hc Hs]. destruct (p c) eqn:Hp.
  - destruct b; simpl; auto.
  - simpl. auto.
Qed.

Lemma lstrip_char_all (P : ascii → Prop) ch s :
  all_chars P s → all_chars P (lstrip_char ch s).
Proof.
  induction s as [|c s IH]; simpl; [done|]. intros [Hc Hs].
  destruct (Ascii.eqb c ch); simpl; auto.
Qed.

Lemma rstrip_char_all (P : ascii → Prop) ch s :
  all_chars P s → all_chars P (rstrip_char ch s).
Proof.
  induction s as [|c s IH]; simpl; [done|]. intros [Hc Hs].
  specialize (IH Hs). destruct (rstrip_char ch s) as [|c' r].
  - destruct (Ascii.eqb c ch); simpl; auto.
  - simpl in *. auto.
Qed.

Lemma take_str_all (P : ascii → Prop) n s :
  all_chars P s → all_chars P (take_str n s).
Proof.
  revert s. induction n as [|n IH]; intros [|c s]; simpl; try done.
  intros [? ?]. auto.
Qed.

Lemma take_str_length n s : String.length (take_str n s) ≤ n.
Proof.
  revert s. induction n as [|n IH]; intros [|c s]; simpl; try lia.
  specialize (IH s). lia.
Qed.

Lemma before_cut_chars text :
  all_chars (λ c, is_word c = true ∧ lower_char c = c) (before_cut text).
Proof.
  unfold before_cut, strip_char.
  apply rstrip_char_all, lstrip_char_all.
  eapply (sub_runs_all (λ c, is_word c = true ∧ lower_char c = c));
    [by split|by intros c ? _|].
  eapply (sub_runs_all
            (λ c, (is_word c || is_space_or_hyphen c = true) ∧ lower_char c = c));
    [by split| |].
  - intros c [Hw Hl] Hp. rewrite Hp, orb_false_r in Hw. by split.
  - apply (keep_all (λ c, lower_char c = c)). apply lower_all.
Qed.

Lemma slug_alphabet_chars (text : string) :
  all_chars (λ c, is_word c = true ∧ c ≠ "/"%char) (slugify text).
Proof.
  change (slugify text) with (take_str 80 (before_cut text)).
  apply take_str_all. eapply all_chars_impl; [|apply before_cut_chars].
  intros c [Hw _]. split; [done|]. by apply word_char_is_harmless.
Qed.

(** X15.  A slug has at most 80 characters; each of them is a letter, a
    digit or an underscore and is its own lower case; so a slug holds no
    slash, no dot, no hyphen and no white space. *)
Theorem slug_alphabet (text : string) :
  String.length (slugify text) ≤ 80
  ∧ all_chars (λ c, is_word c = true ∧ lower_char c = c
                    ∧ c ≠ "/"%char ∧ c ≠ "."%char ∧ c ≠ "-"%char
                    ∧ Py.isspace c = false)
      (slugify text).
Proof.
  split; [apply take_str_length|].
  change (slugify text) with (take_str 80 (before_cut text)).
  apply take_str_all. eapply all_chars_impl; [|apply before_cut_chars].
  intros c [Hw Hl]. split; [done|]. split; [done|]. by apply word_char_is_harmless.
Qed.

End SlugFacts.

Section SlugShape.

Import Slug.

Ltac each_char c := destruct c as [[] [] [] [] [] [] [] []].

(** *** Underscores *)

Lemma collapse_underscores b s :
  no_double_underscore (sub_runs (λ c, Ascii.eqb c "_") "_" b s)
  ∧ (b = true → Py.startswith (sub_runs (λ c, Ascii.eqb c "_") "_" b s) "_" = false).
Proof.
  revert b. induction s as [|c s IH]; intros b; [done|].
  cbn [sub_runs]. destruct (Ascii.eqb_spec c "_") as [->|Hne].
  - destruct b.
    + apply IH.
    + destruct (IH true) as [Hnd Hst]. specialize (Hst eq_refl). split; [|done].
      destruct (sub_runs _ "_" true s) as [|a r] eqn:Hr; [done|].
      split; [|done]. intros [_ ->]. by rewrite startswith_char in Hst.
  - destruct (IH false) as [Hnd _]. split.
    + destruct (sub_runs _ "_" false s) as [|a r]; [done|].
      split; [|done]. by intros [? _].
    + intros _. rewrite startswith_char. by destruct (Ascii.eqb_spec "_" c) as [<-|].
Qed.

Lemma no_double_tail a s : no_double_underscore (String a s) → no_double_underscore s.
Proof. destruct s; [done|]. by intros [_ ?]. Qed.

Lemma lstrip_char_no_double ch s :
  no_double_underscore s → no_double_underscore (lstrip_char ch s).
Proof.
  induction s as [|c s IH]; [done|]. intros Hnd. cbn [lstrip_char].
  destruct (Ascii.eqb c ch); [|done]. apply IH. by eapply no_double_tail.
Qed.

Lemma rstrip_char_head ch s b r :
  rstrip_char ch s = String b r → ∃ rest, s = String b rest.
Proof.
  destruct s as [|c s]; [done|]. cbn [rstrip_char].
  destruct (rstrip_char ch s) as [|c' r'].
  - destruct (Ascii.eqb c ch); [done|]. intros [= <- _]. by eexists.
  - intros [= <- _]. by eexists.
Qed.

Lemma rstrip_char_no_double ch s :
  no_double_underscore s → no_double_underscore (rstrip_char ch s).
Proof.
  induction s as [|c s IH]; [done|]. intros Hnd. cbn [rstrip_char].
  pose proof (IH (no_double_tail _ _ Hnd)) as IH'.
  destruct (rstrip_char ch s) as [|b r] eqn:Hr.
  - by destruct (Ascii.eqb c ch).
  - apply rstrip_char_head in Hr as [rest ->]. split; [|done]. by destruct Hnd.
Qed.

Lemma take_str_no_double n s :
  no_double_underscore s → no_double_underscore (take_str n s).
Proof.
  revert s. induction n as [|n IH]; intros [|c s]; try done. intros Hnd.
  cbn [take_str]. pose proof (IH s (no_double_tail _ _ Hnd)) as IH'.
  destruct n as [|n]; [done|]. destruct s as [|b s]; [done|].
  cbn [take_str] in *. split; [|done]. by destruct Hnd.
Qed.

(** What is left of stripping [ch] does not start with [ch]. *)
Lemma strip_char_head ch s : Py.startswith (strip_char ch s) (String ch "") = false.
Proof.
  unfold strip_char.
  assert (Py.startswith (lstrip_char ch s) (String ch "") = false) as Hl.
  { induction s as [|c s IH]; [done|]. cbn [lstrip_char].
    destruct (Ascii.eqb_spec c ch) as [->|Hne]; [done|].
    rewrite startswith_char. by destruct (Ascii.eqb_spec ch c) as [<-|]. }
  destruct (rstrip_char ch (lstrip_char ch s)) as [|b r] eqn:Hr; [done|].
  apply rstrip_char_head in Hr as [rest Hrest]. rewrite Hrest in Hl.
  by rewrite startswith_char in *.
Qed.

Lemma take_str_head n s ch :
  Py.startswith s (String ch "") = false →
  Py.startswith (take_str n s) (String ch "") = false.
Proof. destruct n, s; try done; cbn [take_str]; by rewrite !startswith_char. Qed.

(** X16.  A slug never starts with an underscore and never holds two
    underscores in a row. *)
Theorem slug_underscores (text : string) :
  Py.startswith (slugify text) "_" = false
  ∧ no_double_underscore (slugify text).
Proof.
  change (slugify text) with (take_str 80 (before_cut text)). split.
  - apply take_str_head. apply strip_char_head.
  - apply take_str_no_double. unfold before_cut, strip_char.
    apply rstrip_char_no_double, lstrip_char_no_double.
    apply collapse_underscores.
Qed.

(** *** Letters and digits *)

Lemma lstrip_some s : some_char is_alnum (Py.lstrip s) = some_char is_alnum s.
Proof.
  induction s as [|c s IH]; [done|]. cbn [Py.lstrip].
  destruct (Py.isspace c) eqn:Hsp; [|done].
  cbn [some_char]. by rewrite (space_not_alnum c Hsp), IH.
Qed.

Lemma rstrip_some s : some_char is_alnum (Py.rstrip s) = some_char is_alnum s.
Proof.
  induction s as [|c s IH]; [done|]. cbn [Py.rstrip some_char]. rewrite <- IH.
  destruct (Py.rstrip s) as [|b r]; [|done].
  destruct (Py.isspace c) eqn:Hsp; [|done].
  cbn [some_char]. by rewrite (space_not_alnum c Hsp).
Qed.

Lemma lower_some s : some_char is_alnum (lower s) = some_char is_alnum s.
Proof.
  induction s as [|c s IH]; [done|]. cbn [lower some_char].
  by rewrite lower_char_alnum, IH.
Qed.

Lemma keep_some p s :
  (∀ c, p c = false → is_alnum c = false) →
  some_char is_alnum (keep p s) = some_char is_alnum s.
Proof.
  intros Hp. induction s as [|c s IH]; [done|]. cbn [keep some_char].
  destruct (p c) eqn:Hc; cbn [some_char]; rewrite IH; [done|]. by rewrite (Hp c Hc).
Qed.

Lemma sub_runs_some p b s :
  (∀ c, p c = true → is_alnum c = false) →
  some_char is_alnum (sub_runs p "_" b s) = some_char is_alnum s.
Proof.
  intros Hp. revert b. induction s as [|c s IH]; intros b; [done|].
  cbn [sub_runs some_char]. destruct (p c) eqn:Hc.
  - rewrite (Hp c Hc). destruct b; cbn [some_char]; by rewrite IH.
  - cbn [some_char]. by rewrite IH.
Qed.

Lemma lstrip_char_some s :
  some_char is_alnum (lstrip_char "_" s) = some_char is_alnum s.
Proof.
  induction s as [|c s IH]; [done|]. cbn [lstrip_char].
  destruct (Ascii.eqb_spec c "_") as [->|]; [|done]. by rewrite IH.
Qed.

Lemma rstrip_char_some s :
  some_char is_alnum (rstrip_char "_" s) = some_char is_alnum s.
Proof.
  induction s as [|c s IH]; [done|]. cbn [rstrip_char some_char]. rewrite <- IH.
  destruct (rstrip_char "_" s) as [|b r]; [|done].
  destruct (Ascii.eqb_spec c "_") as [->|]; [done|].
  cbn [some_char]. by rewrite orb_false_r.
Qed.

Lemma before_cut_some text :
  some_char is_alnum (before_cut text) = some_char is_alnum text.
Proof.
  unfold before_cut, strip_char, Py.strip.
  rewrite rstrip_char_some, lstrip_char_some.
  rewrite sub_runs_some
    by (intros c Hc; apply Ascii.eqb_eq in Hc; by subst).
  rewrite sub_runs_some by apply hyphen_not_alnum.
  rewrite keep_some.
  - by rewrite lower_some, rstrip_some, lstrip_some.
  - intros c Hc. apply orb_false_iff in Hc as [Hw _].
    unfold is_alnum. by rewrite Hw.
Qed.

Lemma take_str_empty n s : take_str (S n) s = "" ↔ s = "".
Proof. by destruct s. Qed.

(** X17.  The slug is empty exactly when the requirement holds no letter
    and no digit: a requirement made of punctuation, underscores, hyphens
    and white space passes the emptiness check of [main] and still gives
    the empty directory name. *)
Theorem slug_empty_iff (text : string) :
  slugify text = "" ↔ some_char is_alnum text = false.
Proof.
  change (slugify text) with (take_str 80 (before_cut text)).
  rewrite take_str_empty, <- before_cut_some. split.
  - by intros ->.
  - intros Hnone. pose proof (before_cut_chars text) as Hchars.
    pose proof (strip_char_head "_"
      (sub_runs (λ c, Ascii.eqb c "_") "_" false
         (sub_runs is_space_or_hyphen "_" false
            (keep (λ c, is_word c || is_space_or_hyphen c)
               (lower (Py.strip text)))))) as Hhead.
    change (strip_char "_" _) with (before_cut text) in Hhead.
    destruct (before_cut text) as [|c r]; [done|]. exfalso.
    cbn [some_char] in Hnone. apply orb_false_iff in Hnone as [Hc _].
    destruct Hchars as [[Hw _] _].
    rewrite (word_not_alnum c Hw Hc) in Hhead. by rewrite startswith_char in Hhead.
Qed.

End SlugShape.

Section ProjectDir.

Import Slug.

Lemma split_append (a b : string) :
  Py.split posixpath.sep (a +:+ String posixpath.sep b)
  = Py.split posixpath.sep a ++ Py.split posixpath.sep b.
Proof.
  induction a as [|c a IH].
  - reflexivity.
  - rewrite append_cons_l. cbn [Py.split].
    destruct (Ascii.eqb c posixpath.sep); [by rewrite IH|].
    rewrite IH. pose proof (split_not_nil posixpath.sep a) as Hne.
    by destruct (Py.split posixpath.sep a).
Qed.

Lemma all_chars_no_sep s :
  all_chars (λ c, c ≠ "/"%char) s → Py.no_sep posixpath.sep s.
Proof. induction s as [|c s IH]; [done|]. intros [? ?]. split; auto. Qed.

(** X18.  The project directory [main] derives from a requirement is the
    projects directory itself when the slug is empty, and otherwise the
    projects directory with exactly one more path component, the slug: a
    requirement cannot steer the project out of the projects directory. *)
Theorem project_dir_is_a_child (projects_base user_requirement : string) :
  projects_base ≠ "" → Py.endswith_char projects_base "/" = false →
  project_dir projects_base user_requirement
  = projects_base +:+ "/" +:+ slugify user_requirement
  ∧ (slugify user_requirement = "" →
     posixpath.comps (project_dir projects_base user_requirement)
     = posixpath.comps projects_base)
  ∧ (slugify user_requirement ≠ "" →
     posixpath.comps (project_dir projects_base user_requirement)
     = posixpath.comps projects_base ++ [slugify user_requirement]).
Proof.
  intros Hne Hend.
  pose proof (slug_alphabet_chars user_requirement) as Hchars.
  set (slug := slugify user_requirement) in *.
  assert (Py.startswith slug "/" = false) as Hrel.
  { destruct slug as [|c r]; [done|]. destruct Hchars as [(_ & Hc) _].
    rewrite startswith_char. by destruct (Ascii.eqb_spec "/" c) as [<-|]. }
  assert (project_dir projects_base user_requirement
          = projects_base +:+ String posixpath.sep slug) as Hjoin.
  { unfold project_dir, posixpath.join, posixpath.sep. fold slug. rewrite Hrel, Hend.
    unfold Py.truthy. by rewrite bool_decide_eq_false_2. }
  split; [exact Hjoin|].
  assert (posixpath.comps (project_dir projects_base user_requirement)
          = posixpath.comps projects_base ++ posixpath.comps slug) as Hcomps.
  { rewrite Hjoin. unfold posixpath.comps. by rewrite split_append, filter_app. }
  split.
  - intros Hempty. rewrite Hcomps, Hempty. by rewrite app_nil_r.
  - intros Hslug. rewrite Hcomps. f_equal. unfold posixpath.comps.
    rewrite split_whole.
    + rewrite filter_cons_True; [done|]. split; [done|].
      intros Hdot. rewrite Hdot in Hchars. by destruct Hchars as [[Hw _] _].
    + apply all_chars_no_sep. eapply all_chars_impl; [|exact Hchars]. by intros c [_ ?].
Qed.

End ProjectDir.

Lemma project_dir_is_a_child_witness :
  posixpath.comps (Slug.project_dir "/app/projects" "Build ../../etc: a snake-game!")
  = posixpath.comps "/app/projects" ++ [Slug.slugify "Build ../../etc: a snake-game!"].
Proof.
  apply (proj2 (proj2 (project_dir_is_a_child "/app/projects"
                         "Build ../../etc: a snake-game!"
                         ltac:(discriminate) eq_refl))).
  vm_compute. discriminate.
Defined.

(** ** [slugify] on concrete inputs *)

Example slug_of_a_requirement : Slug.slugify "Build a snake game" = "build_a_snake_game".
Proof. vm_compute. reflexivity. Qed.

Example slug_drops_punctuation : Slug.slugify "  --Hello,  World!-- " = "hello_world".
Proof. vm_compute. reflexivity. Qed.

Example slug_merges_separators : Slug.slugify "x - _ - y" = "x_y".
Proof. vm_compute. reflexivity. Qed.

Example slug_of_punctuation_is_empty :
  Slug.slugify "!!!" = "" ∧ Slug.project_dir "/app/projects" "!!!" = "/app/projects/".
Proof. split; vm_compute; reflexivity. Qed.

Example slug_cut_may_end_in_underscore :
  Slug.slugify
    "aaaaaaaaaaaaaaaaaaaaaaaaaaaaaaaaaaaaaaaaaaaaaaaaaaaaaaaaaaaaaaaaaaaaaaaaaaaaaaa b c"
  = "aaaaaaaaaaaaaaaaaaaaaaaaaaaaaaaaaaaaaaaaaaaaaaaaaaaaaaaaaaaaaaaaaaaaaaaaaaaaaaa_".
Proof. vm_compute. reflexivity. Qed.
